(** * Swift Notes: the note store and its storage adapter

    A shallow embedding of [hooks/useNotes] (the note store: the effect
    that loads on mount, [saveNotes], [createNote], [updateNote],
    [deleteNote], [exportNotes], [importNotes]) and of the import
    handler [handleFileChange] of [components/NoteSidebar.tsx], together
    with the parts of the host platform they call: [JSON.parse],
    [JSON.stringify], [Date] and [localStorage].  Of the two versions of
    the hook in the sources the model follows the later one, which has
    the import.  Around the store it embeds the list, the previews and
    the dates of the sidebar, the selection kept by [pages/Index], the
    animated placeholder [TypewriterText] and the delayed saving of the
    editor.

    Conventions of the model.
    - A JavaScript string is the [string] of its UTF-8 bytes.
    - A property that may be missing at run time ([undefined]) is an
      [option].
    - A time value is a number of milliseconds since the epoch, in [Z];
      a [Date] holds a time value or is the invalid date.
    - [localStorage] is a finite map from keys to texts.
    - The wall clock and [Math.random] are oracles, read through
      counters kept in the world state: one reading per call.
    - An operation is a function from worlds to results: a value and a
      new world, a thrown error and the world at the throw, or
      [Unmodelled] when a stored or imported record has properties that
      the model does not cover (see [decode]).
    - Every store operation is run on the collection of the current
      render, that is, React re-renders between two operations.  The
      callbacks that run later (the save timers of the editor, the
      [onload] of a file that is being read) carry the collection of
      the render that made them. *)

From Stdlib Require Import ZArith Lia String Ascii List Bool DecimalString.
From stdpp Require Import base tactics option list strings gmap.

Set Warnings "-register-all".

#[local] Arguments String.append !_ _ / : simpl nomatch.

Open Scope string_scope.
Open Scope Z_scope.

(** ** JSON texts *)

Module Json.

Inductive json : Type :=
| JNull
| JBool (b : bool)
| JNum (lexeme : string)
| JStr (s : string)
| JArr (elems : list json)
| JObj (members : list (string * json)).

(** *** Characters *)

Definition code (c : ascii) : Z := Z.of_nat (nat_of_ascii c).
Definition chr (n : Z) : ascii := ascii_of_nat (Z.to_nat n).

(** The double quote, code 34. *)
Definition dq : ascii := "034"%char.

Definition is_ws (c : ascii) : bool :=
  (c =? " ")%char || (code c =? 9) || (code c =? 10) || (code c =? 13).

Definition is_digit (c : ascii) : bool := (48 <=? code c) && (code c <=? 57).

Definition hex_digit (n : Z) : ascii :=
  if n <? 10 then chr (48 + n) else chr (87 + n).

Definition hex_value (c : ascii) : option Z :=
  let n := code c in
  if (48 <=? n) && (n <=? 57) then Some (n - 48)
  else if (97 <=? n) && (n <=? 102) then Some (n - 87)
  else if (65 <=? n) && (n <=? 70) then Some (n - 55)
  else None.

(** *** [JSON.stringify] on strings (QuoteJSONString) *)

Definition escape_char (c : ascii) : string :=
  let n := code c in
  if n =? 34 then String "\" (String dq "")
  else if n =? 92 then "\\"
  else if n =? 8 then "\b"
  else if n =? 9 then "\t"
  else if n =? 10 then "\n"
  else if n =? 12 then "\f"
  else if n =? 13 then "\r"
  else if n <? 32 then
    String "\" (String "u" (String "0" (String "0"
      (String (hex_digit (n / 16)) (String (hex_digit (n mod 16)) "")))))
  else String c "".

Fixpoint escape (s : string) : string :=
  match s with
  | "" => ""
  | String c r => escape_char c ++ escape r
  end.

Definition quote (s : string) : string := String dq (escape s ++ String dq "").

(** *** [JSON.parse] *)

Fixpoint skip_ws (s : string) : string :=
  match s with
  | String c r => if is_ws c then skip_ws r else s
  | "" => ""
  end.

(** A code unit given by a [\uXXXX] escape, as characters of the model:
    one character below 128, the two- or three-byte form above. *)
Definition unit_chars (n : Z) : string :=
  if n <? 128 then String (chr n) ""
  else if n <? 2048 then
    String (chr (192 + n / 64)) (String (chr (128 + n mod 64)) "")
  else
    String (chr (224 + n / 4096))
      (String (chr (128 + (n / 64) mod 64)) (String (chr (128 + n mod 64)) "")).

Definition simple_escape (e : ascii) : option ascii :=
  let n := code e in
  if n =? 34 then Some e
  else if n =? 92 then Some e
  else if n =? 47 then Some e
  else if n =? 98 then Some (chr 8)
  else if n =? 102 then Some (chr 12)
  else if n =? 110 then Some (chr 10)
  else if n =? 114 then Some (chr 13)
  else if n =? 116 then Some (chr 9)
  else None.

Definition hex4 (a b c d : ascii) : option Z :=
  match hex_value a, hex_value b, hex_value c, hex_value d with
  | Some x, Some y, Some z, Some w => Some (((x * 16 + y) * 16 + z) * 16 + w)
  | _, _, _, _ => None
  end.

Definition prepend (p : string) (r : option (string * string)) :
  option (string * string) :=
  match r with
  | Some (s, rest) => Some (p ++ s, rest)
  | None => None
  end.

(** The characters of a string literal after its opening quote, up to
    and including the closing quote. *)
Fixpoint parse_chars (s : string) : option (string * string) :=
  match s with
  | "" => None
  | String c r =>
    if code c =? 34 then Some ("", r)
    else if code c =? 92 then
      match r with
      | String e r' =>
        if code e =? 117 then
          match r' with
          | String h1 (String h2 (String h3 (String h4 r''))) =>
            match hex4 h1 h2 h3 h4 with
            | Some n => prepend (unit_chars n) (parse_chars r'')
            | None => None
            end
          | _ => None
          end
        else
          match simple_escape e with
          | Some d => prepend (String d "") (parse_chars r')
          | None => None
          end
      | "" => None
      end
    else if code c <? 32 then None
    else prepend (String c "") (parse_chars r)
  end.

Fixpoint span_digits (s : string) : string * string :=
  match s with
  | String c r =>
    if is_digit c then let '(d, rest) := span_digits r in (String c d, rest)
    else ("", s)
  | "" => ("", "")
  end.

(** A number: an optional minus sign, an integer part without leading
    zero, an optional fraction and an optional exponent.  The lexeme is
    kept as written. *)
Definition parse_int (s : string) : option (string * string) :=
  match s with
  | String c r =>
    if code c =? 48 then Some ("0", r)
    else if is_digit c then
      let '(d, rest) := span_digits r in Some (String c d, rest)
    else None
  | "" => None
  end.

Definition parse_frac (s : string) : option (string * string) :=
  match s with
  | String c r =>
    if (c =? ".")%char then
      match span_digits r with
      | ("", _) => None
      | (d, rest) => Some (String "." d, rest)
      end
    else Some ("", s)
  | "" => Some ("", s)
  end.

Definition parse_exp (s : string) : option (string * string) :=
  match s with
  | String c r =>
    if (c =? "e")%char || (c =? "E")%char then
      let '(sign, r1) :=
        match r with
        | String g r' =>
          if (g =? "+")%char || (g =? "-")%char then (String g "", r')
          else ("", r)
        | "" => ("", r)
        end in
      match span_digits r1 with
      | ("", _) => None
      | (d, rest) => Some (String c (sign ++ d), rest)
      end
    else Some ("", s)
  | "" => Some ("", s)
  end.

Definition parse_sign (s : string) : string * string :=
  match s with
  | String c r => if (c =? "-")%char then ("-", r) else ("", s)
  | "" => ("", s)
  end.

Definition parse_number (s : string) : option (string * string) :=
  let '(sign, r0) := parse_sign s in
  '(i, r1) ← parse_int r0;
  '(f, r2) ← parse_frac r1;
  '(e, r3) ← parse_exp r2;
  Some (sign ++ i ++ f ++ e, r3).

Fixpoint expect (lit s : string) : option string :=
  match lit, s with
  | "", _ => Some s
  | String a l, String b r => if (a =? b)%char then expect l r else None
  | String _ _, "" => None
  end.

(** The values without parts: the three literals, a text, a number.
    [c] is the first character, [r] what follows it. *)
Definition parse_scalar (c : ascii) (r : string) : option (json * string) :=
  if (c =? "n")%char then r' ← expect "ull" r; Some (JNull, r')
  else if (c =? "t")%char then r' ← expect "rue" r; Some (JBool true, r')
  else if (c =? "f")%char then r' ← expect "alse" r; Some (JBool false, r')
  else if (c =? dq)%char then '(str, r') ← parse_chars r; Some (JStr str, r')
  else '(lex, r') ← parse_number (String c r); Some (JNum lex, r').

(** The fuel bounds the depth of the recursion; [parse_enough_fuel]
    below shows that twice the length of the text is always enough. *)
Fixpoint parse_value (fuel : nat) (s : string) {struct fuel} :
  option (json * string) :=
  match fuel with
  | O => None
  | S fuel =>
    match skip_ws s with
    | "" => None
    | String c r =>
      if (c =? "[")%char then
        match skip_ws r with
        | String d r' =>
          if (d =? "]")%char then Some (JArr [], r')
          else '(vs, r'') ← parse_elements fuel r; Some (JArr vs, r'')
        | "" => None
        end
      else if (c =? "{")%char then
        match skip_ws r with
        | String d r' =>
          if (d =? "}")%char then Some (JObj [], r')
          else '(ms, r'') ← parse_members fuel r; Some (JObj ms, r'')
        | "" => None
        end
      else parse_scalar c r
    end
  end
with parse_elements (fuel : nat) (s : string) {struct fuel} :
  option (list json * string) :=
  match fuel with
  | O => None
  | S fuel =>
    '(v, r) ← parse_value fuel s;
    match skip_ws r with
    | String d r' =>
      if (d =? ",")%char then
        '(vs, r'') ← parse_elements fuel r'; Some (v :: vs, r'')
      else if (d =? "]")%char then Some ([v], r')
      else None
    | "" => None
    end
  end
with parse_members (fuel : nat) (s : string) {struct fuel} :
  option (list (string * json) * string) :=
  match fuel with
  | O => None
  | S fuel =>
    match skip_ws s with
    | String c r =>
      if (c =? dq)%char then
        '(k, r1) ← parse_chars r;
        match skip_ws r1 with
        | String d r2 =>
          if (d =? ":")%char then
            '(v, r3) ← parse_value fuel r2;
            match skip_ws r3 with
            | String e r4 =>
              if (e =? ",")%char then
                '(ms, r5) ← parse_members fuel r4; Some ((k, v) :: ms, r5)
              else if (e =? "}")%char then Some ([(k, v)], r4)
              else None
            | "" => None
            end
          else None
        | "" => None
        end
      else None
    | "" => None
    end
  end.

(** [JSON.parse]: one value between white space, nothing after it.
    [None] is the [SyntaxError]. *)
Definition parse (s : string) : option json :=
  match parse_value (2 * String.length s + 2) s with
  | Some (v, r) => match skip_ws r with "" => Some v | _ => None end
  | None => None
  end.

(** *** [JSON.stringify], without indentation *)

Fixpoint join (texts : list string) : string :=
  match texts with
  | [] => ""
  | t :: rest =>
    match rest with
    | [] => t
    | _ :: _ => t ++ "," ++ join rest
    end
  end.

Fixpoint stringify (v : json) : string :=
  match v with
  | JNull => "null"
  | JBool true => "true"
  | JBool false => "false"
  | JNum lexeme => lexeme
  | JStr s => quote s
  | JArr vs => "[" ++ join (map stringify vs) ++ "]"
  | JObj ms =>
    "{" ++ join (map (fun m => quote (fst m) ++ ":" ++ stringify (snd m)) ms)
        ++ "}"
  end.

(** The value of property [k] of a parsed object: of two members with
    the same key the later one wins. *)
Fixpoint property (k : string) (ms : list (string * json)) : option json :=
  match ms with
  | [] => None
  | (k', v) :: ms' =>
    match property k ms' with
    | Some v' => Some v'
    | None => if String.eqb k k' then Some v else None
    end
  end.

End Json.


(** ** Dates *)

Module Date.

Import Json.

(** A [Date] object: a time value in milliseconds since the epoch, or
    the invalid date (time value [NaN]). *)
Inductive Date : Type :=
| DateAt (t : Z)
| InvalidDate.

Definition ms_per_day : Z := 86400000.
Definition max_time : Z := 8640000000000000.

Definition in_range (t : Z) : bool := (- max_time <=? t) && (t <=? max_time).

(** [new Date(t)] for a number [t] (TimeClip). *)
Definition of_time (t : Z) : Date :=
  if in_range t then DateAt t else InvalidDate.

(** *** The proleptic Gregorian calendar *)

(** Days of the 400-year era to year of era, month (March = 0) and day. *)
Definition year_of_era (doe : Z) : Z :=
  (doe - doe / 1460 + doe / 36524 - doe / 146096) / 365.
Definition day_of_year (doe : Z) : Z :=
  let yoe := year_of_era doe in doe - (365 * yoe + yoe / 4 - yoe / 100).
Definition month_index (doy : Z) : Z := (5 * doy + 2) / 153.

Definition civil_from_days (z : Z) : Z * Z * Z :=
  let z := z + 719468 in
  let era := z / 146097 in
  let doe := z - era * 146097 in
  let yoe := year_of_era doe in
  let doy := day_of_year doe in
  let mp := month_index doy in
  let d := doy - (153 * mp + 2) / 5 + 1 in
  let m := if mp <? 10 then mp + 3 else mp - 9 in
  let y := yoe + era * 400 + (if m <=? 2 then 1 else 0) in
  (y, m, d).

Definition days_from_civil (y m d : Z) : Z :=
  let y := if m <=? 2 then y - 1 else y in
  let era := y / 400 in
  let yoe := y - era * 400 in
  let doy := (153 * (if 2 <? m then m - 3 else m + 9) + 2) / 5 + d - 1 in
  let doe := yoe * 365 + yoe / 4 - yoe / 100 + doy in
  era * 146097 + doe - 719468.

Definition is_leap (y : Z) : bool :=
  (y mod 4 =? 0) && (negb (y mod 100 =? 0) || (y mod 400 =? 0)).

Definition days_in_month (y m : Z) : Z :=
  if m =? 2 then (if is_leap y then 29 else 28)
  else if (m =? 4) || (m =? 6) || (m =? 9) || (m =? 11) then 30
  else 31.

(** *** Fixed-width decimal fields *)

Fixpoint pad (w : nat) (n : Z) : string :=
  match w with
  | O => ""
  | S w' =>
    String (chr (48 + n / 10 ^ Z.of_nat w')) (pad w' (n mod 10 ^ Z.of_nat w'))
  end.

Fixpoint read (w : nat) (s : string) : option (Z * string) :=
  match w with
  | O => Some (0, s)
  | S w' =>
    match s with
    | String c r =>
      if is_digit c then
        '(v, rest) ← read w' r;
        Some ((code c - 48) * 10 ^ Z.of_nat w' + v, rest)
      else None
    | "" => None
    end
  end.

(** *** [Date.prototype.toISOString] *)

Definition iso_year (y : Z) : string :=
  if (0 <=? y) && (y <=? 9999) then pad 4 y
  else if y <? 0 then String "-" (pad 6 (- y))
  else String "+" (pad 6 y).

Definition iso_of_time (t : Z) : string :=
  let '(y, m, d) := civil_from_days (t / ms_per_day) in
  let r := t mod ms_per_day in
  iso_year y ++ "-" ++ pad 2 m ++ "-" ++ pad 2 d ++ "T" ++
  pad 2 (r / 3600000) ++ ":" ++ pad 2 (r / 60000 mod 60) ++ ":" ++
  pad 2 (r / 1000 mod 60) ++ "." ++ pad 3 (r mod 1000) ++ "Z".

(** [toISOString] throws a [RangeError] on the invalid date. *)
Definition toISOString (d : Date) : option string :=
  match d with
  | DateAt t => Some (iso_of_time t)
  | InvalidDate => None
  end.

(** *** [Date.parse] on the complete date-time form

    The format that [toISOString] writes: a four-digit year or a signed
    six-digit one, month, day, [T], hours (up to 23), minutes, seconds,
    milliseconds and [Z], the day one of the month.  What a host makes
    of any other text is left to the host (see [Host]). *)

Definition read_year (s : string) : option (Z * string) :=
  match s with
  | String c r =>
    if code c =? 43 then read 6 r
    else if code c =? 45 then
      '(y, rest) ← read 6 r; if y =? 0 then None else Some (- y, rest)
    else read 4 s
  | "" => None
  end.

Definition parse_iso (s : string) : option Z :=
  '(y, s) ← read_year s;
  s ← expect "-" s;
  '(m, s) ← read 2 s;
  s ← expect "-" s;
  '(d, s) ← read 2 s;
  s ← expect "T" s;
  '(h, s) ← read 2 s;
  s ← expect ":" s;
  '(mi, s) ← read 2 s;
  s ← expect ":" s;
  '(sec, s) ← read 2 s;
  s ← expect "." s;
  '(ms, s) ← read 3 s;
  s ← expect "Z" s;
  match s with
  | "" =>
    if (1 <=? m) && (m <=? 12) && (1 <=? d) && (d <=? days_in_month y m)
       && (h <=? 23) && (mi <=? 59) && (sec <=? 59)
    then
      let t := days_from_civil y m d * ms_per_day
               + h * 3600000 + mi * 60000 + sec * 1000 + ms in
      if in_range t then Some t else None
    else None
  | _ => None
  end.

End Date.


(** ** The note store *)

Import Json Date.

(** [Note] of [types/note], with what may be missing at run time made
    explicit: a record read from storage or from an import file is
    spread into the note as it is, so [id], [title] and [content] are
    [None] when the record lacks them. *)
Record Note : Type := {
  id : option string;
  title : option string;
  content : option string;
  language : string;
  createdAt : Date;
  updatedAt : Date;
}.

(** [Partial<Omit<Note, 'id' | 'createdAt'>>]: [None] is a property
    that is not given. *)
Record NoteUpdates : Type := {
  u_title : option string;
  u_content : option string;
  u_language : option string;
  u_updatedAt : option Date;
}.

Definition STORAGE_KEY : string := "swift-notes".


(** *** Notes as JSON *)

(** [Date.prototype.toJSON]: the ISO text, [null] for the invalid date. *)
Definition date_toJSON (d : Date) : json :=
  match toISOString d with
  | Some text => JStr text
  | None => JNull
  end.

Definition member (k : string) (v : option string) : list (string * json) :=
  match v with
  | Some s => [(k, JStr s)]
  | None => []
  end.

(** The object that [JSON.stringify] sees; an [undefined] property is
    left out.  Properties are listed in the order of the [Note] type:
    the order in which a JavaScript object happens to hold them is not
    modelled. *)
Definition note_toJSON (n : Note) : json :=
  JObj (member "id" (id n) ++ member "title" (title n) ++
        member "content" (content n) ++
        [("language", JStr (language n));
         ("createdAt", date_toJSON (createdAt n));
         ("updatedAt", date_toJSON (updatedAt n))])%list.

Definition JSON_stringify (ns : list Note) : string :=
  stringify (JArr (map note_toJSON ns)).

(** A record as [JSON.parse] delivers it, read at the six properties of
    a note.  The model covers the records whose properties are those
    that [JSON_stringify] writes (a string; for the two dates a string
    or [null]), any of them possibly missing; for the language, which
    is read under [||] only, also [null] and [false]. *)
Inductive raw_date : Type :=
| Absent
| Null
| Text (s : string).

Record Raw : Type := {
  r_id : option string;
  r_title : option string;
  r_content : option string;
  r_language : option string;
  r_createdAt : raw_date;
  r_updatedAt : raw_date;
}.

Inductive decoded : Type :=
| Readable (r : Raw)
| NullRecord     (* [null]: reading a property of it throws *)
| Beyond.        (* outside the records the model covers *)

Definition known_keys : list string :=
  ["id"; "title"; "content"; "language"; "createdAt"; "updatedAt"].

Definition text_property (k : string) (ms : list (string * json)) :
  option (option string) :=
  match property k ms with
  | None => Some None
  | Some (JStr s) => Some (Some s)
  | Some _ => None
  end.

Definition date_property (k : string) (ms : list (string * json)) :
  option raw_date :=
  match property k ms with
  | None => Some Absent
  | Some JNull => Some Null
  | Some (JStr s) => Some (Text s)
  | Some _ => None
  end.

(** [note.language] is replaced by [note.language || 'plaintext']: a
    [null] or a [false] counts as a language that is missing. *)
Definition language_property (ms : list (string * json)) :
  option (option string) :=
  match property "language" ms with
  | None | Some JNull | Some (JBool false) => Some None
  | Some (JStr s) => Some (Some s)
  | Some _ => None
  end.

Definition empty_raw : Raw :=
  {| r_id := None; r_title := None; r_content := None; r_language := None;
     r_createdAt := Absent; r_updatedAt := Absent |}.

Definition decode (v : json) : decoded :=
  match v with
  | JNull => NullRecord
  | JObj ms =>
    if forallb (fun '(k, _) => existsb (String.eqb k) known_keys) ms then
      match text_property "id" ms, text_property "title" ms,
            text_property "content" ms, language_property ms,
            date_property "createdAt" ms, date_property "updatedAt" ms with
      | Some i, Some t, Some c, Some l, Some ca, Some ua =>
        Readable {| r_id := i; r_title := t; r_content := c; r_language := l;
                   r_createdAt := ca; r_updatedAt := ua |}
      | _, _, _, _, _, _ => Beyond
      end
    else Beyond
  (* a number, a boolean, the empty string and the empty array have no
     own property to spread and none of the six to read *)
  | JBool _ | JNum _ | JStr "" | JArr [] => Readable empty_raw
  | JStr _ | JArr _ => Beyond
  end.

(** *** The host: clock, random numbers, lenient date parsing *)

Class Host : Type := {
  (** the [k]-th reading of the wall clock, in milliseconds *)
  clock : nat -> Z;
  (** the decimal text of the [k]-th number drawn by [Math.random] *)
  random : nat -> string;
  (** what [Date.parse] makes of a text that is not in the complete
      date-time form; [None] is [NaN] *)
  lenient_parse : string -> option Z;
}.

(** *** The world: React state, local storage, oracle counters *)

Record World : Type := {
  notes : list Note;                    (* the state of [useNotes] *)
  localStorage : gmap string string;
  ticks : nat;                          (* clock readings taken so far *)
  draws : nat;                          (* random numbers drawn so far *)
}.

Inductive error : Type := SyntaxError | TypeError.

Inductive result (A : Type) : Type :=
| Ok (a : A) (w : World)
| Throws (e : error) (w : World)
| Unmodelled.
Arguments Ok {A} a w.
Arguments Throws {A} e w.
Arguments Unmodelled {A}.

Definition M (A : Type) : Type := World -> result A.

Definition ret {A} (a : A) : M A := fun w => Ok a w.

Definition bind {A B} (m : M A) (k : A -> M B) : M B :=
  fun w =>
    match m w with
    | Ok a w' => k a w'
    | Throws e w' => Throws e w'
    | Unmodelled => Unmodelled
    end.

Definition throw {A} (e : error) : M A := fun w => Throws e w.
Definition beyond {A} : M A := fun _ => Unmodelled.

(** [try { m } catch { h }] *)
Definition try_catch {A} (m : M A) (h : error -> M A) : M A :=
  fun w =>
    match m w with
    | Throws e w' => h e w'
    | r => r
    end.

Declare Scope js_scope.
Delimit Scope js_scope with js.
Notation "'let*' x ':=' m 'in' k" := (bind m (fun x => k))
  (at level 10, x name, k at level 200) : js_scope.
Notation "m ;; k" := (bind m (fun _ => k))
  (at level 100, right associativity) : js_scope.
Open Scope js_scope.

Fixpoint mapM {A B} (f : A -> M B) (l : list A) : M (list B) :=
  match l with
  | [] => ret []
  | a :: l' => let* b := f a in let* bs := mapM f l' in ret (b :: bs)
  end.

(** [Number.prototype.toString] on an integer: its decimal text. *)
Definition toString (n : Z) : string :=
  NilZero.string_of_int (Z.to_int n).

Section Store.

Context `{Host}.

Definition Date_now : M Z :=
  fun w => Ok (clock (ticks w))
              {| notes := notes w; localStorage := localStorage w;
                 ticks := S (ticks w); draws := draws w |}.

Definition Math_random : M string :=
  fun w => Ok (random (draws w))
              {| notes := notes w; localStorage := localStorage w;
                 ticks := ticks w; draws := S (draws w) |}.

(** [new Date()] *)
Definition new_Date : M Date := let* t := Date_now in ret (of_time t).

(** [new Date(text)] *)
Definition Date_parse (s : string) : option Z :=
  match parse_iso s with
  | Some t => Some t
  | None => lenient_parse s
  end.

Definition Date_of_string (s : string) : Date :=
  match Date_parse s with
  | Some t => of_time t
  | None => InvalidDate
  end.

(** [new Date(v)] for a property as read from a record: [undefined]
    gives the invalid date, [null] the epoch. *)
Definition Date_of_raw (v : raw_date) : Date :=
  match v with
  | Absent => InvalidDate
  | Null => of_time 0
  | Text s => Date_of_string s
  end.

(** [localStorage.getItem] and [localStorage.setItem] *)
Definition getItem (key : string) : M (option string) :=
  fun w => Ok (localStorage w !! key) w.

Definition setItem (key value : string) : M unit :=
  fun w => Ok tt {| notes := notes w;
                    localStorage := <[key := value]> (localStorage w);
                    ticks := ticks w; draws := draws w |}.

Definition getNotes : M (list Note) := fun w => Ok (notes w) w.

Definition setNotes (ns : list Note) : M unit :=
  fun w => Ok tt {| notes := ns; localStorage := localStorage w;
                    ticks := ticks w; draws := draws w |}.

(** [x || d] on a text property: [undefined] and the empty string are
    falsy. *)
Definition or_else (x : option string) (d : string) : string :=
  match x with
  | Some s => if String.eqb s "" then d else s
  | None => d
  end.

Definition welcome_content : string :=
  "Start writing your thoughts here. This is a simple and elegant notes app where you can create, edit, and organize your notes.

Features:
• Clean, distraction-free writing
• Auto-save functionality
• Search through your notes
• Elegant design

Click the " ++ String dq "+" ++ String dq " button to create a new note!".

(** The record of the [map] callback of the mount effect. *)
Definition revive (v : json) : M Note :=
  match decode v with
  | Readable r =>
    ret {| id := r_id r; title := r_title r; content := r_content r;
           language := or_else (r_language r) "plaintext";
           createdAt := Date_of_raw (r_createdAt r);
           updatedAt := Date_of_raw (r_updatedAt r) |}
  | NullRecord => throw TypeError
  | Beyond => beyond
  end.

(** The two branches of the effect that [useNotes] runs on mount. *)
Definition seed : M unit :=
  let* c := new_Date in
  let* u := new_Date in
  let welcomeNote :=
    {| id := Some "1"; title := Some "Welcome to Swift Notes";
       content := Some welcome_content; language := "plaintext";
       createdAt := c; updatedAt := u |} in
  setNotes [welcomeNote] ;;
  setItem STORAGE_KEY (JSON_stringify [welcomeNote]).

Definition adopt (savedNotes : string) : M unit :=
  match parse savedNotes with
  | None => throw SyntaxError
  | Some (JArr records) =>
    let* parsedNotes := mapM revive records in
    setNotes parsedNotes
  | Some _ => throw TypeError   (* [.map] is not a function *)
  end.

(** The effect that [useNotes] runs on mount; [if (savedNotes)] is
    false for [null] and for the empty text. *)
Definition useNotes_effect : M unit :=
  let* savedNotes := getItem STORAGE_KEY in
  match savedNotes with
  | Some text => if String.eqb text "" then seed else adopt text
  | None => seed
  end.

Definition saveNotes (newNotes : list Note) : M unit :=
  setNotes newNotes ;;
  setItem STORAGE_KEY (JSON_stringify newNotes).

Definition createNote : M Note :=
  let* now := Date_now in
  let* c := new_Date in
  let* u := new_Date in
  let newNote :=
    {| id := Some (toString now); title := Some "Untitled Note";
       content := Some ""; language := "plaintext";
       createdAt := c; updatedAt := u |} in
  let* notes := getNotes in
  let updatedNotes := newNote :: notes in
  saveNotes updatedNotes ;;
  ret newNote.

(** [note.id === id] *)
Definition id_is (i : string) (note : Note) : bool :=
  match id note with
  | Some j => String.eqb j i
  | None => false
  end.

(** [{ ...note, ...updates, updatedAt: d }] *)
Definition merge (note : Note) (updates : NoteUpdates) (d : Date) : Note :=
  {| id := id note;
     title :=
       match u_title updates with Some t => Some t | None => title note end;
     content :=
       match u_content updates with Some c => Some c | None => content note end;
     language :=
       match u_language updates with Some l => l | None => language note end;
     createdAt := createdAt note;
     updatedAt := d |}.

Definition updateNote (i : string) (updates : NoteUpdates) : M unit :=
  let* notes := getNotes in
  let* updatedNotes :=
    mapM (fun note =>
            if id_is i note
            then let* d := new_Date in ret (merge note updates d)
            else ret note) notes in
  saveNotes updatedNotes.

Definition deleteNote (i : string) : M unit :=
  let* notes := getNotes in
  let updatedNotes := List.filter (fun note => negb (id_is i note)) notes in
  saveNotes updatedNotes.

Definition importNotes (importedNotes : list Note) : M unit :=
  let* notes := getNotes in
  let existingIds : gset (option string) := list_to_set (map id notes) in
  let newNotes :=
    List.filter (fun note => negb (bool_decide (id note ∈ existingIds)))
                importedNotes in
  let updatedNotes := (newNotes ++ notes)%list in
  saveNotes updatedNotes.

(** *** The import handler of [NoteSidebar] *)

(** [v || Date.now()] under [new Date(...)]: the clock is read only when
    the property is falsy. *)
Definition Date_of_raw_or_now (v : raw_date) : M Date :=
  match v with
  | Text s =>
    if String.eqb s "" then new_Date else ret (Date_of_string s)
  | Absent | Null => new_Date
  end.

(** [Date.now().toString() + Math.random()] *)
Definition fresh_id : M string :=
  let* now := Date_now in
  let* r := Math_random in
  ret (toString now ++ r).

(** The record of the [map] callback of [handleFileChange]. *)
Definition normalize (v : json) : M Note :=
  match decode v with
  | Readable r =>
    let* i :=
      match r_id r with
      | Some s =>
        if String.eqb s "" then fresh_id else ret s
      | None => fresh_id
      end in
    let* c := Date_of_raw_or_now (r_createdAt r) in
    let* u := Date_of_raw_or_now (r_updatedAt r) in
    ret {| id := Some i; title := r_title r; content := r_content r;
           language := or_else (r_language r) "plaintext";
           createdAt := c; updatedAt := u |}
  | NullRecord => throw TypeError
  | Beyond => beyond
  end.

Inductive import_report : Type :=
| Imported (count : nat)    (* [onImportNotes] was called *)
| Ignored                   (* not an array: nothing happens *)
| Alerted.                  (* the [catch] branch: an alert is shown *)

(** [handleImportNotes] of the page. *)
Definition handleImportNotes (importedNotes : list Note) : M unit :=
  importNotes importedNotes.

(** The [onload] callback of [handleFileChange], on the text of the
    chosen file, when the file is read in the render in which it was
    chosen: [onImportNotes] then works on the collection as it is. *)
Definition handleFileChange (content : string) : M import_report :=
  try_catch
    (match parse content with
     | None => throw SyntaxError
     | Some (JArr records) =>
       let* validNotes := mapM normalize records in
       handleImportNotes validNotes ;;
       ret (Imported (length validNotes))
     | Some _ => ret Ignored
     end)
    (fun _ => ret Alerted).

(** The same with the closures written out.  The file is read in the
    background and [reader.onload] runs when that is done; the
    [onImportNotes] it calls is the [importNotes] of the render in
    which the file was chosen, which works on the collection [notes] of
    that render, whatever the collection has become since. *)
Definition importNotes_of (notes : list Note) (importedNotes : list Note) :
  M unit :=
  let existingIds : gset (option string) := list_to_set (map id notes) in
  let newNotes :=
    List.filter (fun note => negb (bool_decide (id note ∈ existingIds)))
                importedNotes in
  let updatedNotes := (newNotes ++ notes)%list in
  saveNotes updatedNotes.

Definition onload (notes : list Note) (content : string) : M import_report :=
  try_catch
    (match parse content with
     | None => throw SyntaxError
     | Some (JArr records) =>
       let* validNotes := mapM normalize records in
       importNotes_of notes validNotes ;;
       ret (Imported (length validNotes))
     | Some _ => ret Ignored
     end)
    (fun _ => ret Alerted).

(** *** The language alone, of any record *)

(** Whether a value counts as true under [||].  For a number that is
    whether it is zero as a double, which is floating-point arithmetic
    and not modelled: [None]. *)
Definition truthy (v : json) : option bool :=
  match v with
  | JNull => Some false
  | JBool b => Some b
  | JStr s => Some (negb (String.eqb s ""))
  | JNum _ => None
  | JArr _ | JObj _ => Some true
  end.

(** [note.language] for a record that is not [null]: [None] is
    [undefined], which is what every value but an object with the
    property gives. *)
Definition language_of (v : json) : option json :=
  match v with
  | JObj ms => property "language" ms
  | _ => None
  end.

(** [note.language || 'plaintext'] of the two [map] callbacks, on any
    record that is not [null]; [None] where [truthy] has no answer. *)
Definition language_or_plaintext (v : json) : option json :=
  match language_of v with
  | None => Some (JStr "plaintext")
  | Some l =>
    match truthy l with
    | Some true => Some l
    | Some false => Some (JStr "plaintext")
    | None => None
    end
  end.

End Store.


(** * Vocabulary of the statements *)

Section Vocabulary.

Context `{Host}.

(** ** Texts that a collection is written as *)

(** The values a note is written with: texts and [null]. *)
Definition flat (v : json) : bool :=
  match v with
  | JStr _ | JNull => true
  | _ => false
  end.

Definition member_text (m : string * json) : string :=
  quote (fst m) ++ ":" ++ stringify (snd m).

(** An object of the kind a note is written as: at least one member,
    every value a text or [null]. *)
Definition flat_object (bound : nat) (v : json) : bool :=
  match v with
  | JObj (m :: ms) =>
    forallb (fun m => flat (snd m)) (m :: ms)
    && (length (m :: ms) <=? bound)%nat
  | _ => false
  end.

(** ** The days of an era *)

(** What is to hold of a day of the era: the year, month and day that
    [civil_from_days] computes from it are legal and give the day
    back. *)
Definition era_day_ok (doe : Z) : bool :=
  let yoe := year_of_era doe in
  let doy := day_of_year doe in
  let mp := month_index doy in
  let d := doy - (153 * mp + 2) / 5 + 1 in
  let m := if mp <? 10 then mp + 3 else mp - 9 in
  let y := yoe + (if m <=? 2 then 1 else 0) in
  (0 <=? yoe) && (yoe <=? 399) &&
  (1 <=? m) && (m <=? 12) && (1 <=? d) && (d <=? days_in_month y m) &&
  ((if m <=? 2 then y - 1 else y) =? yoe) &&
  ((153 * (if 2 <? m then m - 3 else m + 9) + 2) / 5 + d - 1 =? doy) &&
  (yoe * 365 + yoe / 4 - yoe / 100 + doy =? doe).

Fixpoint all_from (k : nat) (f : Z -> bool) (start : Z) : bool :=
  match k with
  | O => f start
  | S k' => all_from k' f start && all_from k' f (start + 2 ^ Z.of_nat k')
  end.

(** ** Worlds and notes *)

(** The world after [saveNotes], with [k] clock readings taken. *)
Definition saved (w : World) (ns : list Note) (k : nat) : World :=
  {| notes := ns;
     localStorage := <[STORAGE_KEY := JSON_stringify ns]> (localStorage w);
     ticks := k; draws := draws w |}.

(** The collection after [updateNote]: every note with the given id is
    merged, each with its own reading of the clock. *)
Fixpoint updated (i : string) (updates : NoteUpdates) (k : nat)
    (ns : list Note) : list Note * nat :=
  match ns with
  | [] => ([], k)
  | note :: ns' =>
    if id_is i note then
      let '(ns'', k') := updated i updates (S k) ns' in
      (merge note updates (of_time (clock k)) :: ns'', k')
    else
      let '(ns'', k') := updated i updates k ns' in (note :: ns'', k')
  end.

(** The fields that [updates] gives replace those of [n]; the others,
    [id] and [createdAt] among them, are those of [n]. *)
Definition merged (updates : NoteUpdates) (n n' : Note) : Prop :=
  id n' = id n /\ createdAt n' = createdAt n /\
  title n' = from_option Some (title n) (u_title updates) /\
  content n' = from_option Some (content n) (u_content updates) /\
  language n' = default (language n) (u_language updates).

Definition Date_le (a b : Date) : Prop :=
  match a, b with
  | DateAt x, DateAt y => x <= y
  | _, _ => False
  end.

Definition Date_lt (a b : Date) : Prop :=
  match a, b with
  | DateAt x, DateAt y => x < y
  | _, _ => False
  end.

(** What [Date.prototype.toJSON] leaves for [new Date] to read. *)
Definition raw_of_date (d : Date) : raw_date :=
  match d with
  | DateAt t => Text (iso_of_time t)
  | InvalidDate => Null
  end.

Definition valid_stamp (d : Date) : Prop :=
  match d with
  | DateAt t => in_range t = true
  | InvalidDate => True
  end.

Definition redated (d : Date) : Date :=
  match d with
  | DateAt t => DateAt t
  | InvalidDate => DateAt 0
  end.

(** A note as the mount effect reads it back from what [saveNotes]
    wrote: an empty language has become plaintext and an invalid date
    the epoch. *)
Definition reloaded (n : Note) : Note :=
  {| id := id n; title := title n; content := content n;
     language := or_else (Some (language n)) "plaintext";
     createdAt := redated (createdAt n);
     updatedAt := redated (updatedAt n) |}.

(** The language that a stored record carries, if it carries one. *)
Definition stored_language (v : json) : option string :=
  match v with
  | JObj ms =>
    match property "language" ms with
    | Some (JStr l) => Some l
    | _ => None
    end
  | _ => None
  end.


(** The worlds reached from a first start on an empty store by
    [createNote], [updateNote] and [deleteNote]. *)
Inductive reachable : World -> Prop :=
| reach_start (w w' : World) :
    notes w = [] -> localStorage w !! STORAGE_KEY = None ->
    useNotes_effect w = Ok tt w' -> reachable w'
| reach_create (w : World) (n : Note) (w' : World) :
    reachable w -> createNote w = Ok n w' -> reachable w'
| reach_update (w : World) (i : string) (updates : NoteUpdates) (w' : World) :
    reachable w -> updateNote i updates w = Ok tt w' -> reachable w'
| reach_delete (w : World) (i : string) (w' : World) :
    reachable w -> deleteNote i w = Ok tt w' -> reachable w'.

(** Both timestamps of the note are readings of the clock taken before
    the [k]-th, [createdAt] not after [updatedAt]. *)
Definition stamped (k : nat) (n : Note) : Prop :=
  exists i j, (i <= j < k)%nat /\
    createdAt n = DateAt (clock i) /\ updatedAt n = DateAt (clock j).

End Vocabulary.

(** ** Concrete hosts and worlds *)

Section Concrete.

(** A clock that advances by one millisecond per reading (and stops
    after a million readings, so that every reading is a time value),
    and one on which no time passes. *)
Definition ticking : Host :=
  {| clock := fun k => 1700000000000 + Z.min (Z.of_nat k) 1000000;
     random := fun _ => "0.5";
     lenient_parse := fun _ => None |}.

Definition frozen : Host :=
  {| clock := fun _ => 1700000000000;
     random := fun _ => "0.5";
     lenient_parse := fun _ => None |}.

#[local] Existing Instance ticking.

Definition first_start : World :=
  {| notes := []; localStorage := ∅; ticks := 0; draws := 0 |}.

(** JSON texts are written here with apostrophes for the double
    quotes. *)
Fixpoint json_text (s : string) : string :=
  match s with
  | "" => ""
  | String c r => String (if (c =? "'")%char then dq else c) (json_text r)
  end.

Definition no_updates : NoteUpdates :=
  {| u_title := None; u_content := None; u_language := None;
     u_updatedAt := None |}.

(** The world after the first start, and after one more note. *)
Definition started : World :=
  match useNotes_effect first_start with
  | Ok _ w => w
  | _ => first_start
  end.

Definition with_second_note : World :=
  match createNote started with
  | Ok _ w => w
  | _ => started
  end.

Definition blank_language : NoteUpdates :=
  {| u_title := None; u_content := None; u_language := Some "";
     u_updatedAt := None |}.

Definition with_blank_language : World :=
  match updateNote "1" blank_language started with
  | Ok _ w => w
  | _ => started
  end.

End Concrete.

(** * Around the store: export, sidebar, page, editor

    What the hook and the components do besides the operations above:
    the export, the list that the sidebar shows, the selection that the
    page keeps, the placeholder and the timers of the editor.

    Where this code counts or cuts the characters of a text ([length],
    [slice]) or changes their case, the model does so on the characters
    of its strings.  The two agree on ASCII text, and the statements
    that depend on it assume such text ([is_ascii]). *)

(** ** [exportNotes] *)

Section Exporting.

Context `{Host}.

Definition line_feed : ascii := "010"%char.

(** The gap of [JSON.stringify(value, null, 2)]. *)
Definition gap : string := "  ".

Fixpoint join_with (separator : string) (texts : list string) : string :=
  match texts with
  | [] => ""
  | t :: rest =>
    match rest with
    | [] => t
    | _ :: _ => t ++ separator ++ join_with separator rest
    end
  end.

(** [JSON.stringify] with a gap (SerializeJSONArray and
    SerializeJSONObject): every element and member on a line of its
    own, one gap deeper than its brackets, a space after the colon; the
    empty array and the empty object as without gap. *)
Fixpoint stringify_indented (indent : string) (v : json) : string :=
  match v with
  | JArr vs =>
    match vs with
    | [] => "[]"
    | _ :: _ =>
      let stepback := indent in
      let indent := indent ++ gap in
      let separator := "," ++ String line_feed indent in
      "[" ++ String line_feed indent
          ++ join_with separator (map (stringify_indented indent) vs)
          ++ String line_feed stepback ++ "]"
    end
  | JObj ms =>
    match ms with
    | [] => "{}"
    | _ :: _ =>
      let stepback := indent in
      let indent := indent ++ gap in
      let separator := "," ++ String line_feed indent in
      "{" ++ String line_feed indent
          ++ join_with separator
               (map (fun m => quote (fst m) ++ ": "
                              ++ stringify_indented indent (snd m)) ms)
          ++ String line_feed stepback ++ "}"
    end
  | _ => stringify v
  end.

(** [text.split(c)[0]]: the text before the first [c], all of it when
    there is none. *)
Fixpoint before (c : ascii) (text : string) : string :=
  match text with
  | "" => ""
  | String d rest => if (d =? c)%char then "" else String d (before c rest)
  end.

Inductive export_report : Type :=
| Downloaded (download dataStr : string)  (* the link was clicked *)
| RangeError.      (* [toISOString] threw before the link was made *)

(** [exportNotes] of the hook: the file that the browser is made to
    download, by its name and its text. *)
Definition exportNotes : M export_report :=
  let* notes := getNotes in
  let dataStr := stringify_indented "" (JArr (map note_toJSON notes)) in
  let* now := new_Date in
  match toISOString now with
  | Some iso =>
    ret (Downloaded ("swift-notes-export-" ++ before "T" iso ++ ".json")
                    dataStr)
  | None => ret RangeError
  end.

End Exporting.

(** ** The list of the sidebar *)

Section Sidebar.

(** [String.prototype.toLowerCase], on ASCII text. *)
Definition toLowerCase_char (c : ascii) : ascii :=
  if (65 <=? code c) && (code c <=? 90) then chr (code c + 32) else c.

Fixpoint toLowerCase (s : string) : string :=
  match s with
  | "" => ""
  | String c r => String (toLowerCase_char c) (toLowerCase r)
  end.

(** [text.includes(query)] *)
Fixpoint includes (text query : string) : bool :=
  String.prefix query text ||
  match text with
  | String _ rest => includes rest query
  | "" => false
  end.

(** The callback of the filter.  [None] is the [TypeError] of calling
    [toLowerCase] on [undefined]; the content is looked at only when
    the title does not match. *)
Definition matches (searchQuery : string) (note : Note) : option bool :=
  t ← title note;
  if includes (toLowerCase t) (toLowerCase searchQuery) then Some true
  else c ← content note;
       Some (includes (toLowerCase c) (toLowerCase searchQuery)).

(** [filteredNotes]: [notes.filter] with that callback, which stops at
    the first call that throws. *)
Fixpoint filteredNotes (notes : list Note) (searchQuery : string) :
  option (list Note) :=
  match notes with
  | [] => Some []
  | note :: rest =>
    keep ← matches searchQuery note;
    kept ← filteredNotes rest searchQuery;
    Some (if keep : bool then note :: kept else kept)
  end.

Definition getPreview (content : string) : string :=
  substring 0 60 (before line_feed content)
  ++ (if (60 <? String.length content)%nat then "..." else "").

(** [getPreview(note.content) || 'No content'], the second line of an
    entry of the list; [None] is the [TypeError] of [split] on
    [undefined]. *)
Definition preview (note : Note) : option string :=
  c ← content note; Some (or_else (Some (getPreview c)) "No content").

End Sidebar.

(** ** The dates of the sidebar *)

Section SidebarDates.

Context `{Host}.

(** The four ways in which [formatDate] writes a date; the text itself
    is made by the locale. *)
Inductive date_format : Type :=
| TimeOfDay       (* [toLocaleTimeString]: hour and minute *)
| Yesterday       (* the word *)
| Weekday         (* [toLocaleDateString]: the short weekday *)
| MonthAndDay.    (* [toLocaleDateString]: short month and day *)

(** [getTime()]; [None] is [NaN]. *)
Definition getTime (d : Date) : option Z :=
  match d with
  | DateAt t => Some t
  | InvalidDate => None
  end.

(** [formatDate].  The quotient is computed in floating point; its
    floor is that of the exact quotient as long as the difference of
    the two times is below [2 ^ 53] in size, which the statements
    assume.  With [NaN] no comparison holds, which leaves the last
    format. *)
Definition formatDate (date : Date) : M date_format :=
  let* now := new_Date in
  ret match getTime now, getTime date with
      | Some n, Some d =>
        let diffTime := n - d in
        let diffDays := diffTime / (1000 * 60 * 60 * 24) in
        if diffDays =? 0 then TimeOfDay
        else if diffDays =? 1 then Yesterday
        else if diffDays <? 7 then Weekday
        else MonthAndDay
      | _, _ => MonthAndDay
      end.

End SidebarDates.

(** ** The page: the selected note *)

Section Page.

Context `{Host}.

(** The handlers of [Index] take the selection of the render they were
    made in and give the selection they set. *)

(** [selectedNote?.id === id] *)
Definition selected_is (i : string) (selectedNote : option Note) : bool :=
  match selectedNote with
  | Some note => id_is i note
  | None => false
  end.

Definition handleCreateNote (selectedNote : option Note) : M (option Note) :=
  let* newNote := createNote in
  ret (Some newNote).

Definition handleDeleteNote (i : string) (selectedNote : option Note) :
  M (option Note) :=
  let* notes := getNotes in
  deleteNote i ;;
  ret (if selected_is i selectedNote then
         if (1 <? length notes)%nat
         then List.find (fun n => negb (id_is i n)) notes
         else None
       else selectedNote).

Definition handleSelectNote (note : Note) (selectedNote : option Note) :
  M (option Note) :=
  ret (Some note).

Definition handleExportNotes : M export_report := exportNotes.

(** The body of the component: the first note is selected when none
    is. *)
Definition Index (selectedNote : option Note) : M (option Note) :=
  let* notes := getNotes in
  ret match selectedNote, notes with
      | None, first :: _ => Some first
      | _, _ => selectedNote
      end.

End Page.

(** ** The placeholder of the editor: [TypewriterText] *)

Section Typewriter.

(** An index into [texts]: [(textIndex + 1) % texts.length] is [NaN]
    when there are no texts. *)
Inductive text_index : Type :=
| At (n : nat)
| NaN.

Record TypewriterTextProps : Type := {
  texts : list string;
  speed : Z;          (* default 100 *)
  deleteSpeed : Z;    (* default 50 *)
  delay : Z;          (* default 2000 *)
  loop : bool;        (* default true *)
}.

Record TypewriterText : Type := {
  displayText : string;
  textIndex : text_index;
  isDeleting : bool;
  isPaused : bool;
}.

(** The state of the first render. *)
Definition blank_at (i : text_index) : TypewriterText :=
  {| displayText := ""; textIndex := i; isDeleting := false;
     isPaused := false |}.

(** [texts[textIndex]]; [None] is [undefined]. *)
Definition text_at (texts : list string) (i : text_index) : option string :=
  match i with
  | At n => nth_error texts n
  | NaN => None
  end.

Definition next_index (texts : list string) (i : text_index) : text_index :=
  match i, texts with
  | At n, _ :: _ => At ((n + 1) mod length texts)
  | _, _ => NaN
  end.

(** The time that the effect sets its timer to. *)
Definition timeout (p : TypewriterTextProps) (s : TypewriterText) : Z :=
  if isPaused s then delay p
  else if isDeleting s then deleteSpeed p else speed p.

(** What the timer does to the state when it fires.  [None]: the
    callback throws a [TypeError], [currentText] being [undefined], and
    the state stays as it is for good. *)
Definition fire (p : TypewriterTextProps) (s : TypewriterText) :
  option TypewriterText :=
  if isPaused s then
    Some {| displayText := displayText s; textIndex := textIndex s;
            isDeleting := true; isPaused := false |}
  else if negb (isDeleting s) then
    currentText ← text_at (texts p) (textIndex s);
    if (String.length (displayText s) <? String.length currentText)%nat then
      Some {| displayText :=
                substring 0 (String.length (displayText s) + 1) currentText;
              textIndex := textIndex s; isDeleting := isDeleting s;
              isPaused := isPaused s |}
    else
      Some {| displayText := displayText s; textIndex := textIndex s;
              isDeleting := isDeleting s; isPaused := true |}
  else
    if (0 <? String.length (displayText s))%nat then
      Some {| displayText :=
                substring 0 (String.length (displayText s) - 1)
                          (displayText s);
              textIndex := textIndex s; isDeleting := isDeleting s;
              isPaused := isPaused s |}
    else
      Some {| displayText := displayText s;
              textIndex := if loop p then next_index (texts p) (textIndex s)
                           else textIndex s;
              isDeleting := false; isPaused := isPaused s |}.

(** The state after [k] timers, and the time they took. *)
Fixpoint play (k : nat) (p : TypewriterTextProps) (s : TypewriterText) :
  option (TypewriterText * Z) :=
  match k with
  | O => Some (s, 0)
  | S k' =>
    s' ← fire p s;
    '(s'', t) ← play k' p s';
    Some (s'', timeout p s + t)
  end.

(** The placeholder as the editor uses it when no note is selected. *)
Definition placeholder : TypewriterTextProps :=
  {| texts := ["Select a note to edit"; "Start writing your thoughts";
               "Create something amazing"];
     speed := 80; deleteSpeed := 40; delay := 1500; loop := true |}.

End Typewriter.

(** ** The editor with delayed saving *)

Section Editor.

Context `{Host}.

(** [updateNote] as a render makes it: a function that works on the
    collection [notes] of that render, whenever it is called.  The id
    is what the caller passes, [undefined] when the note has none. *)
Definition updateNote_of (notes : list Note) (i : option string)
    (updates : NoteUpdates) : M unit :=
  let* updatedNotes :=
    mapM (fun note =>
            if bool_decide (id note = i)
            then let* d := new_Date in ret (merge note updates d)
            else ret note) notes in
  saveNotes updatedNotes.

Inductive save_status : Type := Saved | Saving | Idle.

(** What a save timer holds: the call [debouncedSave(noteId, updates)]
    of the render that set it, whose [onUpdateNote] works on the
    collection [seen]. *)
Record PendingSave : Type := {
  seen : list Note;
  noteId : option string;
  updates : NoteUpdates;
}.

(** The state of the component ([e_title] for its [title], and so on)
    with its timers: the two refs, and the number of timers waiting to
    set the status to saved.  A ref whose timer has fired is [None]:
    clearing such a timer does nothing. *)
Record NoteEditor : Type := {
  e_title : option string;
  e_content : option string;
  e_language : string;
  saveStatus : save_status;
  titleSaveTimeoutRef : option PendingSave;
  contentSaveTimeoutRef : option PendingSave;
  savedTimeouts : nat;
}.

(** The state of the first render. *)
Definition NoteEditor_initial : NoteEditor :=
  {| e_title := Some ""; e_content := Some ""; e_language := "plaintext";
     saveStatus := Saved; titleSaveTimeoutRef := None;
     contentSaveTimeoutRef := None; savedTimeouts := 0 |}.

(** The effect on a change of the note shown. *)
Definition NoteEditor_effect (note : option Note) (e : NoteEditor) :
  NoteEditor :=
  match note with
  | Some n =>
    {| e_title := title n; e_content := content n;
       e_language := or_else (Some (language n)) "plaintext";
       saveStatus := saveStatus e;
       titleSaveTimeoutRef := titleSaveTimeoutRef e;
       contentSaveTimeoutRef := contentSaveTimeoutRef e;
       savedTimeouts := savedTimeouts e |}
  | None => e
  end.

Definition title_updates (value : string) : NoteUpdates :=
  {| u_title := Some value; u_content := None; u_language := None;
     u_updatedAt := None |}.

Definition content_updates (value : string) : NoteUpdates :=
  {| u_title := None; u_content := Some value; u_language := None;
     u_updatedAt := None |}.

Definition language_updates (value : string) : NoteUpdates :=
  {| u_title := None; u_content := None; u_language := Some value;
     u_updatedAt := None |}.

Definition debouncedSave (p : PendingSave) (e : NoteEditor) : M NoteEditor :=
  updateNote_of (seen p) (noteId p) (updates p) ;;
  ret {| e_title := e_title e; e_content := e_content e;
         e_language := e_language e; saveStatus := Saving;
         titleSaveTimeoutRef := titleSaveTimeoutRef e;
         contentSaveTimeoutRef := contentSaveTimeoutRef e;
         savedTimeouts := S (savedTimeouts e) |}.

(** The handlers, for the note that the editor shows. *)
Definition handleTitleChange (note : option Note) (value : string)
    (e : NoteEditor) : M NoteEditor :=
  match note with
  | Some n =>
    let* notes := getNotes in
    ret {| e_title := Some value; e_content := e_content e;
           e_language := e_language e; saveStatus := Saving;
           titleSaveTimeoutRef :=
             Some {| seen := notes; noteId := id n;
                     updates := title_updates value |};
           contentSaveTimeoutRef := contentSaveTimeoutRef e;
           savedTimeouts := savedTimeouts e |}
  | None =>
    ret {| e_title := Some value; e_content := e_content e;
           e_language := e_language e; saveStatus := saveStatus e;
           titleSaveTimeoutRef := titleSaveTimeoutRef e;
           contentSaveTimeoutRef := contentSaveTimeoutRef e;
           savedTimeouts := savedTimeouts e |}
  end.

Definition handleContentChange (note : option Note) (value : option string)
    (e : NoteEditor) : M NoteEditor :=
  let newContent := or_else value "" in
  match note with
  | Some n =>
    let* notes := getNotes in
    ret {| e_title := e_title e; e_content := Some newContent;
           e_language := e_language e; saveStatus := Saving;
           titleSaveTimeoutRef := titleSaveTimeoutRef e;
           contentSaveTimeoutRef :=
             Some {| seen := notes; noteId := id n;
                     updates := content_updates newContent |};
           savedTimeouts := savedTimeouts e |}
  | None =>
    ret {| e_title := e_title e; e_content := Some newContent;
           e_language := e_language e; saveStatus := saveStatus e;
           titleSaveTimeoutRef := titleSaveTimeoutRef e;
           contentSaveTimeoutRef := contentSaveTimeoutRef e;
           savedTimeouts := savedTimeouts e |}
  end.

Definition handleLanguageChange (note : option Note) (value : string)
    (e : NoteEditor) : M NoteEditor :=
  let e' :=
    {| e_title := e_title e; e_content := e_content e;
       e_language := value; saveStatus := saveStatus e;
       titleSaveTimeoutRef := titleSaveTimeoutRef e;
       contentSaveTimeoutRef := contentSaveTimeoutRef e;
       savedTimeouts := savedTimeouts e |} in
  match note with
  | Some n =>
    let* notes := getNotes in
    updateNote_of notes (id n) (language_updates value) ;;
    ret e'
  | None => ret e'
  end.

(** The timers, when they fire: after 800 ms, after 1000 ms, after
    500 ms. *)
Definition title_timeout (e : NoteEditor) : M NoteEditor :=
  match titleSaveTimeoutRef e with
  | Some p =>
    debouncedSave p
      {| e_title := e_title e; e_content := e_content e;
         e_language := e_language e; saveStatus := saveStatus e;
         titleSaveTimeoutRef := None;
         contentSaveTimeoutRef := contentSaveTimeoutRef e;
         savedTimeouts := savedTimeouts e |}
  | None => ret e
  end.

Definition content_timeout (e : NoteEditor) : M NoteEditor :=
  match contentSaveTimeoutRef e with
  | Some p =>
    debouncedSave p
      {| e_title := e_title e; e_content := e_content e;
         e_language := e_language e; saveStatus := saveStatus e;
         titleSaveTimeoutRef := titleSaveTimeoutRef e;
         contentSaveTimeoutRef := None;
         savedTimeouts := savedTimeouts e |}
  | None => ret e
  end.

Definition saved_timeout (e : NoteEditor) : NoteEditor :=
  match savedTimeouts e with
  | S k =>
    {| e_title := e_title e; e_content := e_content e;
       e_language := e_language e; saveStatus := Saved;
       titleSaveTimeoutRef := titleSaveTimeoutRef e;
       contentSaveTimeoutRef := contentSaveTimeoutRef e;
       savedTimeouts := k |}
  | O => e
  end.

(** Typing the values one after the other, no timer firing between. *)
Fixpoint typing (note : option Note) (values : list string) (e : NoteEditor) :
  M NoteEditor :=
  match values with
  | [] => ret e
  | value :: rest =>
    let* e' := handleTitleChange note value e in typing note rest e'
  end.

End Editor.

(** ** Vocabulary of the statements about them *)

Section Terms.

Context `{Host}.

(** A value without numbers: texts, [null], booleans, and arrays and
    objects of such values. *)
Fixpoint plain (v : json) : bool :=
  match v with
  | JNum _ => false
  | JArr vs => forallb plain vs
  | JObj ms => forallb (fun m => plain (snd m)) ms
  | _ => true
  end.

(** White space only. *)
Fixpoint blank (s : string) : bool :=
  match s with
  | "" => true
  | String c r => is_ws c && blank r
  end.

(** From some fuel on the parser gives [a]. *)
Definition settles {A} (p : nat -> option A) (a : A) : Prop :=
  exists n, forall g, (n <= g)%nat -> p g = Some a.

(** [JSON.parse] reads the indented text of [v] back, whatever
    follows it. *)
Definition reads_back (v : json) : Prop :=
  forall indent rest, blank indent = true ->
  settles (fun g => parse_value g (stringify_indented indent v ++ rest))
          (v, rest).

(** The calendar day of a time value as [toISOString] writes it. *)
Definition iso_date (t : Z) : string :=
  let '(y, m, d) := civil_from_days (t / ms_per_day) in
  iso_year y ++ "-" ++ pad 2 m ++ "-" ++ pad 2 d.

(** The world after one more reading of the clock. *)
Definition later (w : World) : World :=
  {| notes := notes w; localStorage := localStorage w;
     ticks := S (ticks w); draws := draws w |}.

(** What changes the store: the operations of the hook and the import
    of a file. *)
Inductive operation : Type :=
| Create
| Update (i : string) (updates : NoteUpdates)
| Delete (i : string)
| Import (importedNotes : list Note)
| ImportFile (content : string)
| Export.

Definition run (o : operation) : M unit :=
  match o with
  | Create => createNote ;; ret tt
  | Update i updates => updateNote i updates
  | Delete i => deleteNote i
  | Import importedNotes => importNotes importedNotes
  | ImportFile content => handleFileChange content ;; ret tt
  | Export => exportNotes ;; ret tt
  end.

Fixpoint runs (os : list operation) : M unit :=
  match os with
  | [] => ret tt
  | o :: os' => run o ;; runs os'
  end.

(** Storage holds the text of the collection. *)
Definition mirrored (w : World) : Prop :=
  localStorage w !! STORAGE_KEY = Some (JSON_stringify (notes w)).

(** The text that a record carries under a key, if it carries one. *)
Definition stored_text (k : string) (v : json) : option string :=
  match v with
  | JObj ms =>
    match property k ms with
    | Some (JStr s) => Some s
    | _ => None
    end
  | _ => None
  end.

(** The record carries an id that is not empty. *)
Definition carries_id (v : json) : Prop :=
  exists i, stored_text "id" v = Some i /\ i <> "".

(** The date that a record carries under a key. *)
Definition stored_date (k : string) (v : json) : raw_date :=
  match v with
  | JObj ms =>
    match property k ms with
    | Some (JStr s) => Text s
    | Some JNull => Null
    | _ => Absent
    end
  | _ => Absent
  end.

(** A text that counts as false under [||]: none, or the empty one; and
    a date likewise. *)
Definition missing (x : option string) : bool :=
  match x with
  | Some s => String.eqb s ""
  | None => true
  end.

Definition undated (d : raw_date) : bool :=
  match d with
  | Text s => String.eqb s ""
  | Absent | Null => true
  end.

(** A record of the shape of a note: an object with no property but
    the six of a note, each with a text for its value ([null] will also
    do for a date, [null] and [false] for the language); or a value
    that has no property at all (a number, a boolean, the empty text,
    the empty array).  These are the records that the model follows. *)
Definition note_shaped (v : json) : Prop := exists r, decode v = Readable r.

Definition is_null (v : json) : bool :=
  match v with
  | JNull => true
  | _ => false
  end.

(** What the mount effect makes of a record: the note has the id, the
    title and the content that the record carries, the language that
    it carries or plaintext, and the two dates as [new Date] reads
    what the record has for them. *)
Definition read_from (v : json) (n : Note) : Prop :=
  id n = stored_text "id" v /\ title n = stored_text "title" v /\
  content n = stored_text "content" v /\
  language n = or_else (stored_language v) "plaintext" /\
  createdAt n = Date_of_raw (stored_date "createdAt" v) /\
  updatedAt n = Date_of_raw (stored_date "updatedAt" v).

(** What the import makes of a record, with the readings of the clock
    from the [lo]-th up to the [hi]-th: title and content are those that
    the record carries; the language is the one it carries, or
    plaintext; the id is the one it carries, or else the text of a
    reading of the clock followed by a random number; each date is the
    one it carries as [new Date] reads it, or else a reading of the
    clock. *)
Definition prepared (lo hi : nat) (v : json) (n : Note) : Prop :=
  title n = stored_text "title" v /\ content n = stored_text "content" v /\
  language n = or_else (stored_language v) "plaintext" /\
  (forall i, stored_text "id" v = Some i -> i <> "" -> id n = Some i) /\
  (missing (stored_text "id" v) = true ->
   exists k j, (lo <= k < hi)%nat /\
               id n = Some (toString (clock k) ++ random j)) /\
  (forall s, stored_date "createdAt" v = Text s -> s <> "" ->
             createdAt n = Date_of_string s) /\
  (undated (stored_date "createdAt" v) = true ->
   exists k, (lo <= k < hi)%nat /\ createdAt n = of_time (clock k)) /\
  (forall s, stored_date "updatedAt" v = Text s -> s <> "" ->
             updatedAt n = Date_of_string s) /\
  (undated (stored_date "updatedAt" v) = true ->
   exists k, (lo <= k < hi)%nat /\ updatedAt n = of_time (clock k)).



(** ASCII text. *)
Fixpoint is_ascii (s : string) : bool :=
  match s with
  | "" => true
  | String c r => (code c <? 128) && is_ascii r
  end.

(** A note whose title and content, as far as it has them, are ASCII
    text. *)
Definition ascii_note (n : Note) : bool :=
  from_option is_ascii true (title n) && from_option is_ascii true (content n).

(** The title of the note does not have the query in it, in whatever
    case. *)
Definition title_misses (q : string) (n : Note) : Prop :=
  exists t, title n = Some t /\
            includes (toLowerCase t) (toLowerCase q) = false.

(** The page as it is after a render: the world, the selected note,
    and the files that have been chosen for import and are still being
    read, each with the collection of the render in which it was
    chosen.  The page starts with the mount of the hook on an empty
    collection and goes on by the handlers that it passes to its
    components, each followed by the render that it causes;
    [updateNote] is called at once, as the editor of
    [components/NoteEditor.tsx] calls it.  Choosing a file changes
    nothing yet; its [onload] runs at some later time.  With [prompt]
    nothing else is done while a file is being read. *)
Inductive page (prompt : bool) :
  World -> option Note -> list (list Note * string) -> Prop :=
| page_mount (w w' : World) (sel : option Note) :
    notes w = [] ->
    useNotes_effect w = Ok tt w' -> Index None w' = Ok sel w' ->
    page prompt w' sel []
| page_create (w : World) (sel : option Note)
    (reads : list (list Note * string)) (sel1 : option Note) (w1 : World)
    (sel2 : option Note) :
    page prompt w sel reads -> (prompt = true -> reads = []) ->
    handleCreateNote sel w = Ok sel1 w1 -> Index sel1 w1 = Ok sel2 w1 ->
    page prompt w1 sel2 reads
| page_delete (w : World) (sel : option Note)
    (reads : list (list Note * string)) (i : string)
    (sel1 : option Note) (w1 : World) (sel2 : option Note) :
    page prompt w sel reads -> (prompt = true -> reads = []) ->
    handleDeleteNote i sel w = Ok sel1 w1 -> Index sel1 w1 = Ok sel2 w1 ->
    page prompt w1 sel2 reads
| page_select (w : World) (sel : option Note)
    (reads : list (list Note * string)) (note : Note)
    (sel1 : option Note) (w1 : World) (sel2 : option Note) :
    page prompt w sel reads -> (prompt = true -> reads = []) ->
    note ∈ notes w ->
    handleSelectNote note sel w = Ok sel1 w1 -> Index sel1 w1 = Ok sel2 w1 ->
    page prompt w1 sel2 reads
| page_update (w : World) (sel : option Note)
    (reads : list (list Note * string)) (i : string)
    (updates : NoteUpdates) (w1 : World) (sel2 : option Note) :
    page prompt w sel reads -> (prompt = true -> reads = []) ->
    updateNote i updates w = Ok tt w1 -> Index sel w1 = Ok sel2 w1 ->
    page prompt w1 sel2 reads
| page_choose (w : World) (sel : option Note)
    (reads : list (list Note * string)) (content : string) :
    page prompt w sel reads -> (prompt = true -> reads = []) ->
    page prompt w sel ((notes w, content) :: reads)
| page_load (w : World) (sel : option Note)
    (before after : list (list Note * string)) (seen : list Note)
    (content : string) (report : import_report) (w1 : World)
    (sel2 : option Note) :
    page prompt w sel (before ++ (seen, content) :: after) ->
    onload seen content w = Ok report w1 -> Index sel w1 = Ok sel2 w1 ->
    page prompt w1 sel2 (before ++ after)
| page_export (w : World) (sel : option Note)
    (reads : list (list Note * string)) (report : export_report)
    (w1 : World) (sel2 : option Note) :
    page prompt w sel reads -> (prompt = true -> reads = []) ->
    handleExportNotes w = Ok report w1 -> Index sel w1 = Ok sel2 w1 ->
    page prompt w1 sel2 reads.

(** The selected note is one of the collection, by its id; none is
    selected only when there is none. *)
Definition listed (w : World) (sel : option Note) : Prop :=
  match sel with
  | Some s => exists n, n ∈ notes w /\ id n = id s
  | None => notes w = []
  end.

(** A note that has an id and a language, neither empty, and two
    timestamps that are time values. *)
Definition complete (n : Note) : Prop :=
  (exists i, id n = Some i /\ i <> "") /\ language n <> "" /\
  (exists t, createdAt n = DateAt t /\ in_range t = true) /\
  (exists t, updatedAt n = DateAt t /\ in_range t = true).

(** A note with the given id, title and content, of some day in
    2020. *)
Definition a_note (i t c : string) : Note :=
  {| id := Some i; title := Some t; content := Some c;
     language := "plaintext";
     createdAt := DateAt 1600000000000; updatedAt := DateAt 1600000000000 |}.

End Terms.

(** ** More concrete worlds *)

Section Scenarios.

#[local] Existing Instance ticking.


(** A file of one record.  It is chosen right after the first start;
    [with_seven] is the world when it has been read at once, and
    [overtaken] the world when it has been read only after a second
    note was made. *)
Definition one_record : string := json_text "[{'id':'7','title':'Seven'}]".

Definition with_seven : World :=
  match onload (notes started) one_record started with
  | Ok _ w => w
  | _ => started
  end.

Definition overtaken : World :=
  match onload (notes started) one_record with_second_note with
  | Ok _ w => w
  | _ => with_second_note
  end.

(** On the clock that stands still: the world after the first start
    and an update that empties the content of the welcome note. *)
Definition emptied_at_once : World :=
  match (useNotes_effect (H := frozen) ;;
         updateNote (H := frozen) "1" (content_updates "")) first_start with
  | Ok _ w => w
  | _ => first_start
  end.

End Scenarios.

(** * Facts about the host functions *)

(** ** JSON: [JSON.parse] reads back what [JSON.stringify] writes *)

Section JsonFacts.

Import Json.

Lemma append_assoc (a b c : string) : (a ++ b) ++ c = a ++ (b ++ c).
Proof. induction a as [|x a IH]; simpl; [reflexivity | now rewrite IH]. Qed.

Lemma length_append (a b : string) :
  String.length (a ++ b) = (String.length a + String.length b)%nat.
Proof. induction a as [|x a IH]; simpl; [reflexivity | now rewrite IH]. Qed.

Lemma parse_chars_escape_char (c : ascii) (rest : string) :
  parse_chars (escape_char c ++ rest)
  = prepend (String c "") (parse_chars rest).
Proof. destruct c as [[] [] [] [] [] [] [] []]; reflexivity. Qed.

Lemma parse_chars_escape (s rest : string) :
  parse_chars (escape s ++ String dq rest) = Some (s, rest).
Proof.
  induction s as [|c s IH]; [reflexivity|].
  cbn [escape]. rewrite append_assoc, parse_chars_escape_char, IH.
  reflexivity.
Qed.

(** Tests on characters that are known are decided by computing. *)
#[local] Ltac decide_chars :=
  repeat match goal with
         | |- context [is_ws ?c] =>
           let b := eval vm_compute in (is_ws c) in
           match b with true => idtac | false => idtac end;
           change (is_ws c) with b
         | |- context [Ascii.eqb ?c ?d] =>
           let b := eval vm_compute in (Ascii.eqb c d) in
           match b with true => idtac | false => idtac end;
           change (Ascii.eqb c d) with b
         end;
  cbv iota.

Lemma parse_value_flat (v : json) (fuel : nat) (rest : string) :
  flat v = true ->
  parse_value (S fuel) (stringify v ++ rest) = Some (v, rest).
Proof.
  destruct v; try discriminate; intros _.
  - reflexivity.
  - cbn [stringify]. unfold quote. cbn [String.append parse_value skip_ws].
    decide_chars. unfold parse_scalar. decide_chars.
    rewrite append_assoc. cbn [String.append].
    rewrite parse_chars_escape. reflexivity.
Qed.

(** One member, then whatever follows it. *)
Lemma parse_members_step (fuel : nat) (k : string) (v : json) (rest : string) :
  flat v = true -> (0 < fuel)%nat ->
  parse_members (S fuel) (member_text (k, v) ++ rest) =
  match skip_ws rest with
  | String e r =>
    if (e =? ",")%char then
      '(ms, r') ← parse_members fuel r; Some ((k, v) :: ms, r')
    else if (e =? "}")%char then Some ([(k, v)], r)
    else None
  | "" => None
  end.
Proof.
  intros Hv Hfuel. unfold member_text, quote. cbn [fst snd].
  rewrite !append_assoc. cbn [String.append parse_members skip_ws].
  decide_chars.
  rewrite !append_assoc. cbn [String.append]. rewrite parse_chars_escape.
  cbn [mbind option_bind String.append skip_ws]. decide_chars.
  destruct fuel as [|fuel]; [lia|].
  rewrite parse_value_flat by exact Hv.
  reflexivity.
Qed.

Lemma join_cons (t u : string) (l : list string) :
  join (t :: u :: l) = t ++ "," ++ join (u :: l).
Proof. reflexivity. Qed.

Lemma parse_members_flat (ms : list (string * json)) :
  forall (fuel : nat) (rest : string),
  ms <> [] ->
  forallb (fun m => flat (snd m)) ms = true ->
  (length ms < fuel)%nat ->
  parse_members fuel (join (map member_text ms) ++ String "}" rest)
  = Some (ms, rest).
Proof.
  induction ms as [|[k v] ms IH]; intros fuel rest Hne Hflat Hfuel;
    [congruence|].
  cbn [forallb snd] in Hflat. apply andb_true_iff in Hflat as [Hv Hms].
  destruct fuel as [|fuel]; [simpl in Hfuel; lia|].
  cbn [length] in Hfuel.
  destruct ms as [|m ms].
  - cbn [map join].
    rewrite parse_members_step by (exact Hv || lia).
    cbn [skip_ws]. decide_chars. reflexivity.
  - cbn [map]. rewrite join_cons, append_assoc, append_assoc.
    rewrite parse_members_step by (exact Hv || (simpl in Hfuel; lia)).
    cbn [String.append skip_ws]. decide_chars.
    change (member_text m :: map member_text ms)
      with (map member_text (m :: ms)).
    rewrite IH; [reflexivity | discriminate | exact Hms |].
    simpl in Hfuel |- *. lia.
Qed.

Lemma stringify_object (ms : list (string * json)) :
  stringify (JObj ms) = "{" ++ join (map member_text ms) ++ "}".
Proof. reflexivity. Qed.

Lemma parse_value_flat_object (bound : nat) (v : json) (fuel : nat)
    (rest : string) :
  flat_object bound v = true -> (bound < fuel)%nat ->
  parse_value (S fuel) (stringify v ++ rest) = Some (v, rest).
Proof.
  destruct v as [| | | | |ms]; try discriminate.
  destruct ms as [|[k w] ms]; [discriminate|].
  cbn [flat_object]. intros Hv Hfuel.
  apply andb_true_iff in Hv as [Hflat Hlen]. apply Nat.leb_le in Hlen.
  rewrite stringify_object, !append_assoc.
  cbn [String.append parse_value skip_ws]. decide_chars.
  pose proof (parse_members_flat ((k, w) :: ms) fuel rest
                ltac:(discriminate) Hflat ltac:(lia)) as Hms.
  rewrite Hms.
  assert (Hhead : exists r, join (map member_text ((k, w) :: ms))
                            ++ String "}" rest = String dq r).
  { destruct ms; cbn [map join]; unfold member_text at 1, quote;
      cbn [fst String.append]; eauto. }
  destruct Hhead as [r ->].
  cbn [skip_ws]. decide_chars. reflexivity.
Qed.

Lemma parse_elements_flat (bound : nat) (vs : list json) :
  forall (fuel : nat) (rest : string),
  vs <> [] ->
  forallb (flat_object bound) vs = true ->
  (length vs + bound + 1 < fuel)%nat ->
  parse_elements fuel (join (map stringify vs) ++ String "]" rest)
  = Some (vs, rest).
Proof.
  induction vs as [|v vs IH]; intros fuel rest Hne Hvs Hfuel; [congruence|].
  cbn [forallb] in Hvs. apply andb_true_iff in Hvs as [Hv Hvs].
  destruct fuel as [|fuel]; [lia|].
  cbn [length] in Hfuel.
  cbn [parse_elements].
  destruct fuel as [|fuel]; [simpl in Hfuel; lia|].
  destruct vs as [|v' vs].
  - cbn [map join].
    rewrite (parse_value_flat_object bound) by (exact Hv || lia).
    cbn [mbind option_bind skip_ws]. decide_chars. reflexivity.
  - cbn [map]. rewrite join_cons, append_assoc, append_assoc.
    rewrite (parse_value_flat_object bound) by (exact Hv || lia).
    cbn [mbind option_bind String.append skip_ws]. decide_chars.
    change (stringify v' :: map stringify vs) with (map stringify (v' :: vs)).
    rewrite IH; [reflexivity | discriminate | exact Hvs |].
    simpl in Hfuel |- *. lia.
Qed.

Lemma length_join (ts : list string) :
  Forall (fun t => (2 <= String.length t)%nat) ts ->
  (2 * length ts <= String.length (join ts))%nat.
Proof.
  induction 1 as [|t ts Ht Hts IH]; [simpl; lia|].
  destruct ts as [|u ts]; [simpl in *; lia|].
  rewrite join_cons, !length_append. simpl in *. lia.
Qed.

(** [JSON.parse] reads back an array of such objects as written. *)
Lemma parse_stringify_flat (bound : nat) (vs : list json) :
  forallb (flat_object bound) vs = true -> (bound <= 6)%nat ->
  parse (stringify (JArr vs)) = Some (JArr vs).
Proof.
  intros Hvs Hbound.
  destruct vs as [|v vs]; [reflexivity|].
  unfold parse.
  set (text := stringify (JArr (v :: vs))).
  assert (Hlen : (2 * length (v :: vs) + 2 <= String.length text)%nat).
  { subst text. cbn [stringify]. rewrite !length_append.
    assert (Hj : (2 * length (map stringify (v :: vs))
                  <= String.length (join (map stringify (v :: vs))))%nat).
    { apply length_join. apply List.Forall_forall. intros t Ht.
      apply in_map_iff in Ht as (o & <- & Ho).
      rewrite forallb_forall in Hvs. specialize (Hvs o Ho).
      destruct o as [| | | | |ms]; try discriminate.
      rewrite stringify_object, !length_append. simpl. lia. }
    rewrite length_map in Hj. simpl in *. lia. }
  destruct (2 * String.length text + 2)%nat as [|fuel] eqn:Hfuel; [lia|].
  assert (Hfuel' : (length (v :: vs) + bound + 1 < fuel)%nat)
    by (cbn [length] in *; lia).
  clear Hlen Hfuel. subst text. cbn [stringify].
  cbn [String.append parse_value skip_ws].
  change (is_ws "[") with false. cbv iota.
  change (code "[" =? 110) with false. change (code "[" =? 116) with false.
  change (code "[" =? 102) with false. change (code "[" =? 34) with false.
  change (code "[" =? 91) with true. cbv iota.
  pose proof (parse_elements_flat bound (v :: vs) fuel ""
                ltac:(discriminate) Hvs) as Hel.
  cbn [String.append] in *.
  rewrite Hel by exact Hfuel'.
  assert (Hhead : exists r, join (map stringify (v :: vs)) ++ "]"
                            = String "{" r).
  { cbn [forallb] in Hvs. apply andb_true_iff in Hvs as [Hv _].
    destruct v as [| | | | |ms]; try discriminate.
    destruct vs; cbn [map join]; rewrite stringify_object;
      cbn [String.append]; eauto. }
  destruct Hhead as [r ->].
  cbn [skip_ws]. change (is_ws "{") with false. cbv iota.
  reflexivity.
Qed.

(** *** The fuel of [parse] is enough *)

Lemma skip_ws_length (s : string) :
  (String.length (skip_ws s) <= String.length s)%nat.
Proof.
  induction s as [|c s IH]; [reflexivity|].
  cbn [skip_ws]. destruct (is_ws c); cbn [String.length]; lia.
Qed.

Lemma expect_length (lit : string) : forall (s r : string),
  expect lit s = Some r ->
  String.length s = (String.length lit + String.length r)%nat.
Proof.
  induction lit as [|a lit IH]; intros s r; cbn [expect].
  - now intros [= ->].
  - destruct s as [|b s]; [discriminate|].
    destruct (a =? b)%char; [|discriminate].
    intros Hs. apply IH in Hs. cbn [String.length]. lia.
Qed.

Lemma prepend_length (p : string) (x : option (string * string))
    (s r : string) :
  prepend p x = Some (s, r) -> exists s', x = Some (s', r).
Proof. destruct x as [[s' r']|]; [intros [= _ <-]; eauto | discriminate]. Qed.

Lemma parse_chars_length (n : nat) : forall (s str r : string),
  (String.length s <= n)%nat ->
  parse_chars s = Some (str, r) ->
  (String.length r < String.length s)%nat.
Proof.
  induction n as [|n IH]; intros s str r Hn;
    (destruct s as [|c s]; [discriminate|]); cbn [String.length] in Hn;
    [lia|].
  cbn [parse_chars].
  destruct (code c =? 34); [intros [= _ <-]; cbn [String.length]; lia|].
  destruct (code c =? 92).
  - destruct s as [|e s]; [discriminate|].
    destruct (code e =? 117).
    + destruct s as [|h1 [|h2 [|h3 [|h4 s]]]]; try discriminate.
      destruct (hex4 h1 h2 h3 h4); [|discriminate].
      intros Hp. apply prepend_length in Hp as [s' Hp].
      apply IH in Hp; cbn [String.length] in *; lia.
    + destruct (simple_escape e); [|discriminate].
      intros Hp. apply prepend_length in Hp as [s' Hp].
      apply IH in Hp; cbn [String.length] in *; lia.
  - destruct (code c <? 32); [discriminate|].
    intros Hp. apply prepend_length in Hp as [s' Hp].
    apply IH in Hp; cbn [String.length] in *; lia.
Qed.

Lemma span_digits_length (s : string) :
  (String.length (snd (span_digits s)) <= String.length s)%nat.
Proof.
  induction s as [|c s IH]; [reflexivity|].
  cbn [span_digits]. destruct (is_digit c); [|reflexivity].
  destruct (span_digits s) as [d rest]. cbn [snd String.length] in *. lia.
Qed.

Lemma parse_number_length (s lex r : string) :
  parse_number s = Some (lex, r) ->
  (String.length r < String.length s)%nat.
Proof.
  unfold parse_number.
  assert (Hsign : (String.length (snd (parse_sign s)) <= String.length s)%nat).
  { unfold parse_sign. destruct s as [|c s]; [reflexivity|].
    destruct (c =? "-")%char; cbn [snd String.length]; lia. }
  destruct (parse_sign s) as [sign r0]. cbn [snd] in Hsign.
  assert (Hint : forall i r1, parse_int r0 = Some (i, r1) ->
                 (String.length r1 < String.length r0)%nat).
  { unfold parse_int. destruct r0 as [|c r0]; [discriminate|]. intros i r1.
    destruct (code c =? 48); [intros [= _ <-]; cbn [String.length]; lia|].
    destruct (is_digit c); [|discriminate].
    pose proof (span_digits_length r0) as Hd.
    destruct (span_digits r0) as [d rest]. intros [= _ <-].
    cbn [snd String.length] in *. lia. }
  assert (Hfrac : forall r1 f r2, parse_frac r1 = Some (f, r2) ->
                  (String.length r2 <= String.length r1)%nat).
  { unfold parse_frac. intros [|c r1] f r2; [now intros [= _ <-]|].
    destruct (c =? ".")%char; [|now intros [= _ <-]].
    pose proof (span_digits_length r1) as Hd.
    destruct (span_digits r1) as [[|x d] rest]; [discriminate|].
    intros [= _ <-]. cbn [snd String.length] in *. lia. }
  assert (Hexp : forall r2 e r3, parse_exp r2 = Some (e, r3) ->
                 (String.length r3 <= String.length r2)%nat).
  { unfold parse_exp. intros [|c r2] e r3; [now intros [= _ <-]|].
    destruct ((c =? "e")%char || (c =? "E")%char); [|now intros [= _ <-]].
    assert (Hg : (String.length
                    (snd (match r2 with
                          | String g r' =>
                            if (g =? "+")%char || (g =? "-")%char
                            then (String g "", r') else ("", r2)
                          | "" => ("", r2)
                          end)) <= String.length r2)%nat).
    { destruct r2 as [|g r2]; [reflexivity|].
      destruct ((g =? "+")%char || (g =? "-")%char);
        cbn [snd String.length]; lia. }
    destruct (match r2 with
              | String g r' =>
                if (g =? "+")%char || (g =? "-")%char
                then (String g "", r') else ("", r2)
              | "" => ("", r2)
              end) as [sg r'']. cbn [snd] in Hg.
    pose proof (span_digits_length r'') as Hd.
    destruct (span_digits r'') as [[|x d] rest]; [discriminate|].
    intros [= _ <-]. cbn [snd String.length] in *. lia. }
  destruct (parse_int r0) as [[i r1]|] eqn:Hi; [|discriminate].
  cbn [mbind option_bind].
  destruct (parse_frac r1) as [[f r2]|] eqn:Hf; [|discriminate].
  cbn [mbind option_bind].
  destruct (parse_exp r2) as [[e r3]|] eqn:He; [|discriminate].
  cbn [mbind option_bind]. intros [= _ <-].
  specialize (Hint _ _ eq_refl). apply Hfrac in Hf. apply Hexp in He. lia.
Qed.

Lemma parse_scalar_length (c : ascii) (r : string) (v : json) (r' : string) :
  parse_scalar c r = Some (v, r') ->
  (String.length r' <= String.length r)%nat.
Proof.
  unfold parse_scalar.
  assert (Hlit : forall lit w, (expect lit r ≫= fun x => Some (w, x))
                               = Some (v, r') ->
                 (String.length r' <= String.length r)%nat).
  { intros lit w. destruct (expect lit r) as [x|] eqn:Hx; [|discriminate].
    cbn [mbind option_bind]. intros [= _ <-].
    apply expect_length in Hx. lia. }
  destruct (c =? "n")%char; [apply Hlit|].
  destruct (c =? "t")%char; [apply Hlit|].
  destruct (c =? "f")%char; [apply Hlit|].
  destruct (c =? dq)%char.
  - destruct (parse_chars r) as [[str x]|] eqn:Hx; [|discriminate].
    cbn [mbind option_bind]. intros [= _ <-].
    apply (parse_chars_length _ _ _ _ (le_n _)) in Hx. lia.
  - destruct (parse_number (String c r)) as [[lex x]|] eqn:Hx; [|discriminate].
    cbn [mbind option_bind]. intros [= _ <-].
    apply parse_number_length in Hx. cbn [String.length] in Hx. lia.
Qed.

(** A value that is parsed with some fuel is parsed alike with any fuel
    from twice the number of characters that it takes. *)
Lemma parse_fuel (f : nat) :
  (forall s v r, parse_value f s = Some (v, r) ->
     (String.length r < String.length s)%nat /\
     forall g, (2 * (String.length s - String.length r) <= g)%nat ->
               parse_value g s = Some (v, r)) /\
  (forall s vs r, parse_elements f s = Some (vs, r) ->
     (String.length r + 1 < String.length s)%nat /\
     forall g, (2 * (String.length s - String.length r) - 1 <= g)%nat ->
               parse_elements g s = Some (vs, r)) /\
  (forall s ms r, parse_members f s = Some (ms, r) ->
     (String.length r + 1 < String.length s)%nat /\
     forall g, (2 * (String.length s - String.length r) - 1 <= g)%nat ->
               parse_members g s = Some (ms, r)).
Proof.
  induction f as [|f (IHv & IHe & IHm)]; [repeat split; discriminate|].
  split; [|split].
  - intros s v r Hp. cbn [parse_value] in Hp.
    pose proof (skip_ws_length s) as Hs.
    destruct (skip_ws s) as [|c r0] eqn:Es; [discriminate|].
    cbn [String.length] in Hs.
    destruct (c =? "[")%char eqn:Ec1; [|destruct (c =? "{")%char eqn:Ec2].
    + pose proof (skip_ws_length r0) as Hr0.
      destruct (skip_ws r0) as [|d r1] eqn:Er0; [discriminate|].
      cbn [String.length] in Hr0.
      destruct (d =? "]")%char eqn:Ed.
      * injection Hp as <- <-. split; [lia|].
        intros [|g] Hg; [lia|]. cbn [parse_value].
        now rewrite Es, Ec1, Er0, Ed.
      * destruct (parse_elements f r0) as [[vs r2]|] eqn:He; [|discriminate].
        cbn [mbind option_bind] in Hp. injection Hp as <- <-.
        apply IHe in He as [Hlen Hmono]. split; [lia|].
        intros [|g] Hg; [lia|]. cbn [parse_value].
        rewrite Es, Ec1, Er0, Ed, Hmono by lia. reflexivity.
    + pose proof (skip_ws_length r0) as Hr0.
      destruct (skip_ws r0) as [|d r1] eqn:Er0; [discriminate|].
      cbn [String.length] in Hr0.
      destruct (d =? "}")%char eqn:Ed.
      * injection Hp as <- <-. split; [lia|].
        intros [|g] Hg; [lia|]. cbn [parse_value].
        now rewrite Es, Ec1, Ec2, Er0, Ed.
      * destruct (parse_members f r0) as [[ms r2]|] eqn:Hm; [|discriminate].
        cbn [mbind option_bind] in Hp. injection Hp as <- <-.
        apply IHm in Hm as [Hlen Hmono]. split; [lia|].
        intros [|g] Hg; [lia|]. cbn [parse_value].
        rewrite Es, Ec1, Ec2, Er0, Ed, Hmono by lia. reflexivity.
    + pose proof (parse_scalar_length _ _ _ _ Hp) as Hlen. split; [lia|].
      intros [|g] Hg; [lia|]. cbn [parse_value].
      now rewrite Es, Ec1, Ec2.
  - intros s vs r Hp. cbn [parse_elements] in Hp.
    destruct (parse_value f s) as [[v r1]|] eqn:Hv; [|discriminate].
    cbn [mbind option_bind] in Hp.
    apply IHv in Hv as [Hlen1 Hmono1].
    pose proof (skip_ws_length r1) as Hr1.
    destruct (skip_ws r1) as [|d r2] eqn:Er1; [discriminate|].
    cbn [String.length] in Hr1.
    destruct (d =? ",")%char eqn:Ed1; [|destruct (d =? "]")%char eqn:Ed2].
    + destruct (parse_elements f r2) as [[vs' r3]|] eqn:He; [|discriminate].
      cbn [mbind option_bind] in Hp. injection Hp as <- <-.
      apply IHe in He as [Hlen2 Hmono2]. split; [lia|].
      intros [|g] Hg; [lia|]. cbn [parse_elements].
      rewrite Hmono1 by lia. cbn [mbind option_bind].
      rewrite Er1, Ed1, Hmono2 by lia. reflexivity.
    + injection Hp as <- <-. split; [lia|].
      intros [|g] Hg; [lia|]. cbn [parse_elements].
      rewrite Hmono1 by lia. cbn [mbind option_bind].
      now rewrite Er1, Ed1, Ed2.
    + discriminate.
  - intros s ms r Hp. cbn [parse_members] in Hp.
    pose proof (skip_ws_length s) as Hs.
    destruct (skip_ws s) as [|c r0] eqn:Es; [discriminate|].
    cbn [String.length] in Hs.
    destruct (c =? dq)%char eqn:Ec; [|discriminate].
    destruct (parse_chars r0) as [[k r1]|] eqn:Hk; [|discriminate].
    cbn [mbind option_bind] in Hp.
    pose proof (parse_chars_length _ _ _ _ (le_n _) Hk) as Hlenk.
    pose proof (skip_ws_length r1) as Hr1.
    destruct (skip_ws r1) as [|d r2] eqn:Er1; [discriminate|].
    cbn [String.length] in Hr1.
    destruct (d =? ":")%char eqn:Ed; [|discriminate].
    destruct (parse_value f r2) as [[v r3]|] eqn:Hv; [|discriminate].
    cbn [mbind option_bind] in Hp.
    apply IHv in Hv as [Hlen1 Hmono1].
    pose proof (skip_ws_length r3) as Hr3.
    destruct (skip_ws r3) as [|e r4] eqn:Er3; [discriminate|].
    cbn [String.length] in Hr3.
    destruct (e =? ",")%char eqn:Ee1; [|destruct (e =? "}")%char eqn:Ee2].
    + destruct (parse_members f r4) as [[ms' r5]|] eqn:Hm; [|discriminate].
      cbn [mbind option_bind] in Hp. injection Hp as <- <-.
      apply IHm in Hm as [Hlen2 Hmono2]. split; [lia|].
      intros [|g] Hg; [lia|]. cbn [parse_members].
      rewrite Es, Ec, Hk. cbn [mbind option_bind].
      rewrite Er1, Ed, Hmono1 by lia. cbn [mbind option_bind].
      rewrite Er3, Ee1, Hmono2 by lia. reflexivity.
    + injection Hp as <- <-. split; [lia|].
      intros [|g] Hg; [lia|]. cbn [parse_members].
      rewrite Es, Ec, Hk. cbn [mbind option_bind].
      rewrite Er1, Ed, Hmono1 by lia. cbn [mbind option_bind].
      now rewrite Er3, Ee1, Ee2.
    + discriminate.
Qed.

(** [parse] fails on no text that is a value for some fuel. *)
Lemma parse_enough_fuel (s : string) (fuel : nat) (v : json) (r : string) :
  parse_value fuel s = Some (v, r) -> skip_ws r = "" -> parse s = Some v.
Proof.
  intros Hp Hr. destruct (parse_fuel fuel) as (Hv & _ & _).
  apply Hv in Hp as [Hlen Hmono]. unfold parse.
  rewrite Hmono by lia. now rewrite Hr.
Qed.

(** *** With indentation *)

Lemma json_induction (P : json -> Prop) :
  P JNull -> (forall b, P (JBool b)) -> (forall l, P (JNum l)) ->
  (forall s, P (JStr s)) ->
  (forall vs, Forall P vs -> P (JArr vs)) ->
  (forall ms, Forall (fun m => P (snd m)) ms -> P (JObj ms)) ->
  forall v, P v.
Proof.
  intros Hnull Hbool Hnum Hstr Harr Hobj.
  fix IH 1. intros [|b|l|s|vs|ms];
    [exact Hnull | apply Hbool | apply Hnum | apply Hstr | |].
  - apply Harr. induction vs as [|v vs IHvs]; constructor;
      [apply IH | exact IHvs].
  - apply Hobj. induction ms as [|[k v] ms IHms]; constructor;
      [apply IH | exact IHms].
Qed.

Lemma skip_ws_blank (lead s : string) :
  blank lead = true -> skip_ws (lead ++ s) = skip_ws s.
Proof.
  induction lead as [|c lead IH]; [reflexivity|].
  cbn [blank String.append skip_ws]. intros Hb.
  apply andb_true_iff in Hb as [-> Hb]. now apply IH.
Qed.

Lemma blank_gap (indent : string) :
  blank indent = true -> blank (indent ++ gap) = true.
Proof.
  induction indent as [|c indent IH]; [reflexivity|].
  cbn [blank String.append]. intros Hb.
  apply andb_true_iff in Hb as [-> Hb]. now rewrite IH.
Qed.

Lemma skip_ws_skip_ws (s : string) : skip_ws (skip_ws s) = skip_ws s.
Proof.
  induction s as [|c s IH]; [reflexivity|].
  cbn [skip_ws]. destruct (is_ws c) eqn:Hc; [exact IH|].
  cbn [skip_ws]. now rewrite Hc.
Qed.

Lemma parse_value_skip_ws (g : nat) (s : string) :
  parse_value g (skip_ws s) = parse_value g s.
Proof. destruct g; [reflexivity|]. cbn [parse_value]. now rewrite skip_ws_skip_ws. Qed.

Lemma parse_members_skip_ws (g : nat) (s : string) :
  parse_members g (skip_ws s) = parse_members g s.
Proof. destruct g; [reflexivity|]. cbn [parse_members]. now rewrite skip_ws_skip_ws. Qed.

Lemma parse_elements_skip_ws (g : nat) (s : string) :
  parse_elements g (skip_ws s) = parse_elements g s.
Proof. destruct g; [reflexivity|]. cbn [parse_elements]. now rewrite parse_value_skip_ws. Qed.

(** The first character of a value's text. *)
Inductive opens : string -> Prop :=
| opens_with (c : ascii) (r : string) :
    In c ["["; "{"; dq; "n"; "t"; "f"]%char -> opens (String c r).

Lemma stringify_indented_opens (indent : string) (v : json) (rest : string) :
  plain v = true -> opens (stringify_indented indent v ++ rest).
Proof.
  destruct v as [|[]|l|s|[|v vs]|[|m ms]]; try discriminate; intros _;
    cbn [stringify_indented stringify quote String.append];
    constructor; cbn; tauto.
Qed.

Lemma skip_ws_opens (s : string) : opens s -> skip_ws s = s.
Proof.
  intros [c r Hc]. cbn [skip_ws].
  cbn in Hc. destruct Hc as [<-|[<-|[<-|[<-|[<-|[<-|[]]]]]]]; reflexivity.
Qed.


Lemma skip_ws_line (indent s : string) :
  blank indent = true ->
  skip_ws (String line_feed indent ++ s) = skip_ws s.
Proof. intros Hb. apply (skip_ws_blank (String line_feed indent)). exact Hb. Qed.

Lemma skip_ws_feed (indent s : string) :
  blank indent = true ->
  skip_ws (String line_feed (indent ++ s)) = skip_ws s.
Proof. apply skip_ws_line. Qed.

Lemma parse_elements_indented (inner stepback rest : string)
    (vs : list json) :
  blank inner = true -> blank stepback = true ->
  vs <> [] -> Forall reads_back vs -> forallb plain vs = true ->
  forall lead, blank lead = true ->
  settles (fun g => parse_elements g
             (lead ++ join_with ("," ++ String line_feed inner)
                        (map (stringify_indented inner) vs)
                   ++ String line_feed stepback ++ String "]" rest))
          (vs, rest).
Proof.
  intros Hinner Hstep.
  induction vs as [|v vs IH]; intros Hne Hall Hplain lead Hlead;
    [congruence|].
  apply Forall_cons in Hall as [Hv Hall].
  cbn [forallb] in Hplain. apply andb_true_iff in Hplain as [Hpv Hplain].
  destruct vs as [|v' vs].
  - cbn [map join_with].
    destruct (Hv inner (String line_feed stepback ++ String "]" rest) Hinner)
      as [n Hn].
    exists (S n). intros [|g] Hg; [lia|]. cbn [parse_elements].
    rewrite <- parse_value_skip_ws, skip_ws_blank, parse_value_skip_ws
      by exact Hlead.
    rewrite Hn by lia. cbn [mbind option_bind].
    rewrite skip_ws_line by exact Hstep.
    cbn [skip_ws]. decide_chars. reflexivity.
  - cbn [map]. 
    change (join_with ?sep (?t :: ?u :: ?l))
      with (t ++ sep ++ join_with sep (u :: l)).
    rewrite !append_assoc. cbn [String.append].
    match goal with
    | |- context [stringify_indented inner v ++ ?tail] =>
      destruct (Hv inner tail Hinner) as [n Hn]
    end.
    destruct (IH ltac:(discriminate) Hall Hplain (String line_feed inner)
                 Hinner) as [m Hm].
    exists (S (n + m)). intros [|g] Hg; [lia|]. cbn [parse_elements].
    rewrite <- parse_value_skip_ws, skip_ws_blank, parse_value_skip_ws
      by exact Hlead.
    rewrite Hn by lia. cbn [mbind option_bind skip_ws]. decide_chars.
    cbn [map String.append] in Hm. rewrite ?append_assoc in Hm.
    cbn [String.append] in Hm.
    rewrite Hm by lia. reflexivity.
Qed.


Lemma parse_members_indented (inner stepback rest : string)
    (ms : list (string * json)) :
  blank inner = true -> blank stepback = true ->
  ms <> [] -> Forall (fun m => reads_back (snd m)) ms ->
  forallb (fun m => plain (snd m)) ms = true ->
  forall lead, blank lead = true ->
  settles (fun g => parse_members g
             (lead ++ join_with ("," ++ String line_feed inner)
                        (map (fun m => quote (fst m) ++ ": "
                                ++ stringify_indented inner (snd m)) ms)
                   ++ String line_feed stepback ++ String "}" rest))
          (ms, rest).
Proof.
  intros Hinner Hstep.
  induction ms as [|[k v] ms IH]; intros Hne Hall Hplain lead Hlead;
    [congruence|].
  apply Forall_cons in Hall as [Hv Hall]. cbn [snd] in Hv.
  cbn [forallb] in Hplain. apply andb_true_iff in Hplain as [Hpv Hplain].
  destruct ms as [|m ms].
  - cbn [map join_with fst snd]. unfold quote.
    rewrite !append_assoc. cbn [String.append].
    rewrite !append_assoc. cbn [String.append].
    match goal with
    | |- context [stringify_indented inner v ++ ?tail] =>
      destruct (Hv inner tail Hinner) as [n Hn]
    end.
    exists (S n). intros [|g] Hg; [lia|].
    rewrite <- parse_members_skip_ws, skip_ws_blank, parse_members_skip_ws
      by exact Hlead.
    cbn [parse_members skip_ws]. decide_chars.
    rewrite parse_chars_escape. cbn [mbind option_bind skip_ws]. decide_chars.
    rewrite <- parse_value_skip_ws. cbn [skip_ws]. decide_chars.
    rewrite parse_value_skip_ws, Hn by lia. cbn [mbind option_bind].
    rewrite skip_ws_feed by exact Hstep.
    cbn [skip_ws]. decide_chars. reflexivity.
  - cbn [map].
    change (join_with ?sep (?t :: ?u :: ?l))
      with (t ++ sep ++ join_with sep (u :: l)).
    cbn [fst snd]. unfold quote at 1.
    rewrite !append_assoc. cbn [String.append].
    rewrite !append_assoc. cbn [String.append].
    match goal with
    | |- context [stringify_indented inner v ++ ?tail] =>
      destruct (Hv inner tail Hinner) as [n Hn]
    end.
    destruct (IH ltac:(discriminate) Hall Hplain (String line_feed inner)
                 Hinner) as [j Hj].
    exists (S (n + j)). intros [|g] Hg; [lia|].
    rewrite <- parse_members_skip_ws, skip_ws_blank, parse_members_skip_ws
      by exact Hlead.
    cbn [parse_members skip_ws]. decide_chars.
    rewrite parse_chars_escape. cbn [mbind option_bind skip_ws]. decide_chars.
    rewrite <- parse_value_skip_ws. cbn [skip_ws]. decide_chars.
    rewrite parse_value_skip_ws, Hn by lia.
    cbn [mbind option_bind skip_ws]. decide_chars.
    cbn [map String.append] in Hj. rewrite ?append_assoc in Hj.
    cbn [String.append] in Hj.
    rewrite Hj by lia. reflexivity.
Qed.

Lemma opens_not_closing (s : string) :
  opens s ->
  exists d r, skip_ws s = String d r /\
              (d =? "]")%char = false /\ (d =? "}")%char = false.
Proof.
  intros Hs. rewrite (skip_ws_opens s Hs). destruct Hs as [c r Hc].
  exists c, r. cbn in Hc.
  destruct Hc as [<-|[<-|[<-|[<-|[<-|[<-|[]]]]]]]; repeat split.
Qed.

(** [JSON.parse] reads back every value without numbers from its
    indented text. *)
Lemma parse_value_indented (v : json) : plain v = true -> reads_back v.
Proof.
  induction v as [|b|l|s|vs IH|ms IH] using json_induction;
    intros Hplain indent rest Hindent.
  - exists 1%nat. intros [|g] Hg; [lia|]. reflexivity.
  - exists 1%nat. intros [|g] Hg; [lia|]. destruct b; reflexivity.
  - discriminate.
  - exists 1%nat. intros [|g] Hg; [lia|].
    apply (parse_value_flat (JStr s)). reflexivity.
  - cbn [plain] in Hplain.
    assert (Hall : Forall reads_back vs).
    { rewrite forallb_forall in Hplain. rewrite List.Forall_forall in IH |- *.
      intros v Hv. apply IH; [exact Hv | now apply Hplain]. }
    destruct vs as [|v vs].
    + exists 1%nat. intros [|g] Hg; [lia|]. reflexivity.
    + destruct (parse_elements_indented (indent ++ gap) indent rest (v :: vs)
                  (blank_gap _ Hindent) Hindent ltac:(discriminate) Hall
                  Hplain (String line_feed (indent ++ gap))
                  (blank_gap _ Hindent)) as [n Hn].
      exists (S n). intros [|g] Hg; [lia|].
      cbn [stringify_indented]. cbv zeta.
      rewrite !append_assoc. cbn [String.append parse_value skip_ws].
      decide_chars. decide_chars.
      cbn [String.append] in Hn.
      rewrite (skip_ws_feed (indent ++ gap)) by (now apply blank_gap).
      cbn [map forallb] in Hplain |- *.
      apply andb_true_iff in Hplain as [Hv _].
      match goal with
      | |- context [skip_ws ?t] =>
        destruct (opens_not_closing t) as (d & r & -> & -> & _)
      end.
      { destruct vs; cbn [map join_with]; rewrite ?append_assoc;
          now apply stringify_indented_opens. }
      rewrite Hn by lia. reflexivity.
  - cbn [plain] in Hplain.
    assert (Hall : Forall (fun m => reads_back (snd m)) ms).
    { rewrite forallb_forall in Hplain. rewrite List.Forall_forall in IH |- *.
      intros m Hm. apply IH; [exact Hm | now apply Hplain]. }
    destruct ms as [|m ms].
    + exists 1%nat. intros [|g] Hg; [lia|]. reflexivity.
    + destruct (parse_members_indented (indent ++ gap) indent rest (m :: ms)
                  (blank_gap _ Hindent) Hindent ltac:(discriminate) Hall
                  Hplain (String line_feed (indent ++ gap))
                  (blank_gap _ Hindent)) as [n Hn].
      exists (S n). intros [|g] Hg; [lia|].
      cbn [stringify_indented]. cbv zeta.
      rewrite !append_assoc. cbn [String.append parse_value skip_ws].
      decide_chars. decide_chars.
      cbn [String.append] in Hn.
      rewrite (skip_ws_feed (indent ++ gap)) by (now apply blank_gap).
      match goal with
      | |- context [skip_ws ?t] =>
        assert (Ht : exists r, t = String dq r)
      end.
      { destruct ms; cbn [map join_with]; unfold quote;
          rewrite ?append_assoc; cbn [String.append]; eauto. }
      destruct Ht as [r Ht]. rewrite Ht. cbn [skip_ws]. decide_chars.
      rewrite <- Ht. rewrite Hn by lia. reflexivity.
Qed.

Lemma append_empty (s : string) : s ++ "" = s.
Proof. induction s as [|c s IH]; cbn [String.append]; congruence. Qed.

(** [JSON.parse] on the text of [JSON.stringify(value, null, 2)]. *)
Lemma parse_stringify_indented (v : json) :
  plain v = true -> parse (stringify_indented "" v) = Some v.
Proof.
  intros Hv.
  destruct (parse_value_indented v Hv "" "" eq_refl) as [n Hn].
  rewrite append_empty in Hn.
  apply (parse_enough_fuel _ n _ ""); [apply Hn; lia | reflexivity].
Qed.

End JsonFacts.

(** ** Dates: [Date.parse] reads back what [toISOString] writes *)

Section DateFacts.

Import Json Date.

Lemma code_chr (n : Z) : 0 <= n < 256 -> code (chr n) = n.
Proof.
  intros Hn. unfold code, chr.
  rewrite nat_ascii_embedding by lia. lia.
Qed.

Lemma read_pad (w : nat) : forall (n : Z) (rest : string),
  0 <= n < 10 ^ Z.of_nat w ->
  read w (pad w n ++ rest) = Some (n, rest).
Proof.
  induction w as [|w IH]; intros n rest Hn.
  - simpl in *. f_equal. f_equal. lia.
  - assert (Hp : 0 < 10 ^ Z.of_nat w) by (apply Z.pow_pos_nonneg; lia).
    assert (Hq : 0 <= n / 10 ^ Z.of_nat w < 10).
    { split; [apply Z.div_pos; lia|].
      apply Z.div_lt_upper_bound; [lia|].
      rewrite Nat2Z.inj_succ, Z.pow_succ_r in Hn by lia. lia. }
    assert (Hr : 0 <= n mod 10 ^ Z.of_nat w < 10 ^ Z.of_nat w)
      by (apply Z.mod_pos_bound; lia).
    cbn [pad read String.append].
    unfold is_digit. rewrite code_chr by lia.
    replace ((48 <=? 48 + n / 10 ^ Z.of_nat w)
             && (48 + n / 10 ^ Z.of_nat w <=? 57)) with true
      by (symmetry; apply andb_true_iff; split; apply Z.leb_le; lia).
    rewrite IH by exact Hr. cbn.
    f_equal. f_equal.
    pose proof (Z.div_mod n (10 ^ Z.of_nat w)). lia.
Qed.

Lemma all_from_spec (f : Z -> bool) (k : nat) : forall start x,
  all_from k f start = true ->
  start <= x < start + 2 ^ Z.of_nat k -> f x = true.
Proof.
  induction k as [|k IH]; intros start x Hall Hx.
  - simpl in *. replace x with start by lia. exact Hall.
  - cbn [all_from] in Hall. apply andb_true_iff in Hall as [H1 H2].
    rewrite Nat2Z.inj_succ, Z.pow_succ_r in Hx by lia.
    destruct (Z_lt_ge_dec x (start + 2 ^ Z.of_nat k)).
    + apply (IH start); [exact H1 | lia].
    + apply (IH (start + 2 ^ Z.of_nat k)); [exact H2 | lia].
Qed.

Lemma era_days_ok :
  all_from 17 (fun doe => if doe <? 146097 then era_day_ok doe else true) 0
  && all_from 14 (fun doe => if doe <? 146097 then era_day_ok doe else true)
       131072
  = true.
Proof. vm_compute. reflexivity. Qed.

Lemma era_day_ok_all (doe : Z) : 0 <= doe < 146097 -> era_day_ok doe = true.
Proof.
  intros Hd.
  pose proof era_days_ok as Hall. apply andb_true_iff in Hall as [Hlow Hhigh].
  destruct (Z_lt_ge_dec doe 131072) as [Hlt|Hge].
  - pose proof (all_from_spec _ 17 0 doe Hlow) as Hdoe. cbv beta in Hdoe.
    replace (doe <? 146097) with true in Hdoe
      by (symmetry; apply Z.ltb_lt; lia).
    apply Hdoe. change (2 ^ Z.of_nat 17) with 131072. lia.
  - pose proof (all_from_spec _ 14 131072 doe Hhigh) as Hdoe. cbv beta in Hdoe.
    replace (doe <? 146097) with true in Hdoe
      by (symmetry; apply Z.ltb_lt; lia).
    apply Hdoe. change (2 ^ Z.of_nat 14) with 16384. lia.
Qed.

Lemma is_leap_era (y k : Z) : is_leap (y + k * 400) = is_leap y.
Proof.
  unfold is_leap.
  replace ((y + k * 400) mod 4) with (y mod 4)
    by (replace (k * 400) with (k * 100 * 4) by lia;
        symmetry; apply Z.mod_add; lia).
  replace ((y + k * 400) mod 100) with (y mod 100)
    by (replace (k * 400) with (k * 4 * 100) by lia;
        symmetry; apply Z.mod_add; lia).
  replace ((y + k * 400) mod 400) with (y mod 400)
    by (symmetry; apply Z.mod_add; lia).
  reflexivity.
Qed.

Lemma days_in_month_era (y k m : Z) :
  days_in_month (y + k * 400) m = days_in_month y m.
Proof. unfold days_in_month. now rewrite is_leap_era. Qed.

(** [civil_from_days] yields a legal date of which [days_from_civil] is
    the day number again. *)
Lemma civil_from_days_spec (z y m d : Z) :
  civil_from_days z = (y, m, d) ->
  1 <= m <= 12 /\ 1 <= d <= days_in_month y m /\
  days_from_civil y m d = z /\
  (z + 719468) / 146097 * 400 <= y <= (z + 719468) / 146097 * 400 + 400.
Proof.
  unfold civil_from_days. cbv zeta.
  set (era := (z + 719468) / 146097).
  set (doe := z + 719468 - era * 146097).
  assert (Hdoe : 0 <= doe < 146097).
  { subst doe era.
    pose proof (Z.div_mod (z + 719468) 146097).
    pose proof (Z.mod_pos_bound (z + 719468) 146097). lia. }
  pose proof (era_day_ok_all doe Hdoe) as Hok.
  unfold era_day_ok in Hok. cbv zeta in Hok.
  set (yoe := year_of_era doe) in *.
  set (doy := day_of_year doe) in *.
  set (mp := month_index doy) in *.
  set (dd := doy - (153 * mp + 2) / 5 + 1) in *.
  set (mm := if mp <? 10 then mp + 3 else mp - 9) in *.
  set (carry := if mm <=? 2 then 1 else 0) in *.
  repeat (apply andb_true_iff in Hok as [Hok ?]).
  repeat match goal with
         | H : (_ <=? _) = true |- _ => apply Z.leb_le in H
         | H : (_ =? _) = true |- _ => apply Z.eqb_eq in H
         end.
  intros [= <- <- <-].
  assert (Hcarry : 0 <= carry <= 1) by (subst carry; destruct (mm <=? 2); lia).
  replace (yoe + era * 400 + carry) with (yoe + carry + era * 400) by lia.
  rewrite days_in_month_era.
  repeat split; try lia.
  unfold days_from_civil. cbv zeta.
  assert (Hy : (if mm <=? 2 then yoe + carry + era * 400 - 1
                else yoe + carry + era * 400) = yoe + era * 400)
    by (destruct (mm <=? 2); lia).
  rewrite Hy.
  assert (He : (yoe + era * 400) / 400 = era)
    by (rewrite Z.div_add by lia; rewrite Z.div_small by lia; lia).
  rewrite He.
  replace (yoe + era * 400 - era * 400) with yoe by lia.
  lia.
Qed.

Lemma time_of_day (r : Z) :
  0 <= r < ms_per_day ->
  0 <= r / 3600000 <= 23 /\ 0 <= r / 60000 mod 60 <= 59 /\
  0 <= r / 1000 mod 60 <= 59 /\ 0 <= r mod 1000 <= 999 /\
  r / 3600000 * 3600000 + r / 60000 mod 60 * 60000
    + r / 1000 mod 60 * 1000 + r mod 1000 = r.
Proof.
  unfold ms_per_day. intros Hr.
  pose proof (Z.div_mod r 3600000). pose proof (Z.mod_pos_bound r 3600000).
  pose proof (Z.div_mod r 60000). pose proof (Z.mod_pos_bound r 60000).
  pose proof (Z.div_mod r 1000). pose proof (Z.mod_pos_bound r 1000).
  pose proof (Z.div_mod (r / 60000) 60).
  pose proof (Z.mod_pos_bound (r / 60000) 60).
  pose proof (Z.div_mod (r / 1000) 60).
  pose proof (Z.mod_pos_bound (r / 1000) 60).
  assert (r / 60000 / 60 = r / 3600000)
    by (rewrite Z.div_div by lia; reflexivity).
  assert (r / 1000 / 60 = r / 60000)
    by (rewrite Z.div_div by lia; reflexivity).
  lia.
Qed.

Lemma read_year_iso (y : Z) (rest : string) :
  -999999 <= y <= 999999 ->
  read_year (iso_year y ++ rest) = Some (y, rest).
Proof.
  intros Hy. unfold iso_year.
  destruct ((0 <=? y) && (y <=? 9999)) eqn:Hsmall.
  - apply andb_true_iff in Hsmall as [H0 H1].
    apply Z.leb_le in H0. apply Z.leb_le in H1.
    assert (Hq : 0 <= y / 1000 < 10)
      by (split; [apply Z.div_pos; lia | apply Z.div_lt_upper_bound; lia]).
    pose proof (read_pad 4 y rest ltac:(simpl; lia)) as Hread.
    unfold read_year.
    change (pad 4 y ++ rest) with
      (String (chr (48 + y / 10 ^ Z.of_nat 3))
              (pad 3 (y mod 10 ^ Z.of_nat 3) ++ rest)) in *.
    change (10 ^ Z.of_nat 3) with 1000 in *.
    cbv iota beta.
    rewrite code_chr by lia.
    replace (48 + y / 1000 =? 43) with false
      by (symmetry; apply Z.eqb_neq; lia).
    replace (48 + y / 1000 =? 45) with false
      by (symmetry; apply Z.eqb_neq; lia).
    exact Hread.
  - destruct (y <? 0) eqn:Hneg.
    + apply Z.ltb_lt in Hneg.
      unfold read_year. cbn [String.append].
      change (code "-" =? 43) with false. change (code "-" =? 45) with true.
      cbv iota.
      rewrite read_pad by (simpl; lia). cbn.
      replace (- y =? 0) with false by (symmetry; apply Z.eqb_neq; lia).
      do 2 f_equal. lia.
    + unfold read_year. cbn [String.append].
      change (code "+" =? 43) with true. cbv iota.
      apply read_pad. simpl. lia.
Qed.

(** The year of a time value in range has at most six digits. *)
Lemma year_bound (t y m d : Z) :
  in_range t = true ->
  civil_from_days (t / ms_per_day) = (y, m, d) ->
  -999999 <= y <= 999999.
Proof.
  unfold in_range, max_time, ms_per_day. intros Ht Hc.
  apply andb_true_iff in Ht as [Hlo Hhi].
  apply Z.leb_le in Hlo. apply Z.leb_le in Hhi.
  apply civil_from_days_spec in Hc as (_ & _ & _ & Hy).
  pose proof (Z.div_mod t 86400000). pose proof (Z.mod_pos_bound t 86400000).
  pose proof (Z.div_mod (t / 86400000 + 719468) 146097).
  pose proof (Z.mod_pos_bound (t / 86400000 + 719468) 146097).
  lia.
Qed.

#[local] Ltac step :=
  cbn [mbind option_bind String.append expect Ascii.eqb Bool.eqb].

(** [Date.parse] reads back the text of [toISOString] to the
    millisecond. *)
Lemma parse_iso_of_time (t : Z) :
  in_range t = true -> parse_iso (iso_of_time t) = Some t.
Proof.
  intros Ht. unfold iso_of_time.
  destruct (civil_from_days (t / ms_per_day)) as [[y m] d] eqn:Hc.
  pose proof (year_bound t y m d Ht Hc) as Hy.
  pose proof (civil_from_days_spec _ _ _ _ Hc) as (Hm & Hd & Hdays & _).
  assert (Hr : 0 <= t mod ms_per_day < ms_per_day)
    by (apply Z.mod_pos_bound; reflexivity).
  pose proof (time_of_day _ Hr) as (Hh & Hmi & Hs & Hms & Hsum).
  assert (Hdim : days_in_month y m <= 31)
    by (unfold days_in_month;
        destruct (m =? 2), (is_leap y),
          ((m =? 4) || (m =? 6) || (m =? 9) || (m =? 11)); lia).
  unfold parse_iso.
  rewrite read_year_iso by exact Hy. step.
  rewrite read_pad by (simpl; lia). step.
  rewrite read_pad by (simpl; lia). step.
  rewrite read_pad by (simpl; lia). step.
  rewrite read_pad by (simpl; lia). step.
  rewrite read_pad by (simpl; lia). step.
  rewrite (read_pad 3 _ "Z") by (simpl; lia). step.
  replace ((1 <=? m) && (m <=? 12) && (1 <=? d) && (d <=? days_in_month y m)
           && (t mod ms_per_day / 3600000 <=? 23)
           && (t mod ms_per_day / 60000 mod 60 <=? 59)
           && (t mod ms_per_day / 1000 mod 60 <=? 59)) with true
    by (symmetry; repeat (apply andb_true_iff; split); apply Z.leb_le; lia).
  rewrite Hdays.
  replace (t / ms_per_day * ms_per_day + t mod ms_per_day / 3600000 * 3600000
           + t mod ms_per_day / 60000 mod 60 * 60000
           + t mod ms_per_day / 1000 mod 60 * 1000
           + t mod ms_per_day mod 1000) with t
    by (pose proof (Z.div_mod t ms_per_day ltac:(discriminate)); lia).
  now rewrite Ht.
Qed.

End DateFacts.

(** * The note store *)

Section StoreFacts.

Context `{Host}.

Import Json Date.

#[local] Arguments JSON_stringify : simpl never.
#[local] Arguments of_time : simpl never.
#[local] Arguments toString : simpl never.

(** ** What each operation computes *)

Lemma bind_Ok {A B} (m : M A) (k : A -> M B) (w : World) (b : B) (w' : World) :
  bind m k w = Ok b w' ->
  exists a w1, m w = Ok a w1 /\ k a w1 = Ok b w'.
Proof.
  unfold bind. destruct (m w) as [a w1| |]; [eauto | discriminate..].
Qed.

Lemma createNote_run (w : World) :
  createNote w =
  let newNote :=
    {| id := Some (toString (clock (ticks w))); title := Some "Untitled Note";
       content := Some ""; language := "plaintext";
       createdAt := of_time (clock (S (ticks w)));
       updatedAt := of_time (clock (S (S (ticks w)))) |} in
  Ok newNote (saved w (newNote :: notes w) (S (S (S (ticks w))))).
Proof. reflexivity. Qed.

Lemma mapM_update (i : string) (updates : NoteUpdates) (ns : list Note) :
  forall (w : World),
  mapM (fun note =>
          if id_is i note
          then let* d := new_Date in ret (merge note updates d)
          else ret note) ns w
  = Ok (fst (updated i updates (ticks w) ns))
       {| notes := notes w; localStorage := localStorage w;
          ticks := snd (updated i updates (ticks w) ns); draws := draws w |}.
Proof.
  induction ns as [|note ns IH]; intros w.
  - destruct w; reflexivity.
  - cbn [mapM updated]. unfold bind at 1.
    destruct (id_is i note).
    + unfold bind at 1. unfold new_Date, bind at 1, Date_now, ret at 1.
      unfold ret at 1. unfold bind at 1. rewrite IH.
      cbn [ticks notes localStorage draws].
      destruct (updated i updates (S (ticks w)) ns). reflexivity.
    + unfold ret at 1. unfold bind at 1. rewrite IH.
      destruct (updated i updates (ticks w) ns). reflexivity.
Qed.

Lemma updateNote_run (i : string) (updates : NoteUpdates) (w : World) :
  updateNote i updates w =
  Ok tt (saved w (fst (updated i updates (ticks w) (notes w)))
               (snd (updated i updates (ticks w) (notes w)))).
Proof.
  unfold updateNote, bind at 1, getNotes. unfold bind at 1.
  rewrite mapM_update. reflexivity.
Qed.

Lemma deleteNote_run (i : string) (w : World) :
  deleteNote i w =
  Ok tt (saved w (List.filter (fun note => negb (id_is i note)) (notes w))
               (ticks w)).
Proof. reflexivity. Qed.

Lemma importNotes_run (importedNotes : list Note) (w : World) :
  importNotes importedNotes w =
  Ok tt (saved w
               (List.filter
                  (fun note =>
                     negb (bool_decide
                             (id note ∈@{gset (option string)}
                                list_to_set (map id (notes w)))))
                  importedNotes ++ notes w)%list
               (ticks w)).
Proof. reflexivity. Qed.

Lemma id_is_spec (i : string) (note : Note) :
  id_is i note = true <-> id note = Some i.
Proof.
  unfold id_is. destruct (id note) as [j|]; [|split; discriminate].
  rewrite String.eqb_eq. split; congruence.
Qed.

Lemma id_is_false (i : string) (note : Note) :
  id_is i note = false <-> id note <> Some i.
Proof.
  rewrite <- id_is_spec. destruct (id_is i note); split; congruence.
Qed.

Lemma filter_not_id (i : string) (ns : list Note) :
  List.filter (fun note => negb (id_is i note)) ns
  = filter (fun note => id note <> Some i) ns.
Proof.
  induction ns as [|n ns IH]; [reflexivity|].
  cbn [List.filter]. rewrite filter_cons, IH.
  destruct (id_is i n) eqn:Hn; cbn [negb].
  - apply id_is_spec in Hn. now rewrite decide_False by tauto.
  - apply id_is_false in Hn. now rewrite decide_True.
Qed.

Lemma filter_fresh_id (old incoming : list Note) :
  List.filter
    (fun note =>
       negb (bool_decide
               (id note ∈@{gset (option string)} list_to_set (map id old))))
    incoming
  = filter (fun note => id note ∉ (id <$> old)) incoming.
Proof.
  induction incoming as [|n ns IH]; [reflexivity|].
  cbn [List.filter]. rewrite filter_cons, IH.
  change (map id old) with (id <$> old).
  destruct (decide (id n ∈ id <$> old)) as [Hin|Hin].
  - rewrite bool_decide_eq_true_2 by (now apply elem_of_list_to_set).
    now rewrite decide_False by tauto.
  - rewrite bool_decide_eq_false_2 by (now rewrite elem_of_list_to_set).
    now rewrite decide_True.
Qed.

Lemma updated_untouched (i : string) (updates : NoteUpdates) (ns : list Note) :
  forall (k : nat),
  (forall n, n ∈ ns -> id n <> Some i) ->
  updated i updates k ns = (ns, k).
Proof.
  induction ns as [|n ns IH]; intros k Hns; [reflexivity|].
  cbn [updated].
  assert (Hn : id_is i n = false)
    by (apply id_is_false, Hns; left).
  rewrite Hn, IH; [reflexivity|].
  intros m Hm. apply Hns. now right.
Qed.

(** ** create *)

(** C7. [createNote] builds a note titled "Untitled Note" with empty
    content and language plaintext, its id the decimal text of the
    clock's reading and both timestamps read from the clock as the note
    is built; it puts the note in front of the collection,
    writes the whole new collection to storage and returns the note.
    After a second call the collection holds the second note at index 0
    and the first at index 1, two notes in all when it was empty
    before. *)
Theorem createNote_prepends_and_persists (w : World) :
  exists (n1 : Note) (w1 : World),
    createNote w = Ok n1 w1 /\
    id n1 = Some (toString (clock (ticks w))) /\
    title n1 = Some "Untitled Note" /\ content n1 = Some "" /\
    language n1 = "plaintext" /\
    createdAt n1 = of_time (clock (ticks w + 1)) /\
    updatedAt n1 = of_time (clock (ticks w + 2)) /\
    notes w1 = n1 :: notes w /\
    localStorage w1 !! STORAGE_KEY = Some (JSON_stringify (notes w1)) /\
    exists (n2 : Note) (w2 : World),
      createNote w1 = Ok n2 w2 /\
      notes w2 !! 0%nat = Some n2 /\ notes w2 !! 1%nat = Some n1 /\
      length (notes w2) = (2 + length (notes w))%nat /\
      localStorage w2 !! STORAGE_KEY = Some (JSON_stringify (notes w2)).
Proof.
  rewrite createNote_run. cbv zeta.
  eexists. eexists. split; [reflexivity|].
  rewrite createNote_run. cbv zeta.
  cbn [id title content language createdAt updatedAt notes localStorage saved
       ticks].
  replace (ticks w + 1)%nat with (S (ticks w)) by lia.
  replace (ticks w + 2)%nat with (S (S (ticks w))) by lia.
  repeat (split; [reflexivity || apply lookup_insert_eq|]).
  eexists. eexists. repeat (split; [reflexivity|]).
  apply lookup_insert_eq.
Qed.

(** ** update *)

Lemma updated_spec (i : string) (updates : NoteUpdates) (ns : list Note) :
  forall (k : nat),
  (k <= snd (updated i updates k ns))%nat /\
  Forall2 (fun n n' =>
             if decide (id n = Some i)
             then merged updates n n' /\
                  exists j, (k <= j < snd (updated i updates k ns))%nat /\
                            updatedAt n' = of_time (clock j)
             else n' = n)
          ns (fst (updated i updates k ns)).
Proof.
  induction ns as [|n ns IH]; intros k; [split; [simpl; lia | constructor]|].
  cbn [updated]. destruct (id_is i n) eqn:Hn.
  - apply id_is_spec in Hn.
    destruct (IH (S k)) as [Hk Hall].
    destruct (updated i updates (S k) ns) as [ns' k'] eqn:Hup.
    cbn [fst snd] in *. split; [lia|].
    constructor.
    + rewrite decide_True by exact Hn. split.
      * unfold merged, merge; cbn.
        destruct (u_title updates), (u_content updates), (u_language updates);
          repeat split.
      * exists k. split; [lia | reflexivity].
    + eapply Forall2_impl; [exact Hall|].
      cbv beta. intros m m' Hm.
      destruct (decide (id m = Some i)); [|exact Hm].
      destruct Hm as [Hmerged (j & Hj & Hat)].
      split; [exact Hmerged|]. exists j. split; [lia | exact Hat].
  - apply id_is_false in Hn.
    destruct (IH k) as [Hk Hall].
    destruct (updated i updates k ns) as [ns' k'] eqn:Hup.
    cbn [fst snd] in *. split; [lia|].
    constructor; [now rewrite decide_False | exact Hall].
Qed.

(** C5, amended. [updateNote] merges the given fields into every note
    with the given id, leaves [id] and [createdAt] as they were and sets
    [updatedAt] to a reading of the clock taken during the call; the
    other notes are kept as they are.  On the collection of one note
    "1" with empty content and [updatedAt] T0, updating the content to
    "hello" yields the content "hello" and for [updatedAt] the reading
    of the clock, which is later than T0 exactly when the clock reads a
    time value later than T0. *)
Theorem updateNote_merges_fields (i : string) (updates : NoteUpdates)
    (w : World) :
  (exists w',
     updateNote i updates w = Ok tt w' /\
     localStorage w' !! STORAGE_KEY = Some (JSON_stringify (notes w')) /\
     Forall2 (fun m m' =>
                if decide (id m = Some i)
                then merged updates m m' /\
                     exists j, (ticks w <= j < ticks w')%nat /\
                               updatedAt m' = of_time (clock j)
                else m' = m)
             (notes w) (notes w')) /\
  (forall (n : Note) (T0 : Z),
     notes w = [n] -> id n = Some "1" -> content n = Some "" ->
     updatedAt n = DateAt T0 ->
     exists w' n',
       updateNote "1" {| u_title := None; u_content := Some "hello";
                         u_language := None; u_updatedAt := None |} w
       = Ok tt w' /\
       notes w' = [n'] /\ id n' = Some "1" /\ createdAt n' = createdAt n /\
       title n' = title n /\ language n' = language n /\
       content n' = Some "hello" /\
       updatedAt n' = of_time (clock (ticks w)) /\
       (Date_lt (DateAt T0) (updatedAt n') <->
        in_range (clock (ticks w)) = true /\ T0 < clock (ticks w))).
Proof.
  split.
  - rewrite updateNote_run. eexists. split; [reflexivity|].
    split; [apply lookup_insert_eq|].
    cbn [notes ticks saved]. apply updated_spec.
  - intros n T0 Hw Hid Hcontent Hat.
    rewrite updateNote_run. rewrite Hw. cbn [updated].
    assert (Hn : id_is "1" n = true) by (now apply id_is_spec).
    rewrite Hn. cbn [fst snd].
    eexists. eexists. split; [reflexivity|].
    cbn [notes saved merge id createdAt title language content updatedAt
         u_title u_content u_language].
    repeat (split; [reflexivity || assumption|]).
    unfold of_time. destruct (in_range (clock (ticks w))); cbn [Date_lt].
    + tauto.
    + split; [contradiction | intros [Hfalse _]; discriminate].
Qed.

(** C6. On an id that no note of the collection has, [updateNote] and
    [deleteNote] return normally and leave the collection as it is, in
    length and in contents. *)
Theorem missing_id_is_noop (i : string) (updates : NoteUpdates) (w : World) :
  (forall n, n ∈ notes w -> id n <> Some i) ->
  (exists w', updateNote i updates w = Ok tt w' /\ notes w' = notes w /\
              length (notes w') = length (notes w)) /\
  (exists w', deleteNote i w = Ok tt w' /\ notes w' = notes w /\
              length (notes w') = length (notes w)).
Proof.
  intros Hmiss. split.
  - rewrite updateNote_run, updated_untouched by exact Hmiss.
    eexists. split; [reflexivity|]. split; reflexivity.
  - rewrite deleteNote_run, filter_not_id.
    assert (Hall : filter (fun note => id note <> Some i) (notes w) = notes w).
    { induction (notes w) as [|n ns IH]; [reflexivity|].
      rewrite filter_cons, decide_True by (apply Hmiss; left).
      rewrite IH; [reflexivity|]. intros m Hm. apply Hmiss. now right. }
    rewrite Hall. eexists. split; [reflexivity|]. split; reflexivity.
Qed.

(** ** delete *)

(** C10. [deleteNote] removes every note whose id is the given one, not
    only the first; the notes with another id stay as they are and in
    the same order; deleting the same id again changes nothing. *)
Theorem deleteNote_removes_every_match (i : string) (w : World) :
  exists w',
    deleteNote i w = Ok tt w' /\
    (forall n, n ∈ notes w' -> id n <> Some i) /\
    notes w' = filter (fun n => id n <> Some i) (notes w) /\
    sublist (notes w') (notes w) /\
    (forall n, n ∈ notes w -> id n <> Some i -> n ∈ notes w') /\
    deleteNote i w' = Ok tt w'.
Proof.
  rewrite deleteNote_run, filter_not_id. eexists. split; [reflexivity|].
  cbn [notes saved]. split; [|split; [reflexivity|split; [|split]]].
  - intros n Hn. now apply list_elem_of_filter in Hn.
  - apply sublist_filter.
  - intros n Hn Hid. now apply list_elem_of_filter.
  - rewrite deleteNote_run, filter_not_id. unfold saved.
    cbn [notes localStorage ticks draws].
    rewrite list_filter_filter.
    assert (Heq : filter (fun n => id n <> Some i /\ id n <> Some i) (notes w)
                  = filter (fun n => id n <> Some i) (notes w))
      by (apply list_filter_iff; tauto).
    rewrite Heq, insert_insert_eq. reflexivity.
Qed.

(** ** import *)

(** The import handler changes neither the collection nor storage
    while it prepares the records. *)
Lemma normalize_keeps_store (v : json) (w : World) (n : Note) (w1 : World) :
  normalize v w = Ok n w1 ->
  notes w1 = notes w /\ localStorage w1 = localStorage w.
Proof.
  unfold normalize. destruct (decode v) as [[ri rt rc rl rca rua]| |];
    [|discriminate..].
  cbn [r_id r_title r_content r_language r_createdAt r_updatedAt].
  unfold Date_of_raw_or_now.
  destruct ri as [s|]; [destruct (String.eqb s "")|];
    (destruct rca as [| |c]; [| |destruct (String.eqb c "")]);
    (destruct rua as [| |u]; [| |destruct (String.eqb u "")]);
    cbv [bind fresh_id new_Date Date_now Math_random ret];
    intros [= _ <-]; split; reflexivity.
Qed.

Lemma mapM_normalize_keeps_store (records : list json) :
  forall (w : World) (ns : list Note) (w1 : World),
  mapM normalize records w = Ok ns w1 ->
  notes w1 = notes w /\ localStorage w1 = localStorage w.
Proof.
  induction records as [|v records IH]; intros w ns w1 Hrun.
  - injection Hrun as _ <-. split; reflexivity.
  - cbn [mapM] in Hrun.
    apply bind_Ok in Hrun as (n & w2 & Hn & Hrun).
    apply bind_Ok in Hrun as (ns' & w3 & Hns & Hrun).
    injection Hrun as _ <-.
    apply normalize_keeps_store in Hn as [Hn1 Hn2].
    apply IH in Hns as [Hns1 Hns2]. split; congruence.
Qed.

Lemma decode_texts (v : json) (r : Raw) :
  decode v = Readable r ->
  r_id r = stored_text "id" v /\ r_title r = stored_text "title" v /\
  r_content r = stored_text "content" v.
Proof.
  destruct v as [|b|x|s|vs|ms]; cbn [decode stored_text].
  - discriminate.
  - now intros [= <-].
  - now intros [= <-].
  - destruct s; [now intros [= <-] | discriminate].
  - destruct vs; [now intros [= <-] | discriminate].
  - destruct (forallb _ ms); [|discriminate].
    unfold text_property at 1 2 3.
    destruct (property "id" ms) as [[| | |i| |]|]; try discriminate;
      (destruct (property "title" ms) as [[| | |t| |]|]; try discriminate);
      (destruct (property "content" ms) as [[| | |c| |]|]; try discriminate);
      (destruct (language_property ms); [|discriminate]);
      (destruct (date_property "createdAt" ms); [|discriminate]);
      (destruct (date_property "updatedAt" ms); [|discriminate]);
      now intros [= <-].
Qed.

Lemma decode_dates (v : json) (r : Raw) :
  decode v = Readable r ->
  r_createdAt r = stored_date "createdAt" v /\
  r_updatedAt r = stored_date "updatedAt" v.
Proof.
  destruct v as [|b|x|s|vs|ms]; cbn [decode stored_date].
  - discriminate.
  - now intros [= <-].
  - now intros [= <-].
  - destruct s; [now intros [= <-] | discriminate].
  - destruct vs; [now intros [= <-] | discriminate].
  - destruct (forallb _ ms); [|discriminate].
    destruct (text_property "id" ms); [|discriminate].
    destruct (text_property "title" ms); [|discriminate].
    destruct (text_property "content" ms); [|discriminate].
    destruct (language_property ms); [|discriminate].
    unfold date_property.
    destruct (property "createdAt" ms) as [[| | |c| |]|]; try discriminate;
      (destruct (property "updatedAt" ms) as [[| | |u| |]|];
       try discriminate);
      now intros [= <-].
Qed.

Lemma decode_language (v : json) (r : Raw) :
  decode v = Readable r -> r_language r = stored_language v.
Proof.
  destruct v as [|b|x|s|vs|ms]; cbn [decode stored_language].
  - discriminate.
  - now intros [= <-].
  - now intros [= <-].
  - destruct s; [now intros [= <-] | discriminate].
  - destruct vs; [now intros [= <-] | discriminate].
  - destruct (forallb _ ms); [|discriminate].
    destruct (text_property "id" ms); [|discriminate].
    destruct (text_property "title" ms); [|discriminate].
    destruct (text_property "content" ms); [|discriminate].
    unfold language_property.
    destruct (property "language" ms) as [[|[|]| |l| |]|];
      try discriminate;
      (destruct (date_property "createdAt" ms); [|discriminate]);
      (destruct (date_property "updatedAt" ms); [|discriminate]);
      now intros [= <-].
Qed.

(** What [normalize] makes of a record of note shape, field by field,
    and the clock readings and random numbers that it takes. *)
Lemma normalize_run (v : json) (w : World) :
  note_shaped v ->
  let fresh := missing (stored_text "id" v) in
  let a := if fresh then 1%nat else 0%nat in
  let b := if undated (stored_date "createdAt" v) then 1%nat else 0%nat in
  let c := if undated (stored_date "updatedAt" v) then 1%nat else 0%nat in
  normalize v w =
  Ok {| id := Some (if fresh
                    then toString (clock (ticks w)) ++ random (draws w)
                    else default "" (stored_text "id" v));
        title := stored_text "title" v; content := stored_text "content" v;
        language := or_else (stored_language v) "plaintext";
        createdAt := if undated (stored_date "createdAt" v)
                     then of_time (clock (a + ticks w))
                     else Date_of_raw (stored_date "createdAt" v);
        updatedAt := if undated (stored_date "updatedAt" v)
                     then of_time (clock (b + (a + ticks w)))
                     else Date_of_raw (stored_date "updatedAt" v) |}
     {| notes := notes w; localStorage := localStorage w;
        ticks := c + (b + (a + ticks w)); draws := a + draws w |}.
Proof.
  intros [r Hr]. unfold normalize. rewrite Hr.
  destruct (decode_texts v r Hr) as (Hi & Ht & Hc).
  destruct (decode_dates v r Hr) as (Hca & Hua).
  rewrite (decode_language v r Hr), Hi, Ht, Hc, Hca, Hua.
  unfold Date_of_raw_or_now, missing, undated.
  destruct w as [ns store k d].
  destruct (stored_text "id" v) as [i|]; [destruct (String.eqb i "")|];
    (destruct (stored_date "createdAt" v) as [| |ca];
     [| |destruct (String.eqb ca "")]);
    (destruct (stored_date "updatedAt" v) as [| |ua];
     [| |destruct (String.eqb ua "")]);
    reflexivity.
Qed.

Lemma prepared_wider (lo hi lo' hi' : nat) (v : json) (n : Note) :
  (lo' <= lo)%nat -> (hi <= hi')%nat ->
  prepared lo hi v n -> prepared lo' hi' v n.
Proof.
  intros Hlo Hhi (Ht & Hc & Hl & Hid & Hfresh & Hca & Hnow & Hua & Hnow').
  repeat (split; [assumption|]).
  split; [|split; [exact Hca|split; [|split; [exact Hua|]]]].
  - intros Hm. destruct (Hfresh Hm) as (k & j & Hk & Hn).
    exists k, j. split; [lia | exact Hn].
  - intros Hm. destruct (Hnow Hm) as (k & Hk & Hn).
    exists k. split; [lia | exact Hn].
  - intros Hm. destruct (Hnow' Hm) as (k & Hk & Hn).
    exists k. split; [lia | exact Hn].
Qed.

Lemma normalize_prepared (v : json) (w : World) :
  note_shaped v ->
  exists n w',
    normalize v w = Ok n w' /\ prepared (ticks w) (ticks w') v n /\
    notes w' = notes w /\ localStorage w' = localStorage w /\
    (ticks w <= ticks w')%nat.
Proof.
  intros Hv. rewrite (normalize_run v w Hv). cbv zeta.
  eexists. eexists. split; [reflexivity|].
  cbn [ticks notes localStorage].
  split; [|split; [reflexivity|split; [reflexivity|lia]]].
  unfold prepared. cbn [id title content language createdAt updatedAt].
  split; [reflexivity|]. split; [reflexivity|]. split; [reflexivity|].
  split; [|split; [|split; [|split; [|split]]]].
  - intros i Hi Hne. rewrite Hi. cbn [missing default].
    apply String.eqb_neq in Hne. now rewrite Hne.
  - intros Hm. rewrite Hm. exists (ticks w), (draws w).
    split; [lia | reflexivity].
  - intros s Hs Hne. rewrite Hs. cbn [undated Date_of_raw].
    apply String.eqb_neq in Hne. now rewrite Hne.
  - intros Hm. rewrite Hm. eexists. split; [|reflexivity]. lia.
  - intros s Hs Hne. rewrite Hs. cbn [undated Date_of_raw].
    apply String.eqb_neq in Hne. now rewrite Hne.
  - intros Hm. rewrite Hm. eexists. split; [|reflexivity]. lia.
Qed.

Lemma mapM_normalize_prepared (records : list json) :
  Forall note_shaped records ->
  forall (w : World),
  exists ns w',
    mapM normalize records w = Ok ns w' /\
    Forall2 (prepared (ticks w) (ticks w')) records ns /\
    notes w' = notes w /\ localStorage w' = localStorage w /\
    (ticks w <= ticks w')%nat.
Proof.
  induction 1 as [|v records Hv _ IH]; intros w.
  - exists [], w. split; [reflexivity|]. split; [constructor|].
    split; [reflexivity|]. split; [reflexivity|]. lia.
  - destruct (normalize_prepared v w Hv)
      as (n & w1 & Hn & Hprepared & Hnotes & Hstore & Hticks).
    destruct (IH w1) as (ns & w2 & Hns & Hall & Hnotes' & Hstore' & Hticks').
    exists (n :: ns), w2. cbn [mapM]. unfold bind at 1. rewrite Hn.
    unfold bind at 1. rewrite Hns. split; [reflexivity|].
    split; [|split; [congruence|split; [congruence|lia]]].
    constructor.
    + eapply prepared_wider; [| |exact Hprepared]; lia.
    + eapply Forall2_impl; [exact Hall|]. intros v' n'.
      apply prepared_wider; lia.
Qed.

Lemma onload_current (content : string) (w : World) :
  handleFileChange content w = onload (notes w) content w.
Proof.
  unfold handleFileChange, onload, try_catch.
  destruct (parse content) as [[| | | |records|]|]; try reflexivity.
  unfold bind at 1 3.
  destruct (mapM normalize records w) as [validNotes w1| |] eqn:Hrecords;
    [|reflexivity..].
  apply mapM_normalize_keeps_store in Hrecords as [Hnotes _].
  unfold bind, handleImportNotes. rewrite importNotes_run.
  unfold importNotes_of. rewrite Hnotes. reflexivity.
Qed.

(** C3. [importNotes] drops every incoming note whose id some note of
    the collection already has and keeps the collection itself as it
    is, note by note; the other incoming notes are put in front of it
    in the order in which they came.  So does the import of a file of
    records of note shape: [onload] makes one note of each record, with
    the id, title and content of the record, drops those whose id is in
    the collection of the render in which the file was chosen, and puts
    the others in front of that collection, which [handleFileChange]
    takes to be the collection as it is. *)
Theorem importNotes_keeps_existing (incoming : list Note) (w : World) :
  (exists (added : list Note) (w' : World),
     importNotes incoming w = Ok tt w' /\
     notes w' = (added ++ notes w)%list /\
     added = filter (fun n => id n ∉ (id <$> notes w)) incoming /\
     (forall n, n ∈ incoming -> id n ∈ (id <$> notes w) -> n ∉ added) /\
     (forall n, n ∈ incoming -> id n ∉ (id <$> notes w) -> n ∈ added) /\
     sublist added incoming /\
     localStorage w' !! STORAGE_KEY = Some (JSON_stringify (notes w'))) /\
  (forall (seen : list Note) (content : string) (records : list json),
     parse content = Some (JArr records) -> Forall note_shaped records ->
     exists (validNotes added : list Note) (w' : World),
       onload seen content w = Ok (Imported (length records)) w' /\
       Forall2 (prepared (ticks w) (ticks w')) records validNotes /\
       added = filter (fun n => id n ∉ (id <$> seen)) validNotes /\
       notes w' = (added ++ seen)%list /\
       localStorage w' !! STORAGE_KEY = Some (JSON_stringify (notes w'))) /\
  (forall (content : string),
     handleFileChange content w = onload (notes w) content w).
Proof.
  split; [|split].
  - rewrite importNotes_run, filter_fresh_id.
    eexists. eexists. split; [reflexivity|].
    cbn [notes saved localStorage].
    split; [reflexivity|]. split; [reflexivity|].
    split; [|split; [|split; [apply sublist_filter | apply lookup_insert_eq]]].
    + intros n _ Hold Hadded. apply list_elem_of_filter in Hadded. tauto.
    + intros n Hn Hnew. now apply list_elem_of_filter.
  - intros seen content records Hparse Hrecords.
    destruct (mapM_normalize_prepared records Hrecords w)
      as (validNotes & w1 & Hrun & Hall & _ & _ & _).
    exists validNotes, (filter (fun n => id n ∉ (id <$> seen)) validNotes).
    unfold onload, try_catch. rewrite Hparse.
    unfold bind at 1. rewrite Hrun.
    unfold bind at 1, importNotes_of, saveNotes, bind, setNotes, setItem, ret.
    rewrite filter_fresh_id. eexists. split.
    + do 2 f_equal. symmetry. exact (Forall2_length _ _ _ Hall).
    + cbn [notes ticks localStorage]. split; [exact Hall|].
      split; [reflexivity|]. split; [reflexivity|]. apply lookup_insert_eq.
  - intros content. apply onload_current.
Qed.

(** ** load after save *)

Lemma decode_note_toJSON (n : Note) :
  decode (note_toJSON n) =
  Readable {| r_id := id n; r_title := title n; r_content := content n;
             r_language := Some (language n);
             r_createdAt := raw_of_date (createdAt n);
             r_updatedAt := raw_of_date (updatedAt n) |}.
Proof.
  destruct n as [[i|] [t|] [c|] l [ca|] [ua|]]; reflexivity.
Qed.

Lemma note_toJSON_flat (n : Note) : flat_object 6 (note_toJSON n) = true.
Proof.
  destruct n as [[i|] [t|] [c|] l [ca|] [ua|]]; reflexivity.
Qed.

Lemma Date_of_raw_of_date (d : Date) :
  valid_stamp d -> Date_of_raw (raw_of_date d) = redated d.
Proof.
  destruct d as [t|]; cbn [valid_stamp raw_of_date Date_of_raw]; intros Ht.
  - unfold Date_of_string, Date_parse. rewrite parse_iso_of_time by exact Ht.
    unfold of_time. now rewrite Ht.
  - reflexivity.
Qed.

Lemma revive_note_toJSON (n : Note) (w : World) :
  valid_stamp (createdAt n) -> valid_stamp (updatedAt n) ->
  revive (note_toJSON n) w = Ok (reloaded n) w.
Proof.
  intros Hc Hu. unfold revive. rewrite decode_note_toJSON.
  cbn [r_id r_title r_content r_language r_createdAt r_updatedAt].
  rewrite !Date_of_raw_of_date by assumption. reflexivity.
Qed.

Lemma mapM_revive (ns : list Note) (w : World) :
  Forall (fun n => valid_stamp (createdAt n) /\ valid_stamp (updatedAt n)) ns ->
  mapM revive (map note_toJSON ns) w = Ok (map reloaded ns) w.
Proof.
  induction 1 as [|n ns [Hc Hu] Hns IH]; [reflexivity|].
  cbn [map mapM]. unfold bind at 1.
  rewrite revive_note_toJSON by assumption.
  unfold bind at 1. rewrite IH. reflexivity.
Qed.

Lemma JSON_stringify_not_empty (ns : list Note) :
  String.eqb (JSON_stringify ns) "" = false.
Proof. reflexivity. Qed.

Lemma parse_JSON_stringify (ns : list Note) :
  parse (JSON_stringify ns) = Some (JArr (map note_toJSON ns)).
Proof.
  unfold JSON_stringify. apply (parse_stringify_flat 6); [|lia].
  apply forallb_forall. intros v Hv.
  apply in_map_iff in Hv as (n & <- & _). apply note_toJSON_flat.
Qed.

(** The mount effect run on what [saveNotes] has written. *)
Lemma load_after_save (w : World) (ns : list Note) :
  localStorage w !! STORAGE_KEY = Some (JSON_stringify ns) ->
  Forall (fun n => valid_stamp (createdAt n) /\ valid_stamp (updatedAt n)) ns ->
  useNotes_effect w =
  Ok tt {| notes := map reloaded ns; localStorage := localStorage w;
           ticks := ticks w; draws := draws w |}.
Proof.
  intros Hw Hns. unfold useNotes_effect, bind at 1, getItem.
  rewrite Hw, JSON_stringify_not_empty.
  unfold adopt. rewrite parse_JSON_stringify.
  unfold bind at 1. rewrite mapM_revive by exact Hns. reflexivity.
Qed.

(** ** load: the language of a record *)

Lemma or_else_plaintext (x : option string) :
  or_else x "plaintext" <> "" /\
  (x = None \/ x = Some "" -> or_else x "plaintext" = "plaintext") /\
  (forall l, x = Some l -> l <> "" -> or_else x "plaintext" = l).
Proof.
  unfold or_else. destruct x as [l|].
  - destruct (String.eqb_spec l "") as [->|Hl].
    + split; [discriminate|]. split; [reflexivity | congruence].
    + split; [exact Hl|]. split; [intros [?|?]; congruence | congruence].
  - split; [discriminate|]. split; [reflexivity | congruence].
Qed.



Lemma decode_language_or_plaintext (v : json) (r : Raw) :
  decode v = Readable r ->
  language_or_plaintext v = Some (JStr (or_else (r_language r) "plaintext")).
Proof.
  destruct v as [|b|x|s|vs|ms];
    cbn [decode language_or_plaintext language_of].
  - discriminate.
  - now intros [= <-].
  - now intros [= <-].
  - destruct s; [now intros [= <-] | discriminate].
  - destruct vs; [now intros [= <-] | discriminate].
  - destruct (forallb _ ms); [|discriminate].
    destruct (text_property "id" ms); [|discriminate].
    destruct (text_property "title" ms); [|discriminate].
    destruct (text_property "content" ms); [|discriminate].
    unfold language_property, language_or_plaintext, language_of.
    destruct (property "language" ms) as [[|[|]| |l| |]|];
      try discriminate;
      (destruct (date_property "createdAt" ms); [|discriminate]);
      (destruct (date_property "updatedAt" ms); [|discriminate]);
      intros [= <-]; cbn [r_language or_else truthy]; try reflexivity.
    now destruct (String.eqb l "").
Qed.




Lemma revive_read (v : json) (w : World) :
  note_shaped v ->
  exists n, revive v w = Ok n w /\ read_from v n /\
            language_or_plaintext v = Some (JStr (language n)).
Proof.
  intros [r Hr]. unfold revive. rewrite Hr.
  destruct (decode_texts v r Hr) as (Hi & Ht & Hc).
  destruct (decode_dates v r Hr) as (Hca & Hua).
  eexists. split; [reflexivity|].
  split; [|exact (decode_language_or_plaintext v r Hr)].
  unfold read_from. cbn [id title content language createdAt updatedAt].
  rewrite (decode_language v r Hr), Hca, Hua. repeat split; assumption.
Qed.



(** ** load: a text that is not JSON *)

(** C4.  On the stored text [not json] the mount effect throws the
    [SyntaxError] of [JSON.parse]: nothing catches it, no welcome note
    is made, collection and storage stay as they were.  The import
    handler, given the same text, catches the error and shows an
    alert.  (The text is a value for no fuel of the parser.) *)
Theorem malformed_storage_is_not_recovered (ns : list Note)
    (store : gmap string string) (k d : nat) :
  let w := {| notes := ns;
              localStorage := <[STORAGE_KEY := "not json"]> store;
              ticks := k; draws := d |} in
  useNotes_effect w = Throws SyntaxError w /\
  handleFileChange "not json" w = Ok Alerted w /\
  forall fuel, parse_value fuel "not json" = None.
Proof.
  split; [|split; [reflexivity|intros [|fuel]; reflexivity]].
  unfold useNotes_effect, bind, getItem. cbn [localStorage].
  rewrite lookup_insert_eq. reflexivity.
Qed.

(** ** Ids *)

Lemma updated_ids (i : string) (updates : NoteUpdates) (ns : list Note) :
  forall (k : nat), id <$> fst (updated i updates k ns) = id <$> ns.
Proof.
  induction ns as [|n ns IH]; intros k; [reflexivity|].
  cbn [updated]. destruct (id_is i n).
  - specialize (IH (S k)). destruct (updated i updates (S k) ns).
    cbn [fst] in *. rewrite !fmap_cons. now rewrite IH.
  - specialize (IH k). destruct (updated i updates k ns).
    cbn [fst] in *. rewrite !fmap_cons. now rewrite IH.
Qed.

(** Where the ids do stay distinct: under update and delete, and under
    an import whose batch has distinct ids itself. *)
Lemma distinct_ids_kept (w : World) :
  NoDup (id <$> notes w) ->
  (forall i updates w',
     updateNote i updates w = Ok tt w' -> NoDup (id <$> notes w')) /\
  (forall i w', deleteNote i w = Ok tt w' -> NoDup (id <$> notes w')) /\
  (forall incoming w',
     NoDup (id <$> incoming) ->
     importNotes incoming w = Ok tt w' -> NoDup (id <$> notes w')).
Proof.
  intros Hw. split; [|split].
  - intros i updates w'. rewrite updateNote_run. intros [= <-].
    cbn [notes saved]. now rewrite updated_ids.
  - intros i w'. rewrite deleteNote_run, filter_not_id. intros [= <-].
    cbn [notes saved].
    eapply sublist_NoDup; [exact Hw | apply fmap_sublist, sublist_filter].
  - intros incoming w' Hin. rewrite importNotes_run, filter_fresh_id.
    intros [= <-]. cbn [notes saved]. rewrite fmap_app.
    apply NoDup_app. split; [|split; [|exact Hw]].
    + eapply sublist_NoDup; [exact Hin | apply fmap_sublist, sublist_filter].
    + intros x Hx Hold.
      apply list_elem_of_fmap in Hx as (n & -> & Hn).
      apply list_elem_of_filter in Hn as [Hnew _]. contradiction.
Qed.

(** ** Collections reached without import *)

Lemma stamped_later (k k' : nat) (n : Note) :
  (k <= k')%nat -> stamped k n -> stamped k' n.
Proof.
  intros Hk (i & j & Hij & Hc & Hu). exists i, j. repeat split; try lia; auto.
Qed.

Lemma useNotes_effect_seed (w : World) :
  notes w = [] -> localStorage w !! STORAGE_KEY = None ->
  useNotes_effect w =
  let welcomeNote :=
    {| id := Some "1"; title := Some "Welcome to Swift Notes";
       content := Some welcome_content; language := "plaintext";
       createdAt := of_time (clock (ticks w));
       updatedAt := of_time (clock (S (ticks w))) |} in
  Ok tt (saved w [welcomeNote] (S (S (ticks w)))).
Proof.
  intros Hn Hs. unfold useNotes_effect, bind at 1, getItem. rewrite Hs.
  reflexivity.
Qed.



Section Clock.

(** The clock delivers time values, *)
Hypothesis clock_valid : forall k, in_range (clock k) = true.

Lemma of_time_clock (k : nat) : of_time (clock k) = DateAt (clock k).
Proof. unfold of_time. now rewrite clock_valid. Qed.

Lemma updated_stamped (i : string) (updates : NoteUpdates) (ns : list Note) :
  forall (k : nat),
  Forall (stamped k) ns ->
  Forall (stamped (snd (updated i updates k ns)))
         (fst (updated i updates k ns)).
Proof.
  induction ns as [|n ns IH]; intros k Hns; [constructor|].
  apply Forall_cons in Hns as [Hn Hns]. cbn [updated].
  pose proof (updated_spec i updates ns) as Hmono.
  destruct (id_is i n).
  - specialize (IH (S k)). destruct (Hmono (S k)) as [Hk _].
    destruct (updated i updates (S k) ns) as [ns' k'].
    cbn [fst snd] in *. constructor.
    + destruct Hn as (a & b & Hab & Hc & _).
      exists a, k. rewrite of_time_clock. cbn. repeat split; try lia. exact Hc.
    + apply IH. eapply Forall_impl; [exact Hns|].
      intros m. apply stamped_later. lia.
  - specialize (IH k). destruct (Hmono k) as [Hk _].
    destruct (updated i updates k ns) as [ns' k'].
    cbn [fst snd] in *. constructor; [|now apply IH].
    eapply stamped_later; [|exact Hn]. lia.
Qed.

(** What holds of every reachable world: storage holds the text of the
    collection, and every note is stamped by the clock. *)
Lemma reachable_invariant (w : World) :
  reachable w ->
  localStorage w !! STORAGE_KEY = Some (JSON_stringify (notes w)) /\
  Forall (stamped (ticks w)) (notes w).
Proof.
  induction 1 as [w w' Hn Hs Hrun | w n w' _ [_ IH] Hrun
                 | w i u w' _ [_ IH] Hrun | w i w' _ [_ IH] Hrun].
  - rewrite useNotes_effect_seed in Hrun by assumption. cbv zeta in Hrun.
    injection Hrun as <-. split; [apply lookup_insert_eq|].
    cbn [notes saved ticks]. constructor; [|constructor].
    exists (ticks w), (S (ticks w)). rewrite !of_time_clock. cbn.
    repeat split; lia.
  - rewrite createNote_run in Hrun. cbv zeta in Hrun.
    injection Hrun as <- <-. split; [apply lookup_insert_eq|].
    cbn [notes saved ticks]. constructor.
    + exists (S (ticks w)), (S (S (ticks w))). rewrite !of_time_clock. cbn.
      repeat split; lia.
    + eapply Forall_impl; [exact IH|]. intros m. apply stamped_later. lia.
  - rewrite updateNote_run in Hrun. injection Hrun as <-.
    split; [apply lookup_insert_eq|]. cbn [notes saved ticks].
    now apply updated_stamped.
  - rewrite deleteNote_run in Hrun. injection Hrun as <-.
    split; [apply lookup_insert_eq|]. cbn [notes saved ticks].
    rewrite filter_not_id. apply Forall_forall. intros m Hm.
    apply list_elem_of_filter in Hm as [_ Hm].
    rewrite Forall_forall in IH. now apply IH.
Qed.






(** and never runs backwards. *)
Hypothesis clock_monotone : forall j k, (j <= k)%nat -> clock j <= clock k.

Lemma stamped_ordered (k : nat) (n : Note) :
  stamped k n -> Date_le (createdAt n) (updatedAt n).
Proof.
  intros (i & j & Hij & -> & ->). cbn. apply clock_monotone. lia.
Qed.

Lemma updated_not_earlier (i : string) (updates : NoteUpdates)
    (ns : list Note) :
  forall (k : nat),
  Forall (stamped k) ns ->
  Forall2 (fun n n' => Date_le (updatedAt n) (updatedAt n'))
          ns (fst (updated i updates k ns)).
Proof.
  induction ns as [|n ns IH]; intros k Hns; [constructor|].
  apply Forall_cons in Hns as [Hn Hns]. cbn [updated].
  assert (Hsame : Date_le (updatedAt n) (updatedAt n)).
  { destruct Hn as (a & b & _ & _ & ->). cbn. lia. }
  destruct (id_is i n).
  - specialize (IH (S k)).
    destruct (updated i updates (S k) ns) as [ns' k'].
    cbn [fst]. constructor.
    + destruct Hn as (a & b & Hab & _ & ->).
      cbn [merge updatedAt]. rewrite of_time_clock. cbn.
      apply clock_monotone. lia.
    + apply IH. eapply Forall_impl; [exact Hns|].
      intros m. apply stamped_later. lia.
  - specialize (IH k Hns).
    destruct (updated i updates k ns) as [ns' k'].
    cbn [fst] in *. now constructor.
Qed.

(** C9, amended.  In every world reached from a first start by create,
    update and delete, every note has its [updatedAt] at or after its
    [createdAt], and an update leaves no note with an earlier
    [updatedAt] than it had. *)
Theorem stamps_ordered_without_import (w : World) :
  reachable w ->
  Forall (fun n => Date_le (createdAt n) (updatedAt n)) (notes w) /\
  forall (i : string) (updates : NoteUpdates) (w' : World),
    updateNote i updates w = Ok tt w' ->
    Forall (fun n => Date_le (createdAt n) (updatedAt n)) (notes w') /\
    Forall2 (fun n n' => Date_le (updatedAt n) (updatedAt n'))
            (notes w) (notes w').
Proof.
  intros Hw. destruct (reachable_invariant w Hw) as [_ Hstamped]. split.
  - eapply Forall_impl; [exact Hstamped|]. intros n. apply stamped_ordered.
  - intros i updates w' Hrun. split.
    + destruct (reachable_invariant w' (reach_update _ _ _ _ Hw Hrun))
        as [_ Hstamped'].
      eapply Forall_impl; [exact Hstamped'|]. intros n. apply stamped_ordered.
    + rewrite updateNote_run in Hrun. injection Hrun as <-.
      cbn [notes saved]. now apply updated_not_earlier.
Qed.

End Clock.

End StoreFacts.

(** * Export *)

Section ExportFacts.

Context `{Host}.

Import Json Date.

#[local] Arguments of_time : simpl never.

Lemma note_toJSON_plain (n : Note) : plain (note_toJSON n) = true.
Proof. destruct n as [[i|] [t|] [c|] l [ca|] [ua|]]; reflexivity. Qed.

Lemma parse_exported (ns : list Note) :
  parse (stringify_indented "" (JArr (map note_toJSON ns)))
  = Some (JArr (map note_toJSON ns)).
Proof.
  apply parse_stringify_indented. cbn [plain].
  apply forallb_forall. intros v Hv.
  apply in_map_iff in Hv as (n & <- & _). apply note_toJSON_plain.
Qed.

Lemma before_pad (w : nat) : forall (n : Z) (rest : string),
  0 <= n < 10 ^ Z.of_nat w ->
  before "T" (pad w n ++ rest) = pad w n ++ before "T" rest.
Proof.
  induction w as [|w IH]; intros n rest Hn; [reflexivity|].
  assert (Hp : 0 < 10 ^ Z.of_nat w) by (apply Z.pow_pos_nonneg; lia).
  assert (Hq : 0 <= n / 10 ^ Z.of_nat w < 10).
  { split; [apply Z.div_pos; lia|].
    apply Z.div_lt_upper_bound; [lia|].
    rewrite Nat2Z.inj_succ, Z.pow_succ_r in Hn by lia. lia. }
  assert (Hr : 0 <= n mod 10 ^ Z.of_nat w < 10 ^ Z.of_nat w)
    by (apply Z.mod_pos_bound; lia).
  cbn [pad String.append before].
  rewrite IH by exact Hr.
  destruct (Ascii.eqb_spec (chr (48 + n / 10 ^ Z.of_nat w)) "T") as [HT|_];
    [|reflexivity].
  apply (f_equal code) in HT. rewrite code_chr in HT by lia.
  change (code "T") with 84 in HT. lia.
Qed.

Lemma before_iso_year (y : Z) (rest : string) :
  -999999 <= y <= 999999 ->
  before "T" (iso_year y ++ rest) = iso_year y ++ before "T" rest.
Proof.
  intros Hy. unfold iso_year.
  destruct ((0 <=? y) && (y <=? 9999)) eqn:Hsmall.
  - apply andb_true_iff in Hsmall as [H0 H1].
    apply Z.leb_le in H0. apply Z.leb_le in H1.
    apply before_pad. simpl. lia.
  - destruct (y <? 0) eqn:Hneg.
    + apply Z.ltb_lt in Hneg. cbn [String.append before Ascii.eqb Bool.eqb].
      rewrite before_pad by (simpl; lia). reflexivity.
    + apply Z.ltb_ge in Hneg. cbn [String.append before Ascii.eqb Bool.eqb].
      rewrite before_pad by (simpl; lia). reflexivity.
Qed.

(** [toISOString().split('T')[0]] is the calendar day. *)
Lemma before_T_iso_of_time (t : Z) :
  in_range t = true -> before "T" (iso_of_time t) = iso_date t.
Proof.
  intros Ht. unfold iso_of_time, iso_date.
  destruct (civil_from_days (t / ms_per_day)) as [[y m] d] eqn:Hc.
  pose proof (year_bound t y m d Ht Hc) as Hy.
  pose proof (civil_from_days_spec _ _ _ _ Hc) as (Hm & Hd & _ & _).
  assert (Hdim : days_in_month y m <= 31)
    by (unfold days_in_month;
        destruct (m =? 2), (is_leap y),
          ((m =? 4) || (m =? 6) || (m =? 9) || (m =? 11)); lia).
  rewrite before_iso_year by exact Hy.
  cbn [String.append before Ascii.eqb Bool.eqb].
  rewrite before_pad by (simpl; lia).
  cbn [String.append before Ascii.eqb Bool.eqb].
  rewrite before_pad by (simpl; lia).
  cbn [String.append before Ascii.eqb Bool.eqb].
  rewrite !append_empty. reflexivity.
Qed.


Lemma exportNotes_run (w : World) :
  in_range (clock (ticks w)) = true ->
  exportNotes w =
  Ok (Downloaded
        ("swift-notes-export-" ++ iso_date (clock (ticks w)) ++ ".json")
        (stringify_indented "" (JArr (map note_toJSON (notes w)))))
     (later w).
Proof.
  intros Ht. unfold exportNotes, bind at 1, getNotes.
  unfold bind at 1, new_Date, bind at 1, Date_now.
  unfold ret at 1. unfold of_time. rewrite Ht. cbn [toISOString].
  rewrite before_T_iso_of_time by exact Ht. reflexivity.
Qed.

Lemma midnight_in_range (t : Z) :
  in_range t = true -> in_range (t - t mod ms_per_day) = true.
Proof.
  unfold in_range, max_time, ms_per_day. intros Ht.
  apply andb_true_iff in Ht as [Hlo Hhi].
  apply Z.leb_le in Hlo. apply Z.leb_le in Hhi.
  pose proof (Z.div_mod t 86400000). pose proof (Z.mod_pos_bound t 86400000).
  apply andb_true_iff. split; apply Z.leb_le; [|lia].
  assert (-100000000 <= t / 86400000); [|lia].
  apply Z.div_le_lower_bound; lia.
Qed.

Lemma iso_of_midnight (t : Z) :
  iso_of_time (t - t mod ms_per_day) = iso_date t ++ "T00:00:00.000Z".
Proof.
  unfold iso_of_time, iso_date.
  assert (Hd : (t - t mod ms_per_day) / ms_per_day = t / ms_per_day).
  { unfold ms_per_day.
    pose proof (Z.div_mod t 86400000 ltac:(lia)).
    replace (t - t mod 86400000) with (t / 86400000 * 86400000) by lia.
    apply Z.div_mul. lia. }
  assert (Hm : (t - t mod ms_per_day) mod ms_per_day = 0).
  { unfold ms_per_day.
    pose proof (Z.div_mod t 86400000 ltac:(lia)).
    replace (t - t mod 86400000) with (t / 86400000 * 86400000) by lia.
    apply Z.mod_mul. lia. }
  rewrite Hd, Hm.
  destruct (civil_from_days (t / ms_per_day)) as [[y m] d].
  rewrite !append_assoc. reflexivity.
Qed.

(** X1. [exportNotes] hands the browser the indented JSON text of the
    collection under the name [swift-notes-export-<day>.json], where the
    day is the calendar day of the clock's reading in universal time:
    read as a date it is the midnight before that reading.  On a clock
    outside the time values [toISOString] throws and nothing is handed
    over.  Either way the collection and storage stay as they are. *)
Theorem export_is_named_by_the_day (w : World) :
  let t := clock (ticks w) in
  (in_range t = true ->
   exportNotes w =
   Ok (Downloaded ("swift-notes-export-" ++ iso_date t ++ ".json")
                  (stringify_indented "" (JArr (map note_toJSON (notes w)))))
      (later w) /\
   Date_of_string (iso_date t ++ "T00:00:00.000Z")
   = DateAt (t - t mod ms_per_day) /\
   t - t mod ms_per_day <= t < t - t mod ms_per_day + ms_per_day) /\
  (in_range t = false -> exportNotes w = Ok RangeError (later w)).
Proof.
  intros t. split.
  - intros Ht. split; [now apply exportNotes_run|]. split.
    + unfold Date_of_string, Date_parse.
      rewrite <- iso_of_midnight, parse_iso_of_time
        by (now apply midnight_in_range).
      unfold of_time. now rewrite midnight_in_range.
    + pose proof (Z.mod_pos_bound t ms_per_day ltac:(reflexivity)). lia.
  - intros Ht. unfold exportNotes, bind at 1, getNotes.
    unfold bind at 1, new_Date, bind at 1, Date_now.
    unfold ret at 1. unfold of_time. fold t. rewrite Ht. reflexivity.
Qed.

Lemma iso_of_time_not_empty (t : Z) : String.eqb (iso_of_time t) "" = false.
Proof.
  unfold iso_of_time.
  destruct (civil_from_days (t / ms_per_day)) as [[y m] d].
  unfold iso_year.
  destruct ((0 <=? y) && (y <=? 9999)); [reflexivity|].
  destruct (y <? 0); reflexivity.
Qed.

(** The import handler reads a complete note back from its record as
    it is, without the clock. *)
Lemma normalize_complete (n : Note) (w : World) :
  complete n -> normalize (note_toJSON n) w = Ok n w.
Proof.
  intros ((i & Hi & Hine) & Hl & (c & Hc & Hcr) & (u & Hu & Hur)).
  unfold normalize. rewrite decode_note_toJSON.
  cbn [r_id r_title r_content r_language r_createdAt r_updatedAt].
  rewrite Hi, Hc, Hu. cbn [raw_of_date Date_of_raw_or_now].
  rewrite !iso_of_time_not_empty.
  apply String.eqb_neq in Hine. rewrite Hine.
  unfold Date_of_string, Date_parse. rewrite !parse_iso_of_time by assumption.
  unfold of_time. rewrite Hcr, Hur.
  unfold or_else. apply String.eqb_neq in Hl. rewrite Hl.
  destruct n as [ni nt nc nl nca nua]. cbn in *. subst. reflexivity.
Qed.

Lemma mapM_normalize_complete (ns : list Note) (w : World) :
  Forall complete ns -> mapM normalize (map note_toJSON ns) w = Ok ns w.
Proof.
  induction 1 as [|n ns Hn Hns IH]; [reflexivity|].
  cbn [map mapM]. unfold bind at 1. rewrite normalize_complete by exact Hn.
  unfold bind at 1. rewrite IH. reflexivity.
Qed.

Lemma filter_all {A} (P : A -> Prop) `{forall x, Decision (P x)}
    (l : list A) :
  Forall P l -> filter P l = l.
Proof.
  induction 1 as [|x l Hx Hl IH]; [reflexivity|].
  rewrite filter_cons, decide_True by exact Hx. now rewrite IH.
Qed.

Lemma filter_none {A} (P : A -> Prop) `{forall x, Decision (P x)}
    (l : list A) :
  Forall (fun x => ~ P x) l -> filter P l = [].
Proof.
  induction 1 as [|x l Hx Hl IH]; [reflexivity|].
  now rewrite filter_cons, decide_False by exact Hx.
Qed.

(** X2. An export file is read back by the import as it was written:
    every note of the exporting collection comes back field by field,
    timestamps to the millisecond, provided the notes are complete.
    Imported into a store, the notes whose ids that store does not have
    are put in front of its collection; into an empty collection, the
    result is the exported collection; into the exporting store itself,
    nothing is added. *)
Theorem import_reads_own_export (w v : World) (download dataStr : string)
    (w' : World) :
  Forall complete (notes w) ->
  exportNotes w = Ok (Downloaded download dataStr) w' ->
  handleFileChange dataStr v =
    Ok (Imported (length (notes w)))
       (saved v (filter (fun n => id n ∉ (id <$> notes v)) (notes w)
                   ++ notes v)%list (ticks v)) /\
  (notes v = [] ->
   handleFileChange dataStr v =
     Ok (Imported (length (notes w))) (saved v (notes w) (ticks v))) /\
  handleFileChange dataStr w' =
    Ok (Imported (length (notes w))) (saved w' (notes w) (ticks w')).
Proof.
  intros Hns Hexport.
  assert (HdataStr : dataStr
                     = stringify_indented "" (JArr (map note_toJSON (notes w)))
                     /\ notes w' = notes w).
  { revert Hexport. unfold exportNotes, bind at 1, getNotes.
    unfold bind at 1, new_Date, bind at 1, Date_now. unfold ret at 1.
    destruct (toISOString (of_time (clock (ticks w)))); unfold ret;
      intros [= <- <- <-] || intros [=]; split; reflexivity. }
  destruct HdataStr as [-> Hw'].
  assert (Himport : forall u,
    handleFileChange
      (stringify_indented "" (JArr (map note_toJSON (notes w)))) u =
    Ok (Imported (length (notes w)))
       (saved u (filter (fun n => id n ∉ (id <$> notes u)) (notes w)
                   ++ notes u)%list (ticks u))).
  { intros u. unfold handleFileChange, try_catch.
    rewrite parse_exported. unfold bind at 1.
    rewrite mapM_normalize_complete by exact Hns.
    unfold bind at 1, handleImportNotes.
    rewrite importNotes_run, filter_fresh_id. reflexivity. }
  split; [apply Himport|]. split.
  - intros Hv. rewrite Himport, Hv, app_nil_r. do 2 f_equal.
    apply filter_all, Forall_forall. intros n _. cbn. apply not_elem_of_nil.
  - rewrite Himport, Hw'. do 2 f_equal.
    rewrite filter_none; [reflexivity|].
    apply Forall_forall. intros n Hn Hnot. apply Hnot.
    now apply list_elem_of_fmap_2.
Qed.

End ExportFacts.


(** * The store at its edges *)

Section StoreEdges.

Context `{Host}.

Import Json Date.

#[local] Arguments JSON_stringify : simpl never.
#[local] Arguments of_time : simpl never.
#[local] Arguments toString : simpl never.

Lemma note_shaped_not_null (v : json) : note_shaped v -> is_null v = false.
Proof. intros [r Hr]. now destruct v. Qed.

Lemma mapM_revive_null (records : list json) (w : World) :
  Forall (fun v => v = JNull \/ note_shaped v) records ->
  if existsb is_null records
  then mapM revive records w = Throws TypeError w
  else exists ns, mapM revive records w = Ok ns w /\
                  Forall2 read_from records ns.
Proof.
  induction 1 as [|v records [->|Hv] _ IH].
  - exists []. split; [reflexivity | constructor].
  - reflexivity.
  - cbn [existsb mapM]. rewrite (note_shaped_not_null v Hv). cbn [orb].
    destruct (revive_read v w Hv) as (n & Hn & Hread & _).
    destruct (existsb is_null records).
    + unfold bind at 1. rewrite Hn. unfold bind at 1. now rewrite IH.
    + destruct IH as (ns & Hrun & Hns). exists (n :: ns).
      unfold bind at 1. rewrite Hn. unfold bind at 1. rewrite Hrun.
      split; [reflexivity | now constructor].
Qed.

(** X3. When storage holds a text under the key, the mount effect only
    reads.  If the text is no JSON it throws the [SyntaxError] of
    [JSON.parse], and if it is JSON but no array, a [TypeError]; nothing
    has changed then.  If it is an array of records that are [null] or
    of note shape, then with a [null] among them the effect throws a
    [TypeError] and nothing has changed, and otherwise it succeeds: the
    collection has one note for each record, in order, made of what the
    record carries, while storage and the oracle counters are as
    before.  No welcome note is made in any case. *)
Theorem mount_on_stored_text_only_reads (w : World) (text : string) :
  localStorage w !! STORAGE_KEY = Some text -> text <> "" ->
  (parse text = None -> useNotes_effect w = Throws SyntaxError w) /\
  (forall v, parse text = Some v -> (forall records, v <> JArr records) ->
             useNotes_effect w = Throws TypeError w) /\
  (forall records,
     parse text = Some (JArr records) ->
     Forall (fun v => v = JNull \/ note_shaped v) records ->
     if existsb is_null records
     then useNotes_effect w = Throws TypeError w
     else exists ns,
            useNotes_effect w
            = Ok tt {| notes := ns; localStorage := localStorage w;
                       ticks := ticks w; draws := draws w |} /\
            Forall2 read_from records ns).
Proof.
  intros Hw Htext.
  assert (Heffect : useNotes_effect w = adopt text w).
  { unfold useNotes_effect, bind at 1, getItem. rewrite Hw.
    apply String.eqb_neq in Htext. now rewrite Htext. }
  rewrite Heffect. unfold adopt. split; [|split].
  - now intros ->.
  - intros v -> Hv. destruct v as [|b|l|s|records|ms]; try reflexivity.
    now destruct (Hv records).
  - intros records -> Hrecords.
    pose proof (mapM_revive_null records w Hrecords) as Hrun.
    destruct (existsb is_null records).
    + unfold bind at 1. now rewrite Hrun.
    + destruct Hrun as (ns & Hrun & Hns). exists ns.
      unfold bind at 1. rewrite Hrun. split; [reflexivity | exact Hns].
Qed.

Lemma normalize_store (v : json) (w : World) :
  match normalize v w with
  | Ok _ w' | Throws _ w' =>
    notes w' = notes w /\ localStorage w' = localStorage w
  | Unmodelled => True
  end.
Proof.
  destruct (normalize v w) as [n w'|e w'|] eqn:Hrun; [| |exact I].
  - now apply normalize_keeps_store in Hrun.
  - revert Hrun. unfold normalize.
    destruct (decode v) as [[ri rt rc rl rca rua]| |]; [| |discriminate].
    + cbn [r_id r_title r_content r_language r_createdAt r_updatedAt].
      unfold Date_of_raw_or_now.
      destruct ri as [s|]; [destruct (String.eqb s "")|];
        (destruct rca as [| |c]; [| |destruct (String.eqb c "")]);
        (destruct rua as [| |u]; [| |destruct (String.eqb u "")]);
        cbv [bind fresh_id new_Date Date_now Math_random ret];
        discriminate.
    + intros [= _ <-]. split; reflexivity.
Qed.

Lemma mapM_normalize_store (records : list json) : forall (w : World),
  match mapM normalize records w with
  | Ok _ w' | Throws _ w' =>
    notes w' = notes w /\ localStorage w' = localStorage w
  | Unmodelled => True
  end.
Proof.
  induction records as [|v records IH]; intros w; [cbn; auto|].
  cbn [mapM]. unfold bind at 1.
  pose proof (normalize_store v w) as Hv.
  destruct (normalize v w) as [n w1|e w1|]; [|exact Hv|exact I].
  unfold bind at 1. specialize (IH w1).
  destruct (mapM normalize records w1) as [ns w2|e w2|]; [| |exact I];
    cbn; destruct Hv, IH; split; congruence.
Qed.

Lemma handleFileChange_outcome (content : string) (w : World) :
  match handleFileChange content w with
  | Ok (Imported count) w' =>
    localStorage w'
    = <[STORAGE_KEY := JSON_stringify (notes w')]> (localStorage w)
  | Ok Ignored w' => w' = w
  | Ok Alerted w' => notes w' = notes w /\ localStorage w' = localStorage w
  | Throws _ _ => False
  | Unmodelled => True
  end.
Proof.
  unfold handleFileChange, try_catch.
  destruct (parse content) as [v|]; [|cbn; auto].
  destruct v as [|b|l|s|records|ms]; try reflexivity.
  unfold bind at 1.
  pose proof (mapM_normalize_store records w) as Hrecords.
  destruct (mapM normalize records w) as [ns w1|e w1|];
    [|exact Hrecords|exact I].
  unfold bind at 1, handleImportNotes. rewrite importNotes_run.
  cbn. destruct Hrecords as [_ ->]. reflexivity.
Qed.

Lemma mapM_normalize_null (records : list json) :
  Forall (fun v => v = JNull \/ note_shaped v) records -> JNull ∈ records ->
  forall (w : World),
  exists w', mapM normalize records w = Throws TypeError w' /\
             notes w' = notes w /\ localStorage w' = localStorage w.
Proof.
  induction 1 as [|v records [->|Hv] _ IH]; intros Hnull w.
  - now apply elem_of_nil in Hnull.
  - exists w. split; [reflexivity|]. split; reflexivity.
  - apply elem_of_cons in Hnull as [<-|Hnull];
      [now apply note_shaped_not_null in Hv|].
    destruct (normalize_prepared v w Hv) as (n & w1 & Hn & _ & Hnotes & Hstore & _).
    destruct (IH Hnull w1) as (w' & Hrun & Hnotes' & Hstore').
    exists w'. cbn [mapM]. unfold bind at 1. rewrite Hn.
    unfold bind at 1. rewrite Hrun. split; [reflexivity|].
    split; congruence.
Qed.

(** X4. Three ways in which a file fails to be imported, each leaving
    the collection and storage as they were, whatever the collection of
    the render in which the file was chosen.  If its text is no JSON,
    the [onload] callback ends in the alert with nothing changed at all;
    if it is JSON but no array, the file is ignored, again with nothing
    changed; and if it is an array of records that are [null] or of
    note shape, with a [null] among them, the callback ends in the alert
    with the collection and storage as they were, also when records
    before the [null] had been prepared (only the clock and the random
    numbers have been read). *)
Theorem failed_import_changes_nothing (seen : list Note) (content : string)
    (w : World) :
  (parse content = None -> onload seen content w = Ok Alerted w) /\
  (forall v, parse content = Some v -> (forall records, v <> JArr records) ->
             onload seen content w = Ok Ignored w) /\
  (forall records,
     parse content = Some (JArr records) ->
     Forall (fun v => v = JNull \/ note_shaped v) records ->
     JNull ∈ records ->
     exists w', onload seen content w = Ok Alerted w' /\
                notes w' = notes w /\ localStorage w' = localStorage w).
Proof.
  unfold onload, try_catch. split; [|split].
  - now intros ->.
  - intros v -> Hv. destruct v as [|b|l|s|records|ms]; try reflexivity.
    now destruct (Hv records).
  - intros records -> Hrecords Hnull.
    destruct (mapM_normalize_null records Hrecords Hnull w)
      as (w' & Hrun & Hnotes & Hstore).
    exists w'. unfold bind at 1. rewrite Hrun. repeat split; assumption.
Qed.

(** One operation changes neither the collection nor storage, or it
    writes the text of the new collection under the key. *)
Lemma run_writes (o : operation) (w w' : World) :
  run o w = Ok tt w' ->
  (notes w' = notes w /\ localStorage w' = localStorage w) \/
  localStorage w'
  = <[STORAGE_KEY := JSON_stringify (notes w')]> (localStorage w).
Proof.
  destruct o as [|i updates|i|importedNotes|content|]; cbn [run].
  - unfold bind. rewrite createNote_run. cbv zeta. intros [= <-]. now right.
  - rewrite updateNote_run. intros [= <-]. now right.
  - rewrite deleteNote_run. intros [= <-]. now right.
  - rewrite importNotes_run. intros [= <-]. now right.
  - unfold bind. pose proof (handleFileChange_outcome content w) as Hrun.
    destruct (handleFileChange content w) as [[count| |] w1|e w1|];
      try discriminate; intros [= <-].
    + now right.
    + subst w1. now left.
    + now left.
  - unfold bind at 1, exportNotes, bind at 1, getNotes.
    unfold bind at 1, new_Date, bind at 1, Date_now. unfold ret at 1.
    destruct (toISOString _); intros [= <-]; now left.
Qed.

(** X5. Over any sequence of operations of the store (create, update,
    delete, import of notes or of a file, export) storage follows the
    collection: if it held the text of the collection before, it holds
    the text of the collection afterwards; and no key of storage but
    the store's own is ever written. *)
Theorem storage_follows_collection (os : list operation) (w w' : World) :
  runs os w = Ok tt w' ->
  (mirrored w -> mirrored w') /\
  (forall k, k <> STORAGE_KEY -> localStorage w' !! k = localStorage w !! k).
Proof.
  revert w. induction os as [|o os IH]; intros w.
  - intros [= <-]. split; auto.
  - cbn [runs]. intros Hrun. apply bind_Ok in Hrun as ([] & w1 & Ho & Hos).
    apply IH in Hos as [Hmirror Hframe]. apply run_writes in Ho.
    split.
    + intros Hw. apply Hmirror. unfold mirrored in *.
      destruct Ho as [[-> ->]| ->]; [exact Hw | apply lookup_insert_eq].
    + intros k Hk. rewrite Hframe by exact Hk.
      destruct Ho as [[_ ->]| ->]; [reflexivity|].
      now apply lookup_insert_ne.
Qed.

(** X6. Notes with distinct ids keep distinct ids under [updateNote],
    under [deleteNote], and under [importNotes] of notes whose ids
    differ from each other; under [createNote] they do exactly when no
    note has the decimal text of the clock's reading as its id. *)
Theorem distinct_ids_stay_distinct (w : World) :
  NoDup (id <$> notes w) ->
  (forall i updates w',
     updateNote i updates w = Ok tt w' -> NoDup (id <$> notes w')) /\
  (forall i w', deleteNote i w = Ok tt w' -> NoDup (id <$> notes w')) /\
  (forall incoming w',
     NoDup (id <$> incoming) ->
     importNotes incoming w = Ok tt w' -> NoDup (id <$> notes w')) /\
  (forall n w',
     createNote w = Ok n w' ->
     NoDup (id <$> notes w') <->
     Some (toString (clock (ticks w))) ∉ (id <$> notes w)).
Proof.
  intros Hw. destruct (distinct_ids_kept w Hw) as (Hu & Hd & Hi).
  split; [exact Hu|]. split; [exact Hd|]. split; [exact Hi|].
  intros n w'. rewrite createNote_run. cbv zeta. intros [= <- <-].
  cbn [notes saved]. rewrite fmap_cons. cbn [id]. split.
  - intros Hnew. now apply NoDup_cons in Hnew as [Hnew _].
  - intros Hnew. now apply NoDup_cons.
Qed.

Lemma reloaded_same (n : Note) :
  reloaded n = n <->
  language n <> "" /\ createdAt n <> InvalidDate /\ updatedAt n <> InvalidDate.
Proof.
  destruct n as [ni nt nc nl [ca|] [ua|]]; unfold reloaded, or_else;
    cbn [id title content language createdAt updatedAt redated].
  all: destruct (String.eqb_spec nl "") as [->|Hl].
  all: split; [intros [=]; try (repeat split; congruence)
              |intros (? & ? & ?); try congruence].
Qed.

(** X7. Whatever the collection, imported notes included: what
    [saveNotes] writes, the mount effect reads back note by note and in
    order, with an empty language read as plaintext and an invalid date
    as the epoch, and nothing else changed; a note comes back as it was
    exactly when its language is not empty and neither date invalid. *)
Theorem saved_collection_is_read_back (ns : list Note) (w : World) :
  Forall (fun n => valid_stamp (createdAt n) /\ valid_stamp (updatedAt n)) ns ->
  (saveNotes ns ;; useNotes_effect) w
  = Ok tt {| notes := reloaded <$> ns;
             localStorage := <[STORAGE_KEY := JSON_stringify ns]>
                               (localStorage w);
             ticks := ticks w; draws := draws w |} /\
  (forall n, reloaded n = n <->
             language n <> "" /\ createdAt n <> InvalidDate /\
             updatedAt n <> InvalidDate).
Proof.
  intros Hns. split; [|exact reloaded_same].
  change ((saveNotes ns ;; useNotes_effect) w)
    with (useNotes_effect (saved w ns (ticks w))).
  rewrite (load_after_save _ ns);
    [reflexivity | apply lookup_insert_eq | exact Hns].
Qed.


Lemma toString_not_empty (n : Z) : toString n <> "".
Proof.
  unfold toString. destruct (Z.to_int n) as [u|u]; cbn.
  - destruct u; discriminate.
  - discriminate.
Qed.

Lemma append_not_empty (a b : string) : a <> "" -> a ++ b <> "".
Proof. destruct a; [congruence | discriminate]. Qed.

(** The texts of a record go into the note as they are. *)
Lemma normalize_texts (v : json) (w : World) (n : Note) (w' : World) :
  normalize v w = Ok n w' ->
  (forall i, stored_text "id" v = Some i -> i <> "" -> id n = Some i) /\
  title n = stored_text "title" v /\ content n = stored_text "content" v.
Proof.
  unfold normalize. destruct (decode v) as [r| |] eqn:Hr; [|discriminate..].
  apply decode_texts in Hr as (Hi & Ht & Hc).
  intros Hrun.
  apply bind_Ok in Hrun as (i & w1 & Hid & Hrun).
  apply bind_Ok in Hrun as (c & w2 & _ & Hrun).
  apply bind_Ok in Hrun as (u & w3 & _ & Hrun).
  injection Hrun as <- _. cbn [id title content].
  split; [|split; assumption].
  intros j Hj Hne. rewrite <- Hi in Hj. rewrite Hj in Hid.
  apply String.eqb_neq in Hne. rewrite Hne in Hid. now injection Hid as <- _.
Qed.

(** X8. What the import makes of a record of note shape.  The id is
    the one that the record carries, or else, when it carries none or
    the empty one, the text of the clock's reading followed by the next
    random number.  Title and content are those that the record
    carries, missing when it has none.  The language is the one that it
    carries, or plaintext when it has none or the empty one.  Each of
    the two dates is the one that the record carries, as [new Date]
    reads its text, or else, when it has none, [null] or the empty
    text, the next reading of the clock.  Neither the id nor the
    language is ever empty, and nothing changes but the counters of the
    clock and of the random numbers. *)
Theorem import_fills_id_and_language_only (v : json) (w : World) :
  note_shaped v ->
  let fresh := missing (stored_text "id" v) in
  let a := if fresh then 1%nat else 0%nat in
  let b := if undated (stored_date "createdAt" v) then 1%nat else 0%nat in
  let c := if undated (stored_date "updatedAt" v) then 1%nat else 0%nat in
  exists n,
    normalize v w
    = Ok n {| notes := notes w; localStorage := localStorage w;
              ticks := c + (b + (a + ticks w)); draws := a + draws w |} /\
    id n = Some (if fresh
                 then toString (clock (ticks w)) ++ random (draws w)
                 else default "" (stored_text "id" v)) /\
    title n = stored_text "title" v /\ content n = stored_text "content" v /\
    language n = or_else (stored_language v) "plaintext" /\
    createdAt n = (if undated (stored_date "createdAt" v)
                   then of_time (clock (a + ticks w))
                   else Date_of_raw (stored_date "createdAt" v)) /\
    updatedAt n = (if undated (stored_date "updatedAt" v)
                   then of_time (clock (b + (a + ticks w)))
                   else Date_of_raw (stored_date "updatedAt" v)) /\
    (exists i, id n = Some i /\ i <> "") /\ language n <> "".
Proof.
  intros Hv. rewrite (normalize_run v w Hv). cbv zeta.
  eexists. split; [reflexivity|].
  cbn [id title content language createdAt updatedAt].
  do 6 (split; [reflexivity|]). split.
  - eexists. split; [reflexivity|]. unfold missing.
    destruct (stored_text "id" v) as [i|];
      [|apply append_not_empty, toString_not_empty].
    destruct (String.eqb_spec i "");
      [apply append_not_empty, toString_not_empty | assumption].
  - apply or_else_plaintext.
Qed.

(** A record that carries an id is prepared alike in every world, as
    far as the id goes. *)
Lemma normalize_id (v : json) (w : World) (n : Note) (w' : World) :
  carries_id v -> normalize v w = Ok n w' ->
  forall u, exists n' u', normalize v u = Ok n' u' /\ id n' = id n.
Proof.
  intros (i & Hi & Hne). unfold normalize.
  destruct (decode v) as [[ri rt rc rl rca rua]| |] eqn:Hr; [|discriminate..].
  apply decode_texts in Hr as (Hri & _ & _). cbn [r_id] in Hri.
  rewrite Hi in Hri. subst ri.
  cbn [r_id r_title r_content r_language r_createdAt r_updatedAt].
  apply String.eqb_neq in Hne. rewrite Hne.
  unfold Date_of_raw_or_now. intros Hrun u.
  destruct rca as [| |c]; [| |destruct (String.eqb c "")];
    (destruct rua as [| |x]; [| |destruct (String.eqb x "")]);
    cbv [bind fresh_id new_Date Date_now Math_random ret] in Hrun |- *;
    injection Hrun as <- _; eexists; eexists; (split; [reflexivity|]);
    reflexivity.
Qed.

Lemma mapM_normalize_ids (records : list json) :
  Forall carries_id records ->
  forall w ns w', mapM normalize records w = Ok ns w' ->
  forall u, exists ns' u',
    mapM normalize records u = Ok ns' u' /\ (id <$> ns') = (id <$> ns).
Proof.
  induction 1 as [|v records Hv Hrecords IH]; intros w ns w' Hrun u.
  - injection Hrun as <- _. exists [], u. split; reflexivity.
  - cbn [mapM] in Hrun |- *.
    apply bind_Ok in Hrun as (n & w1 & Hn & Hrun).
    apply bind_Ok in Hrun as (ns1 & w2 & Hns & Hrun).
    injection Hrun as <- _.
    destruct (normalize_id v w n w1 Hv Hn u) as (n' & u1 & Hn' & Hid).
    destruct (IH w1 ns1 w2 Hns u1) as (ns' & u2 & Hns' & Hids).
    exists (n' :: ns'), u2. split.
    + unfold bind at 1. rewrite Hn'. unfold bind at 1. rewrite Hns'.
      reflexivity.
    + rewrite !fmap_cons. congruence.
Qed.

(** X9. Importing the same file once more adds nothing, provided every
    record of the file carries an id: the second import reports the
    same number of notes and leaves the collection and storage as the
    first import left them. *)
Theorem second_import_adds_nothing (content : string) (records : list json)
    (w : World) (count : nat) (w1 : World) :
  parse content = Some (JArr records) -> Forall carries_id records ->
  handleFileChange content w = Ok (Imported count) w1 ->
  exists w2, handleFileChange content w1 = Ok (Imported count) w2 /\
             notes w2 = notes w1 /\ localStorage w2 = localStorage w1.
Proof.
  intros Hparse Hids. unfold handleFileChange, try_catch. rewrite Hparse.
  unfold bind at 1.
  destruct (mapM normalize records w) as [ns wa| |] eqn:Hfirst;
    [|discriminate..].
  unfold bind at 1, handleImportNotes. rewrite importNotes_run, filter_fresh_id.
  intros [= <- <-].
  pose proof (mapM_normalize_keeps_store _ _ _ _ Hfirst) as [Hna Hsa].
  set (w1 := saved wa _ (ticks wa)).
  destruct (mapM_normalize_ids records Hids w ns wa Hfirst w1)
    as (ns' & wb & Hsecond & Hsame).
  pose proof (mapM_normalize_keeps_store _ _ _ _ Hsecond) as [Hnb Hsb].
  unfold bind at 1. rewrite Hsecond.
  unfold bind at 1. rewrite importNotes_run, filter_fresh_id.
  assert (Hnone : filter (fun n => id n ∉ (id <$> notes wb)) ns' = []).
  { apply filter_none, Forall_forall. intros n' Hn' Hnew. apply Hnew.
    apply (list_elem_of_fmap_2 id) in Hn'. rewrite Hsame in Hn'.
    apply list_elem_of_fmap in Hn' as (n & -> & Hn).
    rewrite Hnb. subst w1. cbn [notes saved]. rewrite fmap_app.
    apply elem_of_app.
    destruct (decide (id n ∈ id <$> notes wa)) as [Hold|Hold];
      [now right|left].
    apply list_elem_of_fmap_2. now apply list_elem_of_filter. }
  rewrite Hnone. cbn [app].
  eexists. split; [|split].
  - f_equal. f_equal. apply (f_equal length) in Hsame.
    now rewrite !length_fmap in Hsame.
  - cbn [notes saved]. exact Hnb.
  - cbn [localStorage saved]. rewrite Hnb, Hsb. subst w1.
    cbn [localStorage saved notes]. apply insert_insert_eq.
Qed.


(** X20. The welcome note is made exactly when storage has nothing
    under the key, or the empty text: the mount then puts the one note
    with id 1 in the collection, stamped with two readings of the
    clock, and writes it to storage, whatever the collection was.  A
    collection that was emptied and saved is not such a case: the mount
    reads it back empty, without a welcome note. *)
Theorem mount_seeds_when_nothing_is_stored (w : World) :
  (localStorage w !! STORAGE_KEY = None \/
   localStorage w !! STORAGE_KEY = Some "" ->
   exists welcomeNote,
     useNotes_effect w = Ok tt (saved w [welcomeNote] (S (S (ticks w)))) /\
     id welcomeNote = Some "1" /\
     title welcomeNote = Some "Welcome to Swift Notes" /\
     language welcomeNote = "plaintext" /\
     createdAt welcomeNote = of_time (clock (ticks w)) /\
     updatedAt welcomeNote = of_time (clock (S (ticks w)))) /\
  (forall k, useNotes_effect (saved w [] k) = Ok tt (saved w [] k)).
Proof.
  split.
  - intros Hw.
    exists {| id := Some "1"; title := Some "Welcome to Swift Notes";
              content := Some welcome_content; language := "plaintext";
              createdAt := of_time (clock (ticks w));
              updatedAt := of_time (clock (S (ticks w))) |}.
    split; [|repeat split].
    unfold useNotes_effect, bind at 1, getItem.
    destruct Hw as [-> | ->]; reflexivity.
  - intros k. rewrite (load_after_save _ []);
      [reflexivity | apply lookup_insert_eq | constructor].
Qed.

End StoreEdges.


(** * The sidebar *)

Section SidebarFacts.

Import Json.

Lemma prefix_spec (q t : string) :
  String.prefix q t = true <-> exists post, t = q ++ post.
Proof.
  revert t. induction q as [|c q IH]; intros t.
  - split; [cbn; eauto | intros _; destruct t; reflexivity].
  - destruct t as [|d t]; cbn [String.prefix String.append].
    + split; [discriminate | intros [post [=]]].
    + destruct (Ascii.ascii_dec c d) as [<-|Hcd].
      * rewrite IH. split; intros [post Hp]; exists post; congruence.
      * split; [discriminate | intros [post Hp]].
        injection Hp as Hc _. congruence.
Qed.

(** [includes]: the query occurs somewhere in the text. *)
Lemma includes_spec (t q : string) :
  includes t q = true <-> exists pre post, t = pre ++ q ++ post.
Proof.
  induction t as [|c t IH].
  - cbn [includes]. rewrite orb_false_r, prefix_spec. split.
    + intros [post Hp]. exists "", post. exact Hp.
    + intros (pre & post & Hp). destruct pre; [|discriminate].
      exists post. exact Hp.
  - cbn [includes]. rewrite orb_true_iff, prefix_spec, IH. split.
    + intros [[post Hp]|(pre & post & Hp)].
      * exists "", post. exact Hp.
      * exists (String c pre), post. cbn [String.append]. now rewrite Hp.
    + intros (pre & post & Hp). destruct pre as [|d pre].
      * left. exists post. exact Hp.
      * right. exists pre, post. now injection Hp.
Qed.

Lemma toLowerCase_append (a b : string) :
  toLowerCase (a ++ b) = toLowerCase a ++ toLowerCase b.
Proof. induction a as [|c a IH]; cbn; [reflexivity | now rewrite IH]. Qed.

Lemma includes_part (t a q b : string) :
  includes t (a ++ q ++ b) = true -> includes t q = true.
Proof.
  rewrite !includes_spec. intros (pre & post & ->).
  exists (pre ++ a), (b ++ post). now rewrite !append_assoc.
Qed.

Lemma includes_empty (t : string) : includes t "" = true.
Proof. apply includes_spec. now exists "", t. Qed.

Lemma matches_None (q : string) (n : Note) :
  matches q n = None <->
  title n = None \/ (title_misses q n /\ content n = None).
Proof.
  unfold matches, title_misses. destruct (title n) as [t|]; cbn.
  - destruct (includes (toLowerCase t) (toLowerCase q)) eqn:Ht.
    + split; [discriminate|]. intros [[=]|[(t' & [= <-] & Hm) _]]. congruence.
    + destruct (content n); cbn.
      * split; [discriminate|]. intros [[=]|[_ [=]]].
      * split; [|reflexivity]. intros _. right. eauto.
  - split; [now left | reflexivity].
Qed.

Lemma filteredNotes_None (ns : list Note) (q : string) :
  filteredNotes ns q = None <->
  Exists (fun n => title n = None \/ (title_misses q n /\ content n = None))
         ns.
Proof.
  induction ns as [|n ns IH]; cbn [filteredNotes].
  - split; [discriminate | intros Hex; inversion Hex].
  - rewrite Exists_cons, <- IH, <- matches_None.
    destruct (matches q n) as [keep|]; cbn; [|tauto].
    destruct (filteredNotes ns q); cbn.
    + split; [discriminate | intros [[=]|[=]]].
    + tauto.
Qed.

(** X10. On ASCII text, the list of the sidebar cannot be made (the
    filter throws a [TypeError]) exactly when some note has no title, or has a title
    without the query in it and no content; the content of a note whose
    title has the query is never looked at.  With the empty query every
    title matches, so the list is then the whole collection if every
    note has a title, and cannot be made otherwise. *)
Theorem list_fails_on_missing_text (ns : list Note) (q : string) :
  is_ascii q = true -> forallb ascii_note ns = true ->
  (filteredNotes ns q = None <->
   Exists (fun n => title n = None \/ (title_misses q n /\ content n = None))
          ns) /\
  (Forall (fun n => title n <> None) ns -> filteredNotes ns "" = Some ns) /\
  (Exists (fun n => title n = None) ns -> filteredNotes ns "" = None).
Proof.
  intros _ _. split; [|split].
  - apply filteredNotes_None.
  - induction 1 as [|n ns Hn Hns IH]; [reflexivity|].
    cbn [filteredNotes]. rewrite IH. unfold matches.
    destruct (title n) as [t|]; [|congruence]. cbn.
    now rewrite includes_empty.
  - induction 1 as [n ns Hn|n ns Hns IH]; cbn [filteredNotes].
    + unfold matches. now rewrite Hn.
    + rewrite IH. now destruct (matches "" n).
Qed.

Lemma matches_part (a q b : string) (n : Note) (keep : bool) :
  matches (a ++ q ++ b) n = Some keep ->
  exists keep', matches q n = Some keep' /\ (keep = true -> keep' = true).
Proof.
  unfold matches. destruct (title n) as [t|]; [|discriminate]. cbn.
  rewrite !toLowerCase_append.
  destruct (includes (toLowerCase t) _) eqn:Ht.
  - apply includes_part in Ht. rewrite Ht. eauto.
  - destruct (content n) as [c|]; [|discriminate]. cbn. intros [= <-].
    destruct (includes (toLowerCase t) (toLowerCase q)); [eauto|].
    eexists. split; [reflexivity|]. apply includes_part.
Qed.

(** X11. On ASCII text, typing more into the search field never brings
    a note back:
    when a longer query gives a list, the query it was grown from, at
    either end, gives one too, and the list of the longer query is a
    sublist of it, as both are of the collection, in its order. *)
Theorem longer_query_narrows_the_list (ns : list Note) (a q b : string)
    (l' : list Note) :
  is_ascii (a ++ q ++ b) = true -> forallb ascii_note ns = true ->
  filteredNotes ns (a ++ q ++ b) = Some l' ->
  exists l, filteredNotes ns q = Some l /\ sublist l' l /\ sublist l ns.
Proof.
  intros _ _. revert l'.
  induction ns as [|n ns IH]; intros l'; cbn [filteredNotes].
  - intros [= <-]. exists []. repeat split; constructor.
  - destruct (matches (a ++ q ++ b) n) as [keep|] eqn:Hn; [|discriminate].
    cbn. destruct (filteredNotes ns (a ++ q ++ b)) as [kept|]; [|discriminate].
    cbn. intros [= <-].
    destruct (IH kept eq_refl) as (l & -> & Hsub & Hl).
    apply matches_part in Hn as (keep' & -> & Hkeep). cbn.
    eexists. split; [reflexivity|].
    destruct keep, keep'; try (specialize (Hkeep eq_refl); discriminate);
      split;
      solve [now apply sublist_skip | now apply sublist_cons | assumption].
Qed.


Lemma length_before (c : ascii) (s : string) :
  (String.length (before c s) <= String.length s)%nat.
Proof.
  induction s as [|d s IH]; [reflexivity|]. cbn [before].
  destruct (d =? c)%char; cbn [String.length]; lia.
Qed.

Lemma before_free (c : ascii) (s : string) :
  ~ In c (list_ascii_of_string (before c s)).
Proof.
  induction s as [|d s IH]; [intros []|]. cbn [before].
  destruct (Ascii.eqb_spec d c) as [->|Hd]; [intros []|].
  cbn [list_ascii_of_string]. intros [Hc|Hc]; [congruence | contradiction].
Qed.

Lemma substring_all (n : nat) : forall s : string,
  (String.length s <= n)%nat -> substring 0 n s = s.
Proof.
  induction n as [|n IH]; intros [|c s] Hs; cbn in *; try reflexivity;
    [lia|]. rewrite IH by lia. reflexivity.
Qed.

Lemma length_substring (n : nat) : forall s : string,
  (String.length (substring 0 n s) <= n)%nat.
Proof.
  induction n as [|n IH]; intros [|c s]; cbn; try lia.
  specialize (IH s). lia.
Qed.

Lemma substring_chars (n : nat) (x : ascii) : forall s : string,
  In x (list_ascii_of_string (substring 0 n s)) ->
  In x (list_ascii_of_string s).
Proof.
  induction n as [|n IH]; intros [|c s]; cbn; try tauto.
  intros [Hx|Hx]; [now left | right; now apply IH].
Qed.

Lemma chars_append (a b : string) :
  list_ascii_of_string (a ++ b)
  = (list_ascii_of_string a ++ list_ascii_of_string b)%list.
Proof. induction a as [|c a IH]; cbn; [reflexivity | now rewrite IH]. Qed.

(** X12. On ASCII text, the preview of a note in the list is at most
    63 characters on one line.  For a content of at most 60 characters
    it is the first line of the content.  For a longer content it is
    the first 60 characters of the first line followed by three dots:
    the dots tell that the content is long, not that the line was cut,
    so a short first line of a long content is shown in full with the
    dots after it.  A note whose first line is empty is shown with
    "No content" when its content is short and with the dots alone when
    it is long. *)
Theorem preview_is_first_line_then_dots (text : string) :
  is_ascii text = true ->
  let line := before line_feed text in
  (String.length (getPreview text) <= 63)%nat /\
  ~ In line_feed (list_ascii_of_string (getPreview text)) /\
  ((String.length text <= 60)%nat -> getPreview text = line) /\
  ((60 < String.length text)%nat ->
   getPreview text = substring 0 60 line ++ "...") /\
  ((60 < String.length text)%nat -> (String.length line <= 60)%nat ->
   getPreview text = line ++ "...") /\
  (forall n, content n = Some text -> line = "" ->
     preview n = Some (if (60 <? String.length text)%nat then "..."
                       else "No content")).
Proof.
  intros _ line. unfold preview, getPreview. fold line.
  split; [|split; [|split; [|split; [|split]]]].
  - rewrite length_append. pose proof (length_substring 60 line).
    destruct (60 <? String.length text)%nat; cbn [String.length]; lia.
  - rewrite chars_append. intros Hin. apply in_app_or in Hin as [Hin|Hin].
    + apply substring_chars in Hin. now apply before_free in Hin.
    + destruct (60 <? String.length text)%nat; cbn in Hin;
        [|contradiction].
      destruct Hin as [Hc|[Hc|[Hc|[]]]]; discriminate.
  - intros Hshort. pose proof (length_before line_feed text).
    rewrite substring_all by (unfold line; lia).
    apply Nat.ltb_ge in Hshort. rewrite Hshort. apply append_empty.
  - intros Hlong. apply Nat.ltb_lt in Hlong. now rewrite Hlong.
  - intros Hlong Hline. apply Nat.ltb_lt in Hlong. rewrite Hlong.
    now rewrite substring_all.
  - intros n Hn Hline. rewrite Hn. cbn [mbind option_bind option_ret mret].
    fold line. rewrite Hline.
    now destruct (60 <? String.length text)%nat.
Qed.

End SidebarFacts.


(** * The dates of the sidebar *)

Section SidebarDateFacts.

Context `{Host}.

Import Date.

(** X22. [formatDate] goes by full periods of 24 hours between the
    date and the clock's reading, not by calendar days: it gives the
    time of day for a date less than 24 hours back, "Yesterday" for one
    between 24 and 48 hours back, the weekday for one between two and
    seven days back and also for every date after the reading, and
    month and day for one seven days back or more, as it does for the
    invalid date. *)
Theorem formatDate_goes_by_full_days (d : Z) (w : World) :
  let t := clock (ticks w) in
  (in_range t = true -> Z.abs (t - d) <= 2 ^ 53 ->
   exists f,
     formatDate (DateAt d) w = Ok f (later w) /\
     (f = TimeOfDay <-> 0 <= t - d < ms_per_day) /\
     (f = Yesterday <-> ms_per_day <= t - d < 2 * ms_per_day) /\
     (f = Weekday <->
      t - d < 0 \/ 2 * ms_per_day <= t - d < 7 * ms_per_day) /\
     (f = MonthAndDay <-> 7 * ms_per_day <= t - d)) /\
  formatDate InvalidDate w = Ok MonthAndDay (later w).
Proof.
  intros t. split.
  - intros Ht _. unfold formatDate, bind, new_Date, bind, Date_now, ret.
    fold t. unfold of_time. rewrite Ht. cbn [getTime]. cbv zeta.
    change (1000 * 60 * 60 * 24) with ms_per_day.
    eexists. split; [reflexivity|].
    unfold ms_per_day.
    pose proof (Z.div_mod (t - d) 86400000 ltac:(lia)) as Hdiv.
    pose proof (Z.mod_pos_bound (t - d) 86400000 ltac:(lia)) as Hmod.
    destruct ((t - d) / 86400000 =? 0) eqn:H0;
      [apply Z.eqb_eq in H0|apply Z.eqb_neq in H0].
    { repeat split; intros; try discriminate; lia. }
    destruct ((t - d) / 86400000 =? 1) eqn:H1;
      [apply Z.eqb_eq in H1|apply Z.eqb_neq in H1].
    { repeat split; intros; try discriminate; lia. }
    destruct ((t - d) / 86400000 <? 7) eqn:H7;
      [apply Z.ltb_lt in H7|apply Z.ltb_ge in H7].
    { repeat split; intros; try discriminate; lia. }
    repeat split; intros; try discriminate; lia.
  - unfold formatDate, bind, new_Date, bind, Date_now, ret.
    now destruct (getTime _).
Qed.

End SidebarDateFacts.

(** * Import and the list *)

Section ImportAndList.

Context `{Host}.

Lemma mapM_member {A B} (f : A -> M B) (l : list A) (a : A) :
  a ∈ l -> forall w bs w', mapM f l w = Ok bs w' ->
  exists b w1 w2, f a w1 = Ok b w2 /\ b ∈ bs.
Proof.
  induction 1 as [a l|a x l Ha IH]; intros w bs w' Hrun;
    cbn [mapM] in Hrun;
    apply bind_Ok in Hrun as (b & w1 & Hb & Hrun);
    apply bind_Ok in Hrun as (bs' & w2 & Hbs & Hrun);
    injection Hrun as <- _.
  - exists b, w, w1. split; [exact Hb | left].
  - destruct (IH _ _ _ Hbs) as (b' & u1 & u2 & Hb' & Hin).
    exists b', u1, u2. split; [exact Hb' | now right].
Qed.

(** X21. An imported record without a title breaks the list: when a
    file is imported in which some record has no title and an id that
    the collection does not have yet, the list of the sidebar cannot
    be made any more, whatever the query. *)
Theorem import_without_title_breaks_the_list (content : string)
    (records : list json) (v : json) (i : string) (w : World) (count : nat)
    (w' : World) :
  parse content = Some (JArr records) -> v ∈ records ->
  stored_text "title" v = None ->
  stored_text "id" v = Some i -> i <> "" -> Some i ∉ (id <$> notes w) ->
  handleFileChange content w = Ok (Imported count) w' ->
  forall q, filteredNotes (notes w') q = None.
Proof.
  intros Hparse Hv Htitle Hid Hi Hnew. unfold handleFileChange, try_catch.
  rewrite Hparse. unfold bind at 1.
  destruct (mapM normalize records w) as [ns wa| |] eqn:Hrecords;
    [|discriminate..].
  unfold bind at 1, handleImportNotes. rewrite importNotes_run, filter_fresh_id.
  intros [= _ <-] q. cbn [notes saved].
  destruct (mapM_member _ _ _ Hv _ _ _ Hrecords) as (n & w1 & w2 & Hn & Hin).
  apply normalize_texts in Hn as (Hnid & Hnt & _).
  apply filteredNotes_None, Exists_exists. exists n. split.
  - apply elem_of_app. left. apply list_elem_of_filter. split; [|exact Hin].
    rewrite (Hnid i Hid Hi).
    apply mapM_normalize_keeps_store in Hrecords as [-> _]. exact Hnew.
  - left. congruence.
Qed.

End ImportAndList.

(** * The page *)

Section PageFacts.

Context `{Host}.

#[local] Arguments JSON_stringify : simpl never.
#[local] Arguments of_time : simpl never.
#[local] Arguments toString : simpl never.

Lemma find_head_filter {A} (f : A -> bool) (l : list A) :
  List.find f l = head (List.filter f l).
Proof.
  induction l as [|x l IH]; [reflexivity|]. cbn [List.find List.filter].
  now destruct (f x).
Qed.

Lemma Index_run (sel : option Note) (w : World) :
  Index sel w =
  Ok match sel, notes w with
     | None, first :: _ => Some first
     | _, _ => sel
     end w.
Proof. reflexivity. Qed.

Lemma handleDeleteNote_run (i : string) (sel : option Note) (w : World) :
  handleDeleteNote i sel w =
  Ok (if selected_is i sel then
        if (1 <? length (notes w))%nat
        then List.find (fun n => negb (id_is i n)) (notes w)
        else None
      else sel)
     (saved w (List.filter (fun n => negb (id_is i n)) (notes w)) (ticks w)).
Proof. reflexivity. Qed.

(** X13. When the selected note is deleted, the page shows the first of
    the notes that remain, and no note when none remains. *)
Theorem deleting_the_selected_note_selects_the_first (i : string) (s : Note)
    (w : World) :
  id s = Some i ->
  (let* sel := handleDeleteNote i (Some s) in Index sel) w
  = let remaining := filter (fun n => id n <> Some i) (notes w) in
    Ok (head remaining) (saved w remaining (ticks w)).
Proof.
  intros Hs. unfold bind. rewrite handleDeleteNote_run, Index_run.
  cbn [selected_is notes saved]. apply id_is_spec in Hs. rewrite Hs.
  rewrite find_head_filter, filter_not_id. cbv zeta.
  destruct (1 <? length (notes w))%nat;
    now destruct (filter (fun n => id n <> Some i) (notes w)).
Qed.

Lemma Index_listed (sel1 : option Note) (w1 : World) (sel2 : option Note) :
  (forall s, sel1 = Some s -> exists n, n ∈ notes w1 /\ id n = id s) ->
  Index sel1 w1 = Ok sel2 w1 -> listed w1 sel2.
Proof.
  intros Hsel. rewrite Index_run. intros [= <-].
  destruct sel1 as [s|]; [cbn; eauto|].
  destruct (notes w1) as [|first rest] eqn:Hnotes; cbn; [exact Hnotes|].
  exists first. rewrite Hnotes. split; [left | reflexivity].
Qed.

Lemma Index_selects (sel1 : option Note) (w1 : World) (sel2 : option Note) :
  Index sel1 w1 = Ok sel2 w1 -> sel2 = None -> notes w1 = [].
Proof.
  rewrite Index_run. intros [= <-]. destruct sel1 as [s|]; [discriminate|].
  now destruct (notes w1).
Qed.

Lemma listed_Some (w : World) (sel : option Note) (s : Note) :
  listed w sel -> sel = Some s -> exists n, n ∈ notes w /\ id n = id s.
Proof. intros Hsel ->. exact Hsel. Qed.

Lemma handleFileChange_keeps_notes (content : string) (w : World)
    (report : import_report) (w1 : World) :
  handleFileChange content w = Ok report w1 ->
  exists added, notes w1 = (added ++ notes w)%list.
Proof.
  unfold handleFileChange, try_catch.
  destruct (parse content) as [v|]; [|intros [= _ <-]; now exists []].
  destruct v as [|b|l|s|records|ms]; try (intros [= _ <-]; now exists []).
  unfold bind at 1.
  pose proof (mapM_normalize_store records w) as Hrecords.
  destruct (mapM normalize records w) as [ns wa|e wa|]; [| |discriminate].
  - unfold bind at 1, handleImportNotes. rewrite importNotes_run.
    intros [= _ <-]. cbn [notes saved]. destruct Hrecords as [-> _]. eauto.
  - intros [= _ <-]. exists []. apply Hrecords.
Qed.

(** Whenever no note is selected, there is none. *)
Lemma page_selects (prompt : bool) (w : World) (sel : option Note)
    (reads : list (list Note * string)) :
  page prompt w sel reads -> sel = None -> notes w = [].
Proof. induction 1; eauto using Index_selects. Qed.

Lemma one_read (A : Type) (before after : list A) (x y : A) :
  (before ++ x :: after = [y])%list -> before = [] /\ after = [] /\ x = y.
Proof.
  destruct before as [|b before]; cbn.
  - now intros [= -> <-].
  - intros [= _ Hrest]. now destruct before.
Qed.

(** As long as every file is read before anything else is done, at
    most one file is being read, which was chosen in the collection as
    it is, and the selected note is one of the collection. *)
Lemma page_prompt (w : World) (sel : option Note)
    (reads : list (list Note * string)) :
  page true w sel reads ->
  listed w sel /\
  (reads = [] \/ exists content, reads = [(notes w, content)]).
Proof.
  induction 1 as [w w' sel _ _ Hrender
                 |w sel reads sel1 w1 sel2 _ [IH _] Hnone Hrun Hrender
                 |w sel reads i sel1 w1 sel2 _ [IH _] Hnone Hrun Hrender
                 |w sel reads note sel1 w1 sel2 _ [IH _] Hnone Hnote Hrun
                    Hrender
                 |w sel reads i updates w1 sel2 _ [IH _] Hnone Hrun Hrender
                 |w sel reads content _ [IH _] Hnone
                 |w sel before after seen content report w1 sel2 _
                    [IH Hreads] Hrun Hrender
                 |w sel reads report w1 sel2 _ [IH _] Hnone Hrun Hrender].
  - split; [|now left]. eapply Index_listed; [|exact Hrender]. discriminate.
  - split; [|left; now apply Hnone].
    eapply Index_listed; [|exact Hrender].
    unfold handleCreateNote, bind in Hrun. rewrite createNote_run in Hrun.
    cbv zeta in Hrun. injection Hrun as <- <-. intros s [= <-].
    eexists. split; [left | reflexivity].
  - split; [|left; now apply Hnone].
    eapply Index_listed; [|exact Hrender].
    rewrite handleDeleteNote_run in Hrun. injection Hrun as <- <-.
    cbn [notes saved]. rewrite filter_not_id. intros s Hs.
    destruct (selected_is i sel) eqn:Hsel.
    + destruct (1 <? length (notes w))%nat; [|discriminate].
      rewrite find_head_filter, filter_not_id in Hs.
      destruct (filter _ (notes w)) as [|first rest]; [discriminate|].
      injection Hs as <-. exists first. split; [left | reflexivity].
    + subst sel. destruct IH as (n & Hn & Hid). exists n. split; [|exact Hid].
      apply list_elem_of_filter. split; [|exact Hn].
      cbn [selected_is] in Hsel. apply id_is_false in Hsel. congruence.
  - split; [|left; now apply Hnone].
    eapply Index_listed; [|exact Hrender].
    injection Hrun as <- <-. intros s [= <-]. eauto.
  - split; [|left; now apply Hnone].
    eapply Index_listed; [|exact Hrender].
    rewrite updateNote_run in Hrun. injection Hrun as <-.
    cbn [notes saved]. intros s Hs.
    destruct (listed_Some _ _ _ IH Hs) as (n & Hn & Hid).
    apply (list_elem_of_fmap_2 id) in Hn.
    rewrite <- (updated_ids i updates (notes w) (ticks w)) in Hn.
    apply list_elem_of_fmap in Hn as (n' & Hid' & Hn').
    exists n'. split; [exact Hn' | congruence].
  - split; [exact IH|]. right. exists content. now rewrite Hnone.
  - destruct Hreads as [Hreads|[content' Hreads]];
      [now destruct before|].
    apply one_read in Hreads as (-> & -> & [= -> _]).
    split; [|now left]. eapply Index_listed; [|exact Hrender].
    rewrite <- onload_current in Hrun.
    apply handleFileChange_keeps_notes in Hrun as [added Hnotes].
    intros s Hs. destruct (listed_Some _ _ _ IH Hs) as (n & Hn & Hid).
    exists n. split; [|exact Hid]. rewrite Hnotes. apply elem_of_app. now right.
  - split; [|left; now apply Hnone].
    eapply Index_listed; [|exact Hrender].
    assert (Hnotes : notes w1 = notes w).
    { revert Hrun. unfold handleExportNotes, exportNotes, bind at 1, getNotes.
      unfold bind at 1, new_Date, bind at 1, Date_now. unfold ret at 1.
      destruct (toISOString _); now intros [= _ <-]. }
    intros s Hs. rewrite Hnotes. exact (listed_Some _ _ _ IH Hs).
Qed.

End PageFacts.


(** * The placeholder of the editor *)

Section TypewriterFacts.

Lemma play_add (a b : nat) (p : TypewriterTextProps) : forall s,
  play (a + b) p s =
  '(s1, t1) ← play a p s; '(s2, t2) ← play b p s1; Some (s2, t1 + t2).
Proof.
  induction a as [|a IH]; intros s; cbn [play Nat.add mbind option_bind].
  - destruct (play b p s) as [[s2 t2]|]; reflexivity.
  - destruct (fire p s) as [s'|]; [|reflexivity]. cbn [mbind option_bind].
    rewrite IH. destruct (play a p s') as [[s1 t1]|]; [|reflexivity].
    cbn [mbind option_bind].
    destruct (play b p s1) as [[s2 t2]|]; [|reflexivity].
    cbn [mbind option_bind]. do 2 f_equal. lia.
Qed.

Lemma length_substring_exact (n : nat) : forall s : string,
  (n <= String.length s)%nat -> String.length (substring 0 n s) = n.
Proof.
  induction n as [|n IH]; intros [|c s] Hs; cbn in *; try lia.
  rewrite IH by lia. reflexivity.
Qed.

Lemma substring_substring (m n : nat) : forall s : string,
  (m <= n)%nat -> substring 0 m (substring 0 n s) = substring 0 m s.
Proof.
  revert n. induction m as [|m IH]; intros [|n] [|c s] Hmn; cbn;
    try reflexivity; try lia.
  rewrite IH by lia. reflexivity.
Qed.

Lemma typing_phase (p : TypewriterTextProps) (i : text_index) (text : string)
    (k : nat) : forall j,
  text_at (texts p) i = Some text -> (j + k <= String.length text)%nat ->
  play k p {| displayText := substring 0 j text; textIndex := i;
              isDeleting := false; isPaused := false |}
  = Some ({| displayText := substring 0 (j + k) text; textIndex := i;
             isDeleting := false; isPaused := false |},
          Z.of_nat k * speed p).
Proof.
  induction k as [|k IH]; intros j Hi Hk.
  - cbn [play]. now rewrite Nat.add_0_r.
  - cbn [play]. unfold fire at 1.
    cbn [isPaused isDeleting negb displayText textIndex].
    rewrite Hi. cbn [mbind option_bind].
    rewrite length_substring_exact by lia.
    replace (j <? String.length text)%nat with true
      by (symmetry; apply Nat.ltb_lt; lia).
    cbn [mbind option_bind].
    rewrite (IH (j + 1)%nat) by (assumption || lia).
    cbn [mbind option_bind]. unfold timeout. cbn [isPaused isDeleting].
    replace (j + 1 + k)%nat with (j + S k)%nat by lia.
    do 2 f_equal. lia.
Qed.

Lemma deleting_phase (p : TypewriterTextProps) (i : text_index) (k : nat) :
  forall d, (k <= String.length d)%nat ->
  play k p {| displayText := d; textIndex := i;
              isDeleting := true; isPaused := false |}
  = Some ({| displayText := substring 0 (String.length d - k) d;
             textIndex := i; isDeleting := true; isPaused := false |},
          Z.of_nat k * deleteSpeed p).
Proof.
  induction k as [|k IH]; intros d Hk.
  - cbn [play]. rewrite Nat.sub_0_r, substring_all by lia. reflexivity.
  - cbn [play]. unfold fire at 1.
    cbn [isPaused isDeleting negb displayText textIndex].
    replace (0 <? String.length d)%nat with true
      by (symmetry; apply Nat.ltb_lt; lia).
    cbn [mbind option_bind].
    rewrite IH by (rewrite length_substring_exact; lia).
    cbn [mbind option_bind]. unfold timeout. cbn [isPaused isDeleting].
    rewrite length_substring_exact, substring_substring by lia.
    replace (String.length d - 1 - k)%nat with (String.length d - S k)%nat
      by lia.
    do 2 f_equal. lia.
Qed.

Lemma fire_full (p : TypewriterTextProps) (i : text_index) (text : string) :
  text_at (texts p) i = Some text ->
  fire p {| displayText := text; textIndex := i; isDeleting := false;
            isPaused := false |}
  = Some {| displayText := text; textIndex := i; isDeleting := false;
            isPaused := true |}.
Proof.
  intros Hi. unfold fire.
  cbn [isPaused isDeleting negb displayText textIndex]. rewrite Hi.
  cbn [mbind option_bind]. now rewrite Nat.ltb_irrefl.
Qed.

Lemma fire_paused (p : TypewriterTextProps) (i : text_index) (d : string)
    (deleting : bool) :
  fire p {| displayText := d; textIndex := i; isDeleting := deleting;
            isPaused := true |}
  = Some {| displayText := d; textIndex := i; isDeleting := true;
            isPaused := false |}.
Proof. reflexivity. Qed.

Lemma fire_empty (p : TypewriterTextProps) (i : text_index) :
  fire p {| displayText := ""; textIndex := i; isDeleting := true;
            isPaused := false |}
  = Some {| displayText := "";
            textIndex := if loop p then next_index (texts p) i else i;
            isDeleting := false; isPaused := false |}.
Proof. reflexivity. Qed.

(** X15. On ASCII text, the placeholder types a text one character per
    timer, pauses, deletes it one character per timer and goes on to
    the next text, to the first one after the last; without [loop] it
    goes on with the same text again, so it never comes to rest.  A
    text of [n] characters takes [2 * n + 3] timers and
    [(n + 1) * (speed + deleteSpeed) + delay] milliseconds. *)
Theorem typewriter_goes_round (p : TypewriterTextProps) (i : nat)
    (text : string) :
  nth_error (texts p) i = Some text -> is_ascii text = true ->
  let n := String.length text in
  (forall k, (k <= n)%nat ->
     play k p (blank_at (At i))
     = Some ({| displayText := substring 0 k text; textIndex := At i;
                isDeleting := false; isPaused := false |},
             Z.of_nat k * speed p)) /\
  play (2 * n + 3) p (blank_at (At i))
  = Some (blank_at (if loop p then At ((i + 1) mod length (texts p))
                    else At i),
          (Z.of_nat n + 1) * (speed p + deleteSpeed p) + delay p).
Proof.
  intros Hi _ n.
  assert (Htyping : forall k, (k <= n)%nat ->
    play k p (blank_at (At i))
    = Some ({| displayText := substring 0 k text; textIndex := At i;
               isDeleting := false; isPaused := false |},
            Z.of_nat k * speed p)).
  { intros k Hk.
    pose proof (typing_phase p (At i) text k 0 Hi ltac:(lia)) as Hrun.
    replace (substring 0 0 text) with "" in Hrun by (now destruct text).
    exact Hrun. }
  split; [exact Htyping|].
  assert (Hnext : next_index (texts p) (At i)
                  = At ((i + 1) mod length (texts p))).
  { unfold next_index. destruct (texts p); [|reflexivity].
    now destruct i. }
  replace (2 * n + 3)%nat with (n + (2 + (n + 1)))%nat by lia.
  rewrite play_add, Htyping by lia. cbn [mbind option_bind].
  rewrite substring_all by reflexivity.
  rewrite play_add. cbn [play].
  rewrite (fire_full p (At i) text Hi). cbn [mbind option_bind].
  rewrite fire_paused. cbn [mbind option_bind].
  rewrite play_add, deleting_phase by reflexivity. cbn [mbind option_bind].
  fold n. rewrite Nat.sub_diag.
  replace (substring 0 0 text) with "" by (now destruct text).
  cbn [play]. rewrite fire_empty, Hnext. cbn [mbind option_bind].
  unfold timeout. cbn [isPaused isDeleting].
  unfold blank_at. do 2 f_equal. lia.
Qed.

Lemma length_cons_pos {A} (x : A) (l : list A) : (0 < length (x :: l))%nat.
Proof. cbn. lia. Qed.

(** X16. The placeholder runs for ever when it has a text to show:
    started on the first text, no timer throws, whatever the texts,
    and the index stays within the texts.  With no text at all the
    first timer throws and the placeholder stays empty. *)
Theorem typewriter_runs_for_ever (p : TypewriterTextProps) (k : nat) :
  (texts p <> [] ->
   exists s t i, play k p (blank_at (At 0)) = Some (s, t) /\
                 textIndex s = At i /\ (i < length (texts p))%nat) /\
  (texts p = [] -> play (S k) p (blank_at (At 0)) = None).
Proof.
  split.
  - intros Htexts.
    assert (Hstep : forall s i,
      textIndex s = At i -> (i < length (texts p))%nat ->
      exists s' j, fire p s = Some s' /\ textIndex s' = At j /\
                   (j < length (texts p))%nat).
    { intros s i Hs Hi. unfold fire. destruct (isPaused s); [eauto|].
      destruct (isDeleting s); cbn [negb].
      - destruct (0 <? String.length (displayText s))%nat; [eauto|].
        destruct (loop p); [|eauto].
        rewrite Hs. unfold next_index.
        destruct (texts p) as [|x l] eqn:Hl; [congruence|].
        eexists. eexists. split; [reflexivity|]. split; [reflexivity|].
        apply Nat.mod_upper_bound. cbn. lia.
      - rewrite Hs. cbn [text_at].
        destruct (nth_error (texts p) i) as [text|] eqn:Ht;
          [|apply nth_error_None in Ht; lia].
        cbn [mbind option_bind].
        destruct (_ <? _)%nat; eauto. }
    assert (Hplay : forall k s i,
      textIndex s = At i -> (i < length (texts p))%nat ->
      exists s' t j, play k p s = Some (s', t) /\ textIndex s' = At j /\
                     (j < length (texts p))%nat).
    { clear k. induction k as [|k IH]; intros s i Hs Hi; [cbn; eauto 6|].
      destruct (Hstep s i Hs Hi) as (s' & j & Hfire & Hs' & Hj).
      destruct (IH s' j Hs' Hj) as (s'' & t & j' & Hrun & Hs'' & Hj').
      cbn [play]. rewrite Hfire. cbn [mbind option_bind]. rewrite Hrun.
      cbn [mbind option_bind]. eauto 6. }
    apply (Hplay k _ 0%nat); [reflexivity|].
    destruct (texts p); [congruence | apply length_cons_pos].
  - intros Htexts. cbn [play]. unfold fire.
    cbn [blank_at isPaused isDeleting negb textIndex text_at].
    rewrite Htexts. reflexivity.
Qed.

End TypewriterFacts.


(** * The editor with delayed saving *)

Section EditorFacts.

Context `{Host}.

#[local] Arguments JSON_stringify : simpl never.
#[local] Arguments of_time : simpl never.

Lemma mapM_ext {A B} (f g : A -> M B) (l : list A) :
  (forall a, f a = g a) -> mapM f l = mapM g l.
Proof.
  intros Hfg. induction l as [|a l IH]; [reflexivity|].
  cbn [mapM]. now rewrite Hfg, IH.
Qed.

Lemma id_is_decide (i : string) (note : Note) :
  bool_decide (id note = Some i) = id_is i note.
Proof.
  destruct (id_is i note) eqn:Hn.
  - apply bool_decide_eq_true_2. now apply id_is_spec.
  - apply bool_decide_eq_false_2. now apply id_is_false.
Qed.

(** A save on the collection [seen], run in whatever world. *)
Lemma updateNote_of_run (seen : list Note) (i : string)
    (updates : NoteUpdates) (w : World) :
  updateNote_of seen (Some i) updates w =
  Ok tt (saved w (fst (updated i updates (ticks w) seen))
               (snd (updated i updates (ticks w) seen))).
Proof.
  unfold updateNote_of.
  rewrite (mapM_ext _ (fun note =>
             if id_is i note
             then let* d := new_Date in ret (merge note updates d)
             else ret note))
    by (intros note; now rewrite id_is_decide).
  unfold bind at 1. rewrite mapM_update. reflexivity.
Qed.

Lemma updateNote_of_current (i : string) (updates : NoteUpdates) (w : World) :
  updateNote_of (notes w) (Some i) updates w = updateNote i updates w.
Proof. now rewrite updateNote_of_run, updateNote_run. Qed.

Lemma typing_run (n : Note) (values : list string) (value : string) :
  forall (e : NoteEditor) (w : World),
  exists e',
    typing (Some n) (values ++ [value]) e w = Ok e' w /\
    e_title e' = Some value /\
    titleSaveTimeoutRef e' =
      Some {| seen := notes w; noteId := id n;
              updates := title_updates value |} /\
    contentSaveTimeoutRef e' = contentSaveTimeoutRef e /\
    savedTimeouts e' = savedTimeouts e.
Proof.
  induction values as [|v values IH]; intros e w.
  - eexists. split; [reflexivity|]. repeat split.
  - cbn [app typing]. unfold bind at 1.
    change (handleTitleChange (Some n) v e w) with
      (Ok {| e_title := Some v; e_content := e_content e;
             e_language := e_language e; saveStatus := Saving;
             titleSaveTimeoutRef :=
               Some {| seen := notes w; noteId := id n;
                       updates := title_updates v |};
             contentSaveTimeoutRef := contentSaveTimeoutRef e;
             savedTimeouts := savedTimeouts e |} w).
    cbv iota beta.
    match goal with |- context [typing _ _ ?e1 w] =>
      destruct (IH e1 w) as (e' & Hrun & Ht & Hp & Hc & Hs)
    end.
    exists e'. repeat split; assumption.
Qed.

(** X17. The editor saves a title once for a burst of typing: however
    many values are typed before the timer fires, what then happens to
    the store is one [updateNote] with the last value, and the status
    shows saving until the next timer sets it to saved. *)
Theorem typing_saves_once (n : Note) (i : string) (values : list string)
    (value : string) (e : NoteEditor) (w : World) :
  id n = Some i ->
  exists e' w',
    (let* e1 := typing (Some n) (values ++ [value]) e in title_timeout e1) w
    = Ok e' w' /\
    updateNote i (title_updates value) w = Ok tt w' /\
    e_title e' = Some value /\ titleSaveTimeoutRef e' = None /\
    saveStatus e' = Saving /\ saveStatus (saved_timeout e') = Saved.
Proof.
  intros Hn.
  destruct (typing_run n values value e w) as (e1 & Hrun & Ht & Hp & _ & _).
  unfold bind at 1. rewrite Hrun. unfold title_timeout. rewrite Hp.
  unfold debouncedSave, bind. cbn [seen noteId updates]. rewrite Hn.
  rewrite updateNote_of_current, updateNote_run.
  eexists. eexists. split; [reflexivity|]. cbn. repeat split. exact Ht.
Qed.

Lemma updated_keeps_content (i : string) (updates : NoteUpdates)
    (ns : list Note) :
  u_content updates = None ->
  forall k, (content <$> fst (updated i updates k ns)) = (content <$> ns).
Proof.
  intros Hu. induction ns as [|n ns IH]; intros k; [reflexivity|].
  cbn [updated]. destruct (id_is i n).
  - specialize (IH (S k)). destruct (updated i updates (S k) ns).
    cbn [fst] in *. rewrite !fmap_cons, IH. unfold merge. cbn [content].
    now rewrite Hu.
  - specialize (IH k). destruct (updated i updates k ns).
    cbn [fst] in *. now rewrite !fmap_cons, IH.
Qed.

(** X18. A save that waits for its timer works on the collection of
    the render in which the title was typed.  When it fires, the
    collection becomes that earlier collection with the title changed,
    and so does storage: whatever was done to the store while the timer
    was waiting (notes created, deleted or imported, other edits saved)
    is undone. *)
Theorem waiting_save_undoes_later_changes (n : Note) (i : string)
    (value : string) (e e1 : NoteEditor) (w w0 : World)
    (e1' : NoteEditor) (w1 : World) :
  id n = Some i ->
  handleTitleChange (Some n) value e w = Ok e1 w0 ->
  titleSaveTimeoutRef e1' = titleSaveTimeoutRef e1 ->
  exists e2 w2,
    title_timeout e1' w1 = Ok e2 w2 /\
    notes w2 = fst (updated i (title_updates value) (ticks w1) (notes w)) /\
    mirrored w2.
Proof.
  intros Hn [= <- <-] Hp. unfold title_timeout. rewrite Hp.
  cbn [titleSaveTimeoutRef]. unfold debouncedSave, bind.
  cbn [seen noteId updates]. rewrite Hn, updateNote_of_run.
  eexists. eexists. split; [reflexivity|].
  split; [reflexivity | apply lookup_insert_eq].
Qed.

(** X19. So two edits that wait at the same time do not both reach the
    store: when the content and then the title of a note are changed
    and the content's timer fires before the title's, the title's save
    puts back the content of before, in the collection and in storage,
    while the editor goes on showing the new content. *)
Theorem later_save_loses_the_earlier_one (n : Note) (i : string)
    (text value : string) (e : NoteEditor) (w : World) :
  id n = Some i ->
  exists e' w' k,
    (let* e1 := handleContentChange (Some n) (Some text) e in
     let* e2 := handleTitleChange (Some n) value e1 in
     let* e3 := content_timeout e2 in
     title_timeout e3) w = Ok e' w' /\
    notes w' = fst (updated i (title_updates value) k (notes w)) /\
    (content <$> notes w') = (content <$> notes w) /\
    mirrored w' /\
    e_content e' = Some (or_else (Some text) "").
Proof.
  intros Hn. unfold bind at 1.
  change (handleContentChange (Some n) (Some text) e w) with
    (Ok {| e_title := e_title e;
           e_content := Some (or_else (Some text) "");
           e_language := e_language e; saveStatus := Saving;
           titleSaveTimeoutRef := titleSaveTimeoutRef e;
           contentSaveTimeoutRef :=
             Some {| seen := notes w; noteId := id n;
                     updates := content_updates (or_else (Some text) "") |};
           savedTimeouts := savedTimeouts e |} w).
  cbv iota beta. unfold bind at 1.
  unfold handleTitleChange at 1, bind at 1, getNotes, ret at 1.
  cbv iota beta. unfold bind at 1, content_timeout at 1.
  cbn [contentSaveTimeoutRef]. unfold debouncedSave at 1, bind at 1.
  cbn [seen noteId updates]. rewrite Hn, updateNote_of_run.
  cbv iota beta. unfold ret at 1.
  unfold title_timeout. cbn [titleSaveTimeoutRef].
  unfold debouncedSave, bind. cbn [seen noteId updates].
  rewrite updateNote_of_run.
  eexists. eexists. eexists. split; [reflexivity|].
  cbn [notes saved]. split; [reflexivity|].
  split; [now apply updated_keeps_content|].
  split; [apply lookup_insert_eq | reflexivity].
Qed.

End EditorFacts.

(** * Runs on a concrete host *)

Section Runs.

Import Json Date.

#[local] Existing Instance ticking.

Lemma ticking_valid (k : nat) : in_range (clock k) = true.
Proof.
  unfold in_range, max_time. cbn [clock ticking].
  apply andb_true_iff. split; apply Z.leb_le; lia.
Qed.

Lemma ticking_monotone (j k : nat) : (j <= k)%nat -> clock j <= clock k.
Proof. cbn [clock ticking]. lia. Qed.

Lemma reachable_started : reachable started.
Proof. now apply (reach_start first_start). Qed.

Lemma reachable_with_second_note : reachable with_second_note.
Proof.
  eapply (reach_create started);
    [exact reachable_started | vm_compute; reflexivity].
Qed.

(** The scenarios of the specification. *)

Example first_start_seeds_welcome_note :
  exists n, notes started = [n] /\
            title n = Some "Welcome to Swift Notes" /\
            language n = "plaintext".
Proof. eexists. repeat split. Qed.

Example import_scenario :
  exists w',
    (useNotes_effect ;;
     handleFileChange
       (json_text "[{'id':'1','title':'X'},{'id':'2','title':'Y'}]"))
      first_start = Ok (Imported 2) w' /\
    (id <$> notes w') = [Some "2"; Some "1"] /\
    (title <$> notes w') = [Some "Y"; Some "Welcome to Swift Notes"].
Proof. eexists. split; [vm_compute; reflexivity|]. split; reflexivity. Qed.

(** C1.  The ids of a collection can repeat: an import file that gives
    the id "2" twice leaves two notes "2" in the collection, and two
    notes created within one millisecond get the same id. *)
Theorem ids_can_repeat :
  (exists w',
     (useNotes_effect ;;
      handleFileChange
        (json_text "[{'id':'2','title':'A'},{'id':'2','title':'B'}]"))
       first_start = Ok (Imported 2) w' /\
     (id <$> notes w') = [Some "2"; Some "2"; Some "1"] /\
     ~ NoDup (id <$> notes w')) /\
  (exists n1 w1 n2 w2,
     createNote (H := frozen) started = Ok n1 w1 /\
     createNote (H := frozen) w1 = Ok n2 w2 /\
     id n1 = Some "1700000000000" /\ id n2 = Some "1700000000000" /\
     ~ NoDup (id <$> notes w2)).
Proof.
  split.
  - eexists. split; [vm_compute; reflexivity|]. split; [reflexivity|].
    cbn. rewrite NoDup_cons. intros [Hfresh _]. apply Hfresh. left.
  - do 4 eexists. split; [vm_compute; reflexivity|].
    split; [vm_compute; reflexivity|]. split; [reflexivity|].
    split; [reflexivity|].
    cbn. rewrite NoDup_cons. intros [Hfresh _]. apply Hfresh. left.
Qed.

(** The hook itself takes any text for a language.  The editor passes
    only tags of [languages]; were the empty text passed, it would be
    saved as it is and read back as plaintext. *)
Remark empty_language_is_not_read_back :
  exists w',
    updateNote "1" blank_language started = Ok tt with_blank_language /\
    reachable with_blank_language /\
    useNotes_effect with_blank_language = Ok tt w' /\
    (language <$> notes with_blank_language) = [""] /\
    (language <$> notes w') = ["plaintext"] /\
    notes w' <> notes with_blank_language.
Proof.
  assert (Hrun : updateNote "1" blank_language started
                 = Ok tt with_blank_language) by (vm_compute; reflexivity).
  eexists. split; [exact Hrun|].
  split; [exact (reach_update started _ _ _ reachable_started Hrun)|].
  split; [vm_compute; reflexivity|].
  split; [reflexivity|]. split; [reflexivity|]. discriminate.
Qed.





(** C9, as stated, fails: an import file whose record is created in
    2025 and updated in 2020 leaves a note in the collection whose
    [updatedAt] is before its [createdAt]. *)
Lemma imported_stamps_can_be_reversed :
  exists w' n,
    (useNotes_effect ;;
     handleFileChange
       (json_text "[{'id':'9','createdAt':'2025-01-01T00:00:00.000Z','updatedAt':'2020-01-01T00:00:00.000Z'}]"))
      first_start = Ok (Imported 1) w' /\
    notes w' !! 0%nat = Some n /\
    createdAt n = DateAt 1735689600000 /\
    updatedAt n = DateAt 1577836800000 /\
    ~ Date_le (createdAt n) (updatedAt n).
Proof.
  do 2 eexists. split; [vm_compute; reflexivity|].
  split; [reflexivity|]. split; [reflexivity|]. split; [reflexivity|].
  cbn. lia.
Qed.

Lemma stamps_ordered_without_import_witness :
  reachable with_second_note /\
  Forall (fun n => Date_le (createdAt n) (updatedAt n))
         (notes with_second_note) /\
  exists w',
    updateNote "1" no_updates with_second_note = Ok tt w' /\
    Forall (fun n => Date_le (createdAt n) (updatedAt n)) (notes w') /\
    Forall2 (fun n n' => Date_le (updatedAt n) (updatedAt n'))
            (notes with_second_note) (notes w').
Proof.
  split; [exact reachable_with_second_note|].
  destruct (stamps_ordered_without_import ticking_valid ticking_monotone
              with_second_note reachable_with_second_note) as [Hnow Hlater].
  split; [exact Hnow|].
  eexists. split; [vm_compute; reflexivity|].
  apply (Hlater "1" no_updates). vm_compute. reflexivity.
Defined.

(** C5, as stated, fails: on a clock that stands still, the welcome note
    whose content was emptied has the reading of the clock for its
    [updatedAt], and the update of the content to "hello" in the same
    millisecond leaves it with that very [updatedAt], not a later
    one. *)
Lemma same_millisecond_update_is_not_later :
  exists n w' n',
    notes emptied_at_once = [n] /\ id n = Some "1" /\ content n = Some "" /\
    updatedAt n = DateAt 1700000000000 /\
    updateNote (H := frozen) "1"
      {| u_title := None; u_content := Some "hello";
         u_language := None; u_updatedAt := None |} emptied_at_once
    = Ok tt w' /\
    notes w' = [n'] /\ content n' = Some "hello" /\
    updatedAt n' = DateAt 1700000000000 /\
    ~ Date_lt (DateAt 1700000000000) (updatedAt n').
Proof.
  do 3 eexists. split; [vm_compute; reflexivity|].
  do 3 (split; [reflexivity|]). split; [vm_compute; reflexivity|].
  do 3 (split; [reflexivity|]). cbn. lia.
Qed.

Lemma updateNote_merges_fields_witness :
  let n := {| id := Some "1"; title := Some "t"; content := Some "";
              language := "plaintext";
              createdAt := DateAt 1600000000000;
              updatedAt := DateAt 1600000000000 |} in
  let w := {| notes := [n];
              localStorage := {[ STORAGE_KEY := JSON_stringify [n] ]};
              ticks := 0; draws := 0 |} in
  exists w' n',
    updateNote "1" {| u_title := None; u_content := Some "hello";
                      u_language := None; u_updatedAt := None |} w
    = Ok tt w' /\
    notes w' = [n'] /\ content n' = Some "hello" /\
    updatedAt n' = DateAt 1700000000000 /\
    Date_lt (DateAt 1600000000000) (updatedAt n').
Proof.
  intros n w.
  destruct (proj2 (updateNote_merges_fields "1" no_updates w) n 1600000000000
              eq_refl eq_refl eq_refl eq_refl)
    as (w' & n' & Hrun & Hnotes & _ & _ & _ & _ & Hcontent & Hat & Hlater).
  exists w', n'. split; [exact Hrun|]. split; [exact Hnotes|].
  split; [exact Hcontent|]. split; [rewrite Hat; reflexivity|].
  apply Hlater. split; reflexivity.
Defined.

Lemma importNotes_keeps_existing_witness :
  let content := json_text "[{'id':'1','title':'X'},{'id':'2','title':'Y'}]" in
  exists w',
    onload (notes started) content with_second_note = Ok (Imported 2) w' /\
    (id <$> notes w') = [Some "2"; Some "1"] /\
    (title <$> notes w') = [Some "Y"; Some "Welcome to Swift Notes"].
Proof.
  intros content.
  destruct (proj1 (proj2 (importNotes_keeps_existing [] with_second_note))
              (notes started) content
              [JObj [("id", JStr "1"); ("title", JStr "X")];
               JObj [("id", JStr "2"); ("title", JStr "Y")]])
    as (validNotes & added & w' & Hrun & _).
  - vm_compute. reflexivity.
  - repeat constructor; eexists; reflexivity.
  - exists w'. split; [exact Hrun|].
    vm_compute in Hrun. injection Hrun as <-. split; reflexivity.
Defined.

Lemma missing_id_is_noop_witness :
  (forall n, n ∈ notes started -> id n <> Some "2") /\
  (exists w', updateNote "2" no_updates started = Ok tt w' /\
              notes w' = notes started) /\
  (exists w', deleteNote "2" started = Ok tt w' /\
              notes w' = notes started).
Proof.
  assert (Hmiss : forall n, n ∈ notes started -> id n <> Some "2").
  { intros n Hn. apply list_elem_of_singleton in Hn as ->. discriminate. }
  split; [exact Hmiss|].
  destruct (missing_id_is_noop "2" no_updates started Hmiss)
    as [(w1 & Hu & Hnu & _) (w2 & Hd & Hnd & _)].
  split; [exists w1 | exists w2]; split; assumption.
Defined.

End Runs.

(** * More runs on the concrete host *)

Section MoreRuns.

Import Json Date.

#[local] Existing Instance ticking.

Lemma complete_started : Forall complete (notes started).
Proof.
  constructor; [|constructor]. unfold complete. cbn.
  split; [exists "1"; split; [reflexivity | discriminate]|].
  split; [discriminate|]. split; eexists; split; reflexivity.
Qed.

Lemma mirrored_started : mirrored started.
Proof. apply lookup_insert_eq. Qed.

Lemma import_reads_own_export_witness :
  let dataStr :=
    stringify_indented "" (JArr (map note_toJSON (notes started))) in
  Forall complete (notes started) /\
  handleFileChange dataStr first_start
  = Ok (Imported 1) (saved first_start (notes started) 0).
Proof.
  intros dataStr. split; [exact complete_started|].
  apply (proj1 (proj2 (import_reads_own_export started first_start _ dataStr _
                         complete_started
                         (exportNotes_run started (ticking_valid _))))).
  reflexivity.
Defined.

Lemma mount_on_stored_text_only_reads_witness :
  let records := [JObj [("id", JStr "1"); ("title", JStr "A");
                        ("createdAt", JStr "2020-01-01T00:00:00.000Z")];
                  JObj [("id", JStr "2"); ("language", JNull)]] in
  let text := stringify (JArr records) in
  let w := {| notes := []; localStorage := {[ STORAGE_KEY := text ]};
              ticks := 0; draws := 0 |} in
  exists ns,
    useNotes_effect w
    = Ok tt {| notes := ns; localStorage := localStorage w;
               ticks := ticks w; draws := draws w |} /\
    Forall2 read_from records ns.
Proof.
  intros records text w.
  apply (proj2 (proj2 (mount_on_stored_text_only_reads w text eq_refl
                         ltac:(discriminate))) records).
  - vm_compute. reflexivity.
  - do 2 (constructor; [right; eexists; reflexivity|]). constructor.
Defined.

Lemma failed_import_changes_nothing_witness :
  let content := json_text "[{'title':'A'},null]" in
  exists w',
    onload (notes started) content with_second_note = Ok Alerted w' /\
    notes w' = notes with_second_note /\
    localStorage w' = localStorage with_second_note.
Proof.
  intros content.
  apply (proj2 (proj2 (failed_import_changes_nothing (notes started) content
                         with_second_note))
           [JObj [("title", JStr "A")]; JNull]).
  - vm_compute. reflexivity.
  - constructor; [right; eexists; reflexivity|].
    constructor; [now left | constructor].
  - right. left.
Defined.

Lemma storage_follows_collection_witness :
  exists w', runs [Create; Delete "1"; Export] started = Ok tt w' /\
             mirrored w'.
Proof.
  destruct (runs [Create; Delete "1"; Export] started) as [[] w'|e w'|]
    eqn:Hrun; [|vm_compute in Hrun; discriminate..].
  exists w'. split; [reflexivity|].
  apply (storage_follows_collection _ _ _ Hrun). exact mirrored_started.
Defined.

Lemma distinct_ids_stay_distinct_witness :
  (id <$> notes with_second_note) = [Some "1700000000002"; Some "1"] /\
  NoDup (id <$> notes with_second_note) /\
  (forall i updates w',
     updateNote i updates with_second_note = Ok tt w' ->
     NoDup (id <$> notes w')) /\
  (forall i w',
     deleteNote i with_second_note = Ok tt w' -> NoDup (id <$> notes w')) /\
  (forall w',
     importNotes [a_note "7" "A" ""; a_note "1" "B" ""; a_note "8" "C" ""]
                 with_second_note = Ok tt w' ->
     NoDup (id <$> notes w')) /\
  (forall n w',
     createNote with_second_note = Ok n w' -> NoDup (id <$> notes w')).
Proof.
  assert (Hids : NoDup (id <$> notes with_second_note)).
  { change (NoDup [Some "1700000000002"; Some "1"]).
    apply NoDup_cons. split; [|apply NoDup_singleton].
    intros Hin. apply list_elem_of_singleton in Hin. discriminate. }
  destruct (distinct_ids_stay_distinct with_second_note Hids)
    as (Hupdate & Hdelete & Himport & Hcreate).
  split; [reflexivity|]. split; [exact Hids|]. split; [exact Hupdate|].
  split; [exact Hdelete|]. split.
  - intros w'. apply Himport.
    change (NoDup [Some "7"; Some "1"; Some "8"]).
    repeat (apply NoDup_cons; split;
            [intros Hin;
             repeat (apply elem_of_cons in Hin as [Hin|Hin]; [discriminate|]);
             now apply elem_of_nil in Hin|]).
    apply NoDup_nil_2.
  - intros n w' Hrun. apply (Hcreate n w' Hrun).
    change (Some "1700000000005" ∉ [Some "1700000000002"; Some "1"]).
    intros Hin.
    repeat (apply elem_of_cons in Hin as [Hin|Hin]; [discriminate|]).
    now apply elem_of_nil in Hin.
Defined.

Lemma saved_collection_is_read_back_witness :
  (saveNotes (notes started) ;; useNotes_effect) first_start
  = Ok tt {| notes := reloaded <$> notes started;
             localStorage :=
               <[STORAGE_KEY := JSON_stringify (notes started)]>
                 (localStorage first_start);
             ticks := ticks first_start; draws := draws first_start |}.
Proof.
  apply (saved_collection_is_read_back (notes started) first_start).
  constructor; [split; reflexivity | constructor].
Defined.

Lemma import_fills_id_and_language_only_witness :
  let v := JObj [("title", JStr "A"); ("language", JNull);
                 ("updatedAt", JStr "2020-01-01T00:00:00.000Z")] in
  exists n,
    normalize v first_start
    = Ok n {| notes := []; localStorage := ∅; ticks := 2; draws := 1 |} /\
    id n = Some "17000000000000.5" /\ title n = Some "A" /\
    content n = None /\ language n = "plaintext" /\
    createdAt n = DateAt 1700000000001 /\
    updatedAt n = DateAt 1577836800000.
Proof.
  intros v.
  assert (Hv : note_shaped v) by (eexists; reflexivity).
  pose proof (import_fills_id_and_language_only v first_start Hv) as Hrun.
  cbv zeta in Hrun.
  destruct Hrun as (n & Hrun & Hid & Ht & Hc & Hl & Hca & Hua & _).
  exists n. split; [exact Hrun|]. split; [exact Hid|]. split; [exact Ht|].
  split; [exact Hc|]. split; [exact Hl|]. split; [exact Hca | exact Hua].
Defined.

Lemma second_import_adds_nothing_witness :
  let content := json_text "[{'id':'7','title':'A'},{'id':'7'}]" in
  exists count w1 w2,
    handleFileChange content started = Ok (Imported count) w1 /\
    handleFileChange content w1 = Ok (Imported count) w2 /\
    notes w2 = notes w1 /\ localStorage w2 = localStorage w1.
Proof.
  intros content.
  destruct (handleFileChange content started) as [[count| |] w1|e w1|]
    eqn:Hrun; try (vm_compute in Hrun; discriminate).
  destruct (second_import_adds_nothing content
              [JObj [("id", JStr "7"); ("title", JStr "A")];
               JObj [("id", JStr "7")]] started count w1)
    as (w2 & Hsecond & Hnotes & Hstorage).
  - vm_compute. reflexivity.
  - repeat constructor; exists "7"; (split; [reflexivity | discriminate]).
  - exact Hrun.
  - exists count, w1, w2. repeat split; assumption.
Defined.

Lemma list_fails_on_missing_text_witness :
  let ns := [a_note "1" "Shopping" "milk"; a_note "2" "Work" "call"] in
  filteredNotes ns "" = Some ns.
Proof.
  intros ns.
  apply (list_fails_on_missing_text ns ""); [reflexivity | reflexivity|].
  repeat constructor; discriminate.
Defined.

Lemma longer_query_narrows_the_list_witness :
  let ns := [a_note "1" "Shopping" "milk"; a_note "2" "Work" "shop hours";
             a_note "3" "Other" "none"] in
  exists l, filteredNotes ns "shop" = Some l /\
            sublist [a_note "1" "Shopping" "milk"] l /\ sublist l ns.
Proof.
  intros ns.
  apply (longer_query_narrows_the_list ns "" "shop" "ping"); reflexivity.
Defined.

Lemma preview_is_first_line_then_dots_witness :
  (String.length (getPreview "Milk and eggs") <= 63)%nat /\
  getPreview "Milk and eggs" = "Milk and eggs".
Proof.
  destruct (preview_is_first_line_then_dots "Milk and eggs" eq_refl)
    as (Hlength & _ & Hshort & _).
  split; [exact Hlength|]. apply Hshort. cbn. lia.
Defined.

Lemma deleting_the_selected_note_selects_the_first_witness :
  let remaining :=
    filter (fun n => id n <> Some "1") (notes with_second_note) in
  (let* sel := handleDeleteNote "1" (Some (a_note "1" "" "")) in Index sel)
    with_second_note
  = Ok (head remaining)
       (saved with_second_note remaining (ticks with_second_note)).
Proof.
  exact (deleting_the_selected_note_selects_the_first "1" (a_note "1" "" "")
           with_second_note eq_refl).
Defined.

Lemma page_started (prompt : bool) :
  page prompt started (head (notes started)) [].
Proof. apply (page_mount prompt first_start); reflexivity. Qed.

(** The file is chosen after the first start, a note is made while the
    file is read, and then the file is imported into the collection as
    it was when it was chosen. *)
Lemma page_overtaken :
  page false overtaken (head (notes with_second_note)) [].
Proof.
  apply (page_load false with_second_note (head (notes with_second_note))
           [] [] (notes started) one_record (Imported 1));
    [|vm_compute; reflexivity|reflexivity].
  apply (page_create false started (head (notes started))
           [(notes started, one_record)] (head (notes with_second_note)));
    [|discriminate|vm_compute; reflexivity|reflexivity].
  apply (page_choose false started (head (notes started)) []);
    [|discriminate].
  apply page_started.
Qed.

(** X14. Whenever the page has rendered, a note is selected unless the
    collection is empty.  As long as every chosen file is read before
    anything else is done, the selected note is moreover one of the
    collection, by its id, through every handler (create, delete,
    select from the list, update at once, import, export).  Not so when
    something is done while a file is read: [onload] imports into the
    collection of the render in which the file was chosen, so a note
    that was made and selected in between is selected still and no
    longer in the collection. *)
Theorem the_selection_is_listed :
  (forall (H : Host) (prompt : bool) (w : World) (sel : option Note)
          (reads : list (list Note * string)),
     page (H := H) prompt w sel reads -> sel = None -> notes w = []) /\
  (forall (H : Host) (w : World) (sel : option Note)
          (reads : list (list Note * string)),
     page (H := H) true w sel reads -> listed w sel) /\
  (exists s,
     head (notes with_second_note) = Some s /\
     page (H := ticking) false overtaken (Some s) [] /\
     id s = Some "1700000000002" /\
     (id <$> notes overtaken) = [Some "7"; Some "1"] /\
     ~ listed overtaken (Some s)).
Proof.
  split; [|split].
  - intros H. apply page_selects.
  - intros H w sel reads Hpage. now apply page_prompt in Hpage.
  - eexists. split; [reflexivity|]. split; [exact page_overtaken|].
    split; [reflexivity|]. split; [reflexivity|].
    intros (n & Hn & Hid). apply (list_elem_of_fmap_2 id) in Hn.
    rewrite Hid in Hn.
    change (Some "1700000000002" ∈ [Some "7"; Some "1"]) in Hn.
    repeat (apply elem_of_cons in Hn as [Hn|Hn]; [discriminate|]).
    now apply elem_of_nil in Hn.
Qed.

Lemma the_selection_is_listed_witness :
  page true with_seven (head (notes started)) [] /\
  (id <$> notes with_seven) = [Some "7"; Some "1"] /\
  listed with_seven (head (notes started)).
Proof.
  assert (Hpage : page true with_seven (head (notes started)) []).
  { apply (page_load true started (head (notes started))
             [] [] (notes started) one_record (Imported 1));
      [|vm_compute; reflexivity|reflexivity].
    apply (page_choose true started (head (notes started)) []);
      [apply page_started | reflexivity]. }
  split; [exact Hpage|]. split; [reflexivity|].
  exact (proj1 (proj2 the_selection_is_listed) ticking _ _ _ Hpage).
Defined.

Lemma typewriter_goes_round_witness :
  play 45 placeholder (blank_at (At 0))
  = Some (blank_at (At 1), 22 * (80 + 40) + 1500).
Proof.
  exact (proj2 (typewriter_goes_round placeholder 0 "Select a note to edit"
                  eq_refl eq_refl)).
Defined.

Lemma typing_saves_once_witness :
  exists e' w',
    (let* e1 := typing (Some (a_note "1" "" "")) (["a"; "ab"] ++ ["abc"])
                       NoteEditor_initial in
     title_timeout e1) started = Ok e' w' /\
    updateNote "1" (title_updates "abc") started = Ok tt w' /\
    e_title e' = Some "abc" /\ titleSaveTimeoutRef e' = None /\
    saveStatus e' = Saving /\ saveStatus (saved_timeout e') = Saved.
Proof.
  apply (typing_saves_once (a_note "1" "" "") "1"). reflexivity.
Defined.

Lemma waiting_save_undoes_later_changes_witness :
  let n := a_note "1" "" "" in
  let e1 := {| e_title := Some "T"; e_content := Some "";
               e_language := "plaintext"; saveStatus := Saving;
               titleSaveTimeoutRef :=
                 Some {| seen := notes started; noteId := Some "1";
                         updates := title_updates "T" |};
               contentSaveTimeoutRef := None; savedTimeouts := 0 |} in
  handleTitleChange (Some n) "T" NoteEditor_initial started = Ok e1 started /\
  length (notes with_second_note) = 2%nat /\
  exists e2 w2,
    title_timeout e1 with_second_note = Ok e2 w2 /\
    notes w2 = fst (updated "1" (title_updates "T") (ticks with_second_note)
                            (notes started)) /\
    mirrored w2.
Proof.
  intros n e1. split; [reflexivity|]. split; [reflexivity|].
  apply (waiting_save_undoes_later_changes n "1" "T" NoteEditor_initial e1
           started started e1 with_second_note); reflexivity.
Defined.

Lemma later_save_loses_the_earlier_one_witness :
  let n := a_note "1" "" "" in
  exists e' w' k,
    (let* e1 := handleContentChange (Some n) (Some "new text")
                                    NoteEditor_initial in
     let* e2 := handleTitleChange (Some n) "T" e1 in
     let* e3 := content_timeout e2 in
     title_timeout e3) started = Ok e' w' /\
    notes w' = fst (updated "1" (title_updates "T") k (notes started)) /\
    (content <$> notes w') = (content <$> notes started) /\
    mirrored w' /\
    e_content e' = Some (or_else (Some "new text") "").
Proof.
  intros n. apply (later_save_loses_the_earlier_one n "1"). reflexivity.
Defined.

Lemma import_without_title_breaks_the_list_witness :
  let content := json_text "[{'id':'7','content':'x'}]" in
  exists count w',
    handleFileChange content started = Ok (Imported count) w' /\
    forall q, filteredNotes (notes w') q = None.
Proof.
  intros content.
  destruct (handleFileChange content started) as [[count| |] w'|e w'|]
    eqn:Hrun; try (vm_compute in Hrun; discriminate).
  exists count, w'. split; [reflexivity|].
  apply (import_without_title_breaks_the_list content
           [JObj [("id", JStr "7"); ("content", JStr "x")]]
           (JObj [("id", JStr "7"); ("content", JStr "x")]) "7"
           started count w').
  - vm_compute. reflexivity.
  - left.
  - reflexivity.
  - reflexivity.
  - discriminate.
  - cbn. intros Hin. apply list_elem_of_singleton in Hin. discriminate.
  - exact Hrun.
Defined.

Lemma export_is_named_by_the_day_witness :
  iso_date (clock (ticks started)) = "2023-11-14" /\
  exportNotes started =
  Ok (Downloaded
        ("swift-notes-export-" ++ iso_date (clock (ticks started)) ++ ".json")
        (stringify_indented "" (JArr (map note_toJSON (notes started)))))
     (later started).
Proof.
  split; [vm_compute; reflexivity|].
  exact (proj1 (proj1 (export_is_named_by_the_day started) (ticking_valid _))).
Defined.

Lemma mount_seeds_when_nothing_is_stored_witness :
  exists welcomeNote,
    useNotes_effect first_start = Ok tt (saved first_start [welcomeNote] 2) /\
    id welcomeNote = Some "1".
Proof.
  destruct (proj1 (mount_seeds_when_nothing_is_stored first_start)
              (or_introl (lookup_empty _)))
    as (welcomeNote & Hrun & Hid & _).
  exists welcomeNote. split; [exact Hrun | exact Hid].
Defined.

Lemma typewriter_runs_for_ever_witness :
  exists s t i,
    play 100 placeholder (blank_at (At 0)) = Some (s, t) /\
    textIndex s = At i /\ (i < 3)%nat.
Proof.
  exact (proj1 (typewriter_runs_for_ever placeholder 100)
           ltac:(discriminate)).
Defined.

Lemma formatDate_goes_by_full_days_witness :
  formatDate (DateAt 1699900000000) started = Ok Yesterday (later started).
Proof.
  destruct (proj1 (formatDate_goes_by_full_days 1699900000000 started)
              (ticking_valid _) ltac:(cbn; lia))
    as (f & Hrun & _ & Hyesterday & _).
  rewrite Hrun. f_equal. apply Hyesterday. unfold ms_per_day. cbn. lia.
Defined.

End MoreRuns.
